(** * NERLearner: masks, truncated targets, metrics, checkpoints, freezing

    A shallow embedding of [model/ner_learner.py] (the learner that wraps
    a PyTorch sequence tagger with a CRF criterion) and the proofs of the
    properties its specification states about it.

    Python values are modelled as the code has them: [int] as [Z],
    two-dimensional tensors as a shape plus a list of rows, an
    [OrderedDict] as an association list, exceptions as an explicit
    [Raise] outcome. *)

From Stdlib Require Import ZArith QArith Qcanon Lia Ascii.
From stdpp Require Import base numbers list strings gmap.

#[local] Set Warnings "-register-all".

Open Scope Z_scope.
Open Scope nat_scope.

(** ** Python outcomes

    The exceptions the modelled code can raise; [CudaError] stands for the
    error torch raises when [.cuda()] is called without a CUDA device. *)

Inductive exn : Type :=
  | IndexError
  | KeyError
  | TypeError
  | AttributeError
  | ZeroDivisionError
  | FileNotFoundError
  | CudaError.

Inductive result (A : Type) : Type :=
  | Ok (a : A)
  | Raise (e : exn).
Arguments Ok {A} a.
Arguments Raise {A} e.

Definition rbind {A B} (r : result A) (k : A → result B) : result B :=
  match r with
  | Ok a => k a
  | Raise e => Raise e
  end.

(** ** Python slices

    [slice_index n k] is the position a slice bound [k] denotes in a
    sequence of length [n]: negative bounds count from the end, and every
    bound is clamped to [0 .. n]. *)

Definition slice_index (n : nat) (k : Z) : nat :=
  if (k <? 0)%Z then Z.to_nat (Z.max 0 (Z.of_nat n + k))
  else Nat.min (Z.to_nat k) n.

(** [l[:p]] *)
Definition py_take {A} (p : Z) (l : list A) : list A :=
  take (slice_index (length l) p) l.

(** ** Two-dimensional tensors

    [size0] and [size1] are [t.size(0)] and [t.size(1)]; [rows] holds the
    [size0] rows of [size1] entries each. *)

Record tensor (A : Type) : Type := mkTensor {
  size0 : nat;
  size1 : nat;
  rows : list (list A)
}.
Arguments mkTensor {A} _ _ _.
Arguments size0 {A} _.
Arguments size1 {A} _.
Arguments rows {A} _.

Definition shaped {A} (t : tensor A) : Prop :=
  length (rows t) = size0 t ∧ Forall (λ r, length r = size1 t) (rows t).

(** [t[i, j]] *)
Definition entry {A} (t : tensor A) (i j : nat) : option A :=
  rows t !! i ≫= λ r, r !! j.

(** [torch.ones(d0, d1).type(torch.ByteTensor)] *)
Definition ones (d0 d1 : nat) : tensor bool :=
  mkTensor d0 d1 (replicate d0 (replicate d1 true)).

(** [t.transpose(0,1)] *)
Definition transpose {A} (t : tensor A) : tensor A :=
  mkTensor (size1 t) (size0 t)
    ((λ j, omap (λ r, r !! j) (rows t)) <$> seq 0 (size1 t)).

(** [x.cuda()]: moving a tensor or a module to the accelerator raises when
    no CUDA device is available. *)
Definition cuda {A} (cuda_is_available : bool) (x : A) : result A :=
  if cuda_is_available then Ok x else Raise CudaError.

(** [mask.data[l:, i] = 0]: column [i] is cleared in every row of the slice
    [l:]; an [i] outside the second dimension raises. *)
Definition clear_rows_from (l : Z) (i : nat) (mask : tensor bool)
  : result (tensor bool) :=
  if decide (i < size1 mask) then
    Ok (mkTensor (size0 mask) (size1 mask)
          (imap (λ t r, if decide (slice_index (size0 mask) l ≤ t)
                        then <[i:=false]> r else r) (rows mask)))
  else Raise IndexError.

(** [mask.data[i, l:] = 0]: row [i] is cleared at every column of the
    slice [l:]; an [i] outside the first dimension raises. *)
Definition clear_cols_from (i : nat) (l : Z) (mask : tensor bool)
  : result (tensor bool) :=
  if decide (i < size0 mask) then
    Ok (mkTensor (size0 mask) (size1 mask)
          (alter (imap (λ j b, if decide (slice_index (size1 mask) l ≤ j)
                               then false else b)) i (rows mask)))
  else Raise IndexError.

(** ** [create_mask] *)

(** The body of [for i,l in enumerate(sequence_lengths)], from index [i]. *)
Fixpoint create_mask_loop (targets : tensor Z) (batch_first : bool)
    (i : nat) (sequence_lengths : list Z) (mask : tensor bool)
  : result (tensor bool) :=
  match sequence_lengths with
  | [] => Ok mask
  | l :: rest =>
      rbind
        (if batch_first then
           if decide (l < Z.of_nat (size1 targets))%Z
           then clear_cols_from i l mask else Ok mask
         else
           if decide (l < Z.of_nat (size0 targets))%Z
           then clear_rows_from l i mask else Ok mask)
        (create_mask_loop targets batch_first (S i) rest)
  end.

Definition create_mask (cuda_is_available : bool)
    (sequence_lengths : list Z) (targets : tensor Z) (batch_first : bool)
  : result (tensor bool) :=
  rbind (cuda cuda_is_available (ones (size0 targets) (size1 targets)))
        (create_mask_loop targets batch_first 0 sequence_lengths).

(** ** [mask_targets] *)

Definition mask_targets (targets : tensor Z) (sequence_lengths : list Z)
    (batch_first : bool) : list (list Z) :=
  let targets := if batch_first then targets else transpose targets in
  (λ lp, py_take lp.2 lp.1) <$> zip (rows targets) sequence_lengths.

(** ** Ordered dictionaries

    A [state_dict] is an [OrderedDict] from parameter names to tensors: an
    association list in insertion order.  [od_set] overwrites in place or
    appends, [od_del] removes the key. *)

Abbreviation odict V := (list (string * V)).

Fixpoint od_get {V} (k : string) (d : odict V) : option V :=
  match d with
  | [] => None
  | (k', v) :: d' => if decide (k' = k) then Some v else od_get k d'
  end.

Definition od_mem {V} (k : string) (d : odict V) : bool :=
  bool_decide (is_Some (od_get k d)).

Fixpoint od_set {V} (k : string) (v : V) (d : odict V) : odict V :=
  match d with
  | [] => [(k, v)]
  | (k', v') :: d' =>
      if decide (k' = k) then (k, v) :: d' else (k', v') :: od_set k v d'
  end.

Definition od_del {V} (k : string) (d : odict V) : odict V :=
  filter (λ kv, kv.1 ≠ k) d.

Definition od_keys {V} (d : odict V) : list string := d.*1.

(** ** [load_ner_model] *)

Section checkpoint.
Context {V : Type}.

(** One iteration of [for n in list(sd.keys())]. *)
Definition reconcile_key (names : gset string) (sd : odict V) (n : string)
  : result (odict V) :=
  if decide ((n ∉ names) ∧ ((n +:+ "_raw") ∈ names)) then
    rbind
      (if od_mem (n +:+ "_raw") sd then Ok sd
       else match od_get n sd with
            | Some v => Ok (od_set (n +:+ "_raw") v sd)
            | None => Raise KeyError
            end)
      (λ sd, if od_mem n sd then Ok (od_del n sd) else Raise KeyError)
  else Ok sd.

Fixpoint reconcile_loop (names : gset string) (keys : list string)
    (sd : odict V) : result (odict V) :=
  match keys with
  | [] => Ok sd
  | n :: keys => rbind (reconcile_key names sd n) (reconcile_loop names keys)
  end.

(** The renaming pass of [load_ner_model]: [names] are the keys of the
    live model's [state_dict], the loop runs over a snapshot of the
    checkpoint's keys. *)
Definition reconcile (m : odict V) (sd : odict V) : result (odict V) :=
  reconcile_loop (list_to_set (od_keys m)) (od_keys sd) sd.

(** [Module.load_state_dict(state_dict, strict)] of torch 0.3, the
    version [fastai.text] runs on: entries are copied into the live
    parameters one by one in the order of [state_dict]; under [strict]
    an entry whose name the model does not have raises at once, and
    after the copies a live name absent from [state_dict] raises.  The
    live parameters are returned as they are when the call ends, also
    when it raises.  (Tensor shapes are not modelled.) *)
Fixpoint copy_entries (strict : bool) (own : odict V)
    (items : list (string * V)) : odict V * result () :=
  match items with
  | [] => (own, Ok ())
  | (name, param) :: items =>
      if od_mem name own then copy_entries strict (od_set name param own) items
      else if strict then (own, Raise KeyError)
      else copy_entries strict own items
  end.

Definition missing_keys (own sd : odict V) : list string :=
  filter (λ k, od_mem k sd = false) (od_keys own).

Definition load_state_dict (own sd : odict V) (strict : bool)
  : odict V * result () :=
  match copy_entries strict own sd with
  | (own', Raise e) => (own', Raise e)
  | (own', Ok _) =>
      if strict then
        match missing_keys own sd with
        | [] => (own', Ok ())
        | k :: _ => (own', Raise KeyError)
        end
      else (own', Ok ())
  end.

(** [load_ner_model(m, p, strict)], with [m] given by its live
    [state_dict] and [sd] the dictionary [torch.load(p)] returns. *)
Definition load_ner_model (m : odict V) (sd : odict V) (strict : bool)
  : odict V * result () :=
  match reconcile m sd with
  | Raise e => (m, Raise e)
  | Ok sd' => load_state_dict m sd' strict
  end.
End checkpoint.

(** ** Layer groups and [freeze_to]

    A module carries its [trainable] attribute, the [requires_grad] flag
    of each parameter it owns, and its child modules. *)

Inductive module : Type :=
  Module (trainable : bool) (params_require_grad : list bool)
         (submodules : list module).

(** fastai's [set_trainable(l, b)]: every module below [l] gets
    [trainable = b] and every parameter [requires_grad = b]. *)
Fixpoint set_trainable (b : bool) (l : module) : module :=
  match l with
  | Module _ ps cs => Module b ((λ _, b) <$> ps) (set_trainable b <$> cs)
  end.

(** All flags of a layer group equal [b]. *)
Fixpoint group_flags_are (b : bool) (l : module) : bool :=
  match l with
  | Module t ps cs =>
      bool_decide (t = b) && forallb (λ p, bool_decide (p = b)) ps
      && forallb (group_flags_are b) cs
  end.

(** [freeze_to(n)] on the layer groups [c = children(self.model)]: every
    group is set non-trainable, then those of the slice [c[n:]], which
    starts at [slice_index (length c) n], are set trainable. *)
Definition freeze_to (n : Z) (c : list module) : list module :=
  let c := set_trainable false <$> c in
  let k := slice_index (length c) n in
  take k c ++ (set_trainable true <$> drop k c).

Definition unfreeze (c : list module) : list module := freeze_to 0 c.

(** ** Specification-side vocabulary for masks

    [kept n l t]: position [t] of a sample of length [l] survives in a
    mask whose time dimension is [n] (the guard [l < n] and the slice
    [l:] of [create_mask]). *)

Definition kept (n : nat) (l : Z) (t : nat) : bool :=
  if decide (l < Z.of_nat n)%Z then bool_decide (t < slice_index n l) else true.

Fixpoint kept_by (n : nat) (i : nat) (ls : list Z) (t j : nat) : bool :=
  match ls with
  | [] => true
  | l :: rest =>
      (if decide (j = i) then kept n l t else true) && kept_by n (S i) rest t j
  end.

(** ** Evaluation bookkeeping of [NERLearner.test] *)

(** A chunk as [get_chunks] returns it: [(chunk_type, start, end)]. *)
Definition chunk : Type := string * nat * nat.

(** The accumulators of the evaluation loop. *)
Record counts : Type := mkCounts {
  accs : list bool;
  correct_preds : nat;
  total_correct : nat;
  total_preds : nat
}.

Definition no_counts : counts := mkCounts [] 0 0 0.

(** [[a==b for (a, b) in zip(lab, lab_pred)]] *)
Definition token_matches (lab lab_pred : list Z) : list bool :=
  (λ ab, bool_decide (ab.1 = ab.2)) <$> zip lab lab_pred.

(** The body of [for lab, lab_pred in zip(masked_targets, predictions)];
    [chunks_of] is [get_chunks(·, self.config.vocab_tags)]. *)
Definition eval_sample (chunks_of : list Z → list chunk) (c : counts)
    (lab lab_pred : list Z) : counts :=
  let lab_chunks : gset chunk := list_to_set (chunks_of lab) in
  let lab_pred_chunks : gset chunk := list_to_set (chunks_of lab_pred) in
  mkCounts (accs c ++ token_matches lab lab_pred)
           (correct_preds c + size (lab_chunks ∩ lab_pred_chunks))
           (total_correct c + size lab_chunks)
           (total_preds c + size lab_pred_chunks).

Definition eval_batch (chunks_of : list Z → list chunk) (c : counts)
    (masked_targets predictions : list (list Z)) : counts :=
  foldl (λ c lp, eval_sample chunks_of c lp.1 lp.2) c
        (zip masked_targets predictions).

(** Python's true division [a / b] of two numbers, over the rationals
    (the rounding of floating point is not modelled). *)
Definition true_div (a b : Qc) : result Qc :=
  if decide (b = 0%Qc) then Raise ZeroDivisionError else Ok (a / b)%Qc.

Definition Qc_of_nat (n : nat) : Qc := Qc_of_Z (Z.of_nat n).

(** The three lines computing [p], [r] and [f1] at the end of [test]. *)
Definition metrics (correct_preds total_preds total_correct : nat)
  : result (Qc * Qc * Qc) :=
  rbind (if decide (0 < correct_preds)
         then true_div (Qc_of_nat correct_preds) (Qc_of_nat total_preds)
         else Ok 0%Qc) (λ p,
  rbind (if decide (0 < correct_preds)
         then true_div (Qc_of_nat correct_preds) (Qc_of_nat total_correct)
         else Ok 0%Qc) (λ r,
  rbind (if decide (0 < correct_preds)
         then true_div (2 * p * r)%Qc (p + r)%Qc
         else Ok 0%Qc) (λ f1,
  Ok (p, r, f1)))).

(** [np.mean(accs)]; [None] stands for the [nan] of an empty list. *)
Definition mean (accs : list bool) : option Qc :=
  match accs with
  | [] => None
  | _ => Some (Qc_of_nat (length (filter (λ b, b = true) accs))
               / Qc_of_nat (length accs))%Qc
  end.

(** Tag of sample [k] at position [t] in either orientation, and the two
    dimensions by role. *)
Definition tag_at {A} (batch_first : bool) (targets : tensor A) (k t : nat)
  : option A :=
  if batch_first then entry targets k t else entry targets t k.

Definition time_size {A} (batch_first : bool) (targets : tensor A) : nat :=
  if batch_first then size1 targets else size0 targets.

Definition batch_size_of {A} (batch_first : bool) (targets : tensor A) : nat :=
  if batch_first then size0 targets else size1 targets.

(** The set of chunks of a tag sequence, [set(get_chunks(·, vocab_tags))]. *)
Definition chunk_set (chunks_of : list Z → list chunk) (tags : list Z)
  : gset chunk := list_to_set (chunks_of tags).

(** The correct predictions are among the predictions and among the gold
    chunks. *)
Definition ordered (c : counts) : Prop :=
  correct_preds c ≤ total_preds c ∧ correct_preds c ≤ total_correct c.

(** ** The learner

    *** Parameters, batches, configuration *)

(** A [Parameter] object: its tensor, its [requires_grad] flag and its
    [.grad] ([None] until a backward pass reaches it). *)
Record parameter (W : Type) : Type := mkParameter {
  data : W;
  requires_grad : bool;
  grad : option W
}.
Arguments mkParameter {W} _ _ _.
Arguments data {W} _.
Arguments requires_grad {W} _.
Arguments grad {W} _.

(** What the batch generator yields: [inputs] (with [char_ids] present only
    when character features are on), [labels] and [sequence_lengths]. *)
Record batch : Type := mkBatch {
  word_ids : tensor Z;
  char_ids : option (list (tensor Z));
  labels : tensor Z;
  sequence_lengths : list Z
}.

(** Messages sent to [self.logger]. *)
Inductive message : Type :=
  | Info (text : string)
  | EpochStarts (epoch : nat)
  | SavedModelAt (path : string)
  | LoadedModelFrom (path : string)
  | TrainAccuracy (correct total : nat)
  | ValReport (acc : option Qc) (f1 : Qc).

(** The parts of the program that lie outside [ner_learner.py] and are
    taken as parameters: the network, autograd and the optimizer (torch),
    the CRF criterion ([.crf]), the data pipeline and the chunker
    ([.data_utils]).  [cuda_is_available] is [torch.cuda.is_available()]. *)
Class Backend : Type := {
  W : Type;
  emissions : Type;
  optim : Type;
  dataset : Type;
  features : Type;
  cuda_is_available : bool;
  (** [model(inputs)], from the parameters by name and the mode flag *)
  forward : odict W → bool → batch → emissions;
  (** the gradient [loss.backward()] leaves in the parameter [name] *)
  backward : odict W → batch → tensor bool → string → option W → W;
  zeros_like : W → W;
  adam_init : optim;
  (** the update of one parameter by [optimizer.step()] *)
  adam_update : optim → nat → W → W → W * optim;
  (** [StepLR(optimizer, step_size=1, gamma=lr_decay)] and its [step()] *)
  scheduler_init : optim → optim;
  scheduler_step : optim → optim;
  (** [self.criterion.decode(outputs, mask=mask)] *)
  decode : emissions → option (tensor bool) → list (list Z);
  (** [get_chunks(seq, vocab_tags)] *)
  get_chunks : list Z → odict Z → list chunk;
  (** [len(data)] and the successive items of [minibatches] after padding *)
  dataset_len : dataset → nat;
  generate : dataset → nat → nat → batch;
  (** padding, replication to the batch size and the forward pass of
      [predict_batch] *)
  forward_words : odict W → bool → nat → list (list features)
                  → result emissions
}.

Record config `{Backend} : Type := mkConfig {
  dir_model : string;
  ner_model_path : string;
  ner_ft_path : string;
  nepochs : nat;
  batch_size : nat;
  ntags : nat;
  vocab_tags : odict Z;
  embeddings : W;
  processing_word : string → features
}.
Arguments mkConfig {_} _ _ _ _ _ _ _ _ _.

(** The attributes [__init__] gives the learner; [optimizer_params] are
    the addresses of the [Parameter] objects handed to [optim.Adam]. *)
Record learner `{Backend} : Type := mkLearner {
  learner_config : config;
  use_cuda : bool;
  idx_to_tag : list (Z * string);
  optimizer_params : list nat
}.
Arguments mkLearner {_} _ _ _ _.

(** The mutable world: the heap of [Parameter] objects, the model (its
    parameters by name, as addresses into the heap, and its [training]
    flag), the optimizer's own state, the log and the checkpoint files. *)
Record state `{Backend} : Type := mkState {
  heap : list (parameter W);
  state_dict : odict nat;
  training : bool;
  opt : optim;
  log : list message;
  disk : gmap string (odict W)
}.
Arguments mkState {_} _ _ _ _ _ _.

(** *** Stateful computations that may raise *)

Section learner.
Context `{Backend}.

Definition M (A : Type) : Type := state → state * result A.

Definition ret {A} (a : A) : M A := λ s, (s, Ok a).

Definition bind {A B} (m : M A) (k : A → M B) : M B :=
  λ s, match m s with
       | (s', Ok a) => k a s'
       | (s', Raise e) => (s', Raise e)
       end.

Definition raise {A} (e : exn) : M A := λ s, (s, Raise e).
Definition lift {A} (r : result A) : M A := λ s, (s, r).
Definition gets {A} (f : state → A) : M A := λ s, (s, Ok (f s)).
Definition modify (f : state → state) : M () := λ s, (f s, Ok ()).

(** [x ← m; k] and [m ;; k] are [bind]. *)
#[global] Instance M_ret : MRet M := @ret.
#[global] Instance M_bind : MBind M := λ A B k m, bind m k.

Definition set_heap (h : list (parameter W)) (s : state) : state :=
  mkState h (state_dict s) (training s) (opt s) (log s) (disk s).
Definition set_state_dict (d : odict nat) (s : state) : state :=
  mkState (heap s) d (training s) (opt s) (log s) (disk s).
Definition set_training (b : bool) (s : state) : state :=
  mkState (heap s) (state_dict s) b (opt s) (log s) (disk s).
Definition set_opt (o : optim) (s : state) : state :=
  mkState (heap s) (state_dict s) (training s) o (log s) (disk s).
Definition add_log (m : message) (s : state) : state :=
  mkState (heap s) (state_dict s) (training s) (opt s) (log s ++ [m]) (disk s).
Definition set_disk (d : gmap string (odict W)) (s : state) : state :=
  mkState (heap s) (state_dict s) (training s) (opt s) (log s) d.

Definition logger_info (m : message) : M () := modify (add_log m).

(** [model.state_dict()] by value: every parameter name with its tensor. *)
Definition snapshot (s : state) : odict W :=
  omap (λ na, p ← heap s !! na.2; Some (na.1, data p)) (state_dict s).

(** [self.model.emb.weight]: the address of the embedding weight. *)
Definition emb_weight : M nat :=
  s ← gets id;
  match od_get "emb.weight" (state_dict s) with
  | Some a => ret a
  | None => raise AttributeError
  end.

(** [self.model.emb.weight.requires_grad = b] *)
Definition set_emb_requires_grad (b : bool) : M () :=
  a ← emb_weight;
  modify (λ s, set_heap
    (alter (λ p, mkParameter (data p) b (grad p)) a (heap s)) s).

(** *** [__init__]

    The model handed to the constructor is the one in the state.  After
    the device branch come [self.idx_to_tag], then
    [self.criterion = CRF(self.config.ntags).cuda()], whose [.cuda()]
    does not depend on the branch taken, then
    [self.optimizer = optim.Adam(self.model.parameters())].  (The checks
    the optimizer makes on its parameters are not modelled.) *)

Definition init (cfg : config) : M learner :=
  use_cuda ←
    (if cuda_is_available then
       logger_info (Info "GPU found.") ;;
       lift (cuda cuda_is_available ()) ;;
       ret true
     else
       logger_info (Info "No GPU found.") ;;
       ret false);
  let idx_to_tag := (λ ti, (ti.2, ti.1)) <$> vocab_tags cfg in
  lift (cuda cuda_is_available ()) ;;
  params ← gets (λ s, (state_dict s).*2);
  modify (set_opt adam_init) ;;
  ret (mkLearner cfg use_cuda idx_to_tag params).

(** *** [get_model_path], [save], [load_emb], [load] *)

Fixpoint ends_with_slash (s : string) : bool :=
  match s with
  | EmptyString => false
  | String c EmptyString => bool_decide (c = "/"%char)
  | String _ s' => ends_with_slash s'
  end.

(** [os.path.join(a, b)] *)
Definition path_join (a b : string) : string :=
  if String.prefix "/" b then b
  else if bool_decide (a = "") || ends_with_slash a then a +:+ b
  else a +:+ "/" +:+ b.

Definition get_model_path (self : learner) (name : string) : string :=
  path_join (dir_model (learner_config self)) name +:+ ".h5".

(** [if not name: name = default] *)
Definition name_or (default : string) (name : option string) : string :=
  match name with
  | Some n => if decide (n = "") then default else n
  | None => default
  end.

(** [save_model(self.model, path)] writes [model.state_dict()] to [path].
    The directory [dir_model] is taken to exist: files are keyed by their
    path alone, and the failure of [torch.save] in a missing directory is
    not modelled. *)
Definition save (self : learner) (name : option string) : M () :=
  let name := name_or (ner_model_path (learner_config self)) name in
  modify (λ s, set_disk
    (<[get_model_path self name := snapshot s]> (disk s)) s) ;;
  logger_info (SavedModelAt (get_model_path self name)).

(** [self.model.emb.weight = nn.Parameter(T(self.config.embeddings))] puts
    a new [Parameter] object in the model; the optimizer keeps the
    addresses it was given.  The model is one whose [emb] has a [weight];
    for any other model only the failure of the attribute access is
    represented (an [emb] without [weight] would get the parameter
    registered instead), and nothing is proved of that branch. *)
Definition load_emb (self : learner) : M () :=
  s ← gets id;
  if od_mem "emb.weight" (state_dict s) then
    modify (set_heap
      (heap s ++ [mkParameter (embeddings (learner_config self)) true None])) ;;
    modify (set_state_dict
      (od_set "emb.weight" (length (heap s)) (state_dict s))) ;;
    set_emb_requires_grad false ;;
    logger_info (Info "Loading pretrained word embeddings")
  else raise AttributeError.

(** The in-place copies of [load_state_dict], written back to the heap. *)
Definition write_back (own : odict W) (s : state) : state :=
  foldl (λ s nv,
           match od_get nv.1 (state_dict s) with
           | Some a => set_heap
               (alter (λ p, mkParameter nv.2 (requires_grad p) (grad p)) a
                      (heap s)) s
           | None => s
           end) s own.

Definition load (self : learner) (fn : option string) : M () :=
  let fn := name_or (ner_model_path (learner_config self)) fn in
  let fn := get_model_path self fn in
  s ← gets id;
  match disk s !! fn with
  | None => raise FileNotFoundError
  | Some sd =>
      modify (write_back (load_ner_model (snapshot s) sd true).1) ;;
      lift (load_ner_model (snapshot s) sd true).2 ;;
      logger_info (LoadedModelFrom fn)
  end.

(** *** [batch_iter]

    The generator is handed out as the function [generate] from positions
    to items, which suits a dataset with at least one item.  On an empty
    dataset the generator of the source loops without ever yielding, and
    the loops of [train] and [test], which draw an item before they
    compare [batch_idx] with the number of batches, do not return; this
    is not represented, and what is proved of [train] and [test] concerns
    generators that yield. *)

Definition batch_iter (self : learner) (train : dataset)
  : M (nat * (nat → batch)) :=
  if decide (batch_size (learner_config self) = 0) then raise ZeroDivisionError
  else ret ((dataset_len train + batch_size (learner_config self) - 1)
              / batch_size (learner_config self),
            generate train (batch_size (learner_config self))).

(** *** [train] *)

(** [self.optimizer.zero_grad()]: a gradient that exists is zeroed. *)
Definition zero_grad (self : learner) : M () :=
  modify (λ s, set_heap
    (foldl (λ h a, alter (λ p, mkParameter (data p) (requires_grad p)
                                 (zeros_like <$> grad p)) a h)
           (heap s) (optimizer_params self)) s).

(** [loss.backward()]: every model parameter that requires a gradient
    receives one; the others are left as they are. *)
Definition loss_backward (b : batch) (mask : tensor bool) : M () :=
  modify (λ s, set_heap
    (foldl (λ h na,
              alter (λ p, if requires_grad p
                          then mkParameter (data p) true
                                 (Some (backward (snapshot s) b mask na.1 (grad p)))
                          else p) na.2 h)
           (heap s) (state_dict s)) s).

(** [self.optimizer.step()]: Adam skips a parameter whose [.grad] is
    [None] and updates every other parameter it was given. *)
Definition optimizer_step_one (s : state) (a : nat) : state :=
  match heap s !! a with
  | Some p =>
      match grad p with
      | Some g =>
          set_opt (adam_update (opt s) a (data p) g).2
            (set_heap (<[a := mkParameter (adam_update (opt s) a (data p) g).1
                                (requires_grad p) (grad p)]> (heap s)) s)
      | None => s
      end
  | None => s
  end.

Definition optimizer_step (self : learner) : M () :=
  modify (λ s, foldl optimizer_step_one s (optimizer_params self)).

(** [mask.type(torch.LongTensor).sum().data[0]] *)
Definition mask_sum (mask : tensor bool) : nat :=
  length (filter (λ b, b = true) (concat (rows mask))).

(** [sum([p[i] == mt[i] for p, mt in zip(predictions, masked_targets)
          for i in range(len(p))])] *)
Fixpoint count_correct (predictions masked_targets : list (list Z))
  : result nat :=
  match predictions, masked_targets with
  | p :: predictions, mt :: masked_targets =>
      if decide (length p ≤ length mt) then
        rbind (count_correct predictions masked_targets)
              (λ n, Ok (length (filter (λ b, b = true) (token_matches p mt)) + n))
      else Raise IndexError
  | _, _ => Ok 0
  end.

(** One iteration of the training loop; returns [(c_, t_)].  A batch of
    one sentence is skipped; [inputs['char_ids']] raises when character
    features are off; then come [zero_grad], the forward pass, the mask,
    [loss.backward()], [optimizer.step()] and the bookkeeping, whose
    [100*c_/t_] divides by the number of valid positions.  (The loss
    values, floating-point numbers that only reach the progress bar, are
    left out.) *)
Definition train_batch (self : learner) (b : batch) : M (nat * nat) :=
  if decide (size0 (word_ids b) = 1) then
    logger_info (Info "Skipping batch of size=1") ;; ret (0, 0)
  else
    match char_ids b with
    | None => raise KeyError
    | Some _ =>
        let targets := transpose (labels b) in
        zero_grad self ;;
        outputs ← gets (λ s, forward (snapshot s) (training s) b);
        mask ← lift (create_mask cuda_is_available (sequence_lengths b)
                                 targets false);
        loss_backward b mask ;;
        optimizer_step self ;;
        let predictions := decode outputs (Some mask) in
        let masked_targets := mask_targets targets (sequence_lengths b) false in
        c_ ← lift (count_correct predictions masked_targets);
        if decide (mask_sum mask = 0) then raise ZeroDivisionError
        else ret (c_, mask_sum mask)
    end.

Fixpoint train_batches (self : learner) (batches : list batch)
    (correct total : nat) : M (nat * nat) :=
  match batches with
  | [] => ret (correct, total)
  | b :: batches =>
      ct ← train_batch self b;
      train_batches self batches (correct + ct.1) (total + ct.2)
  end.

(** The generator is an object that outlives the call: [cursor] is the
    number of items it has yielded so far.  The [for] loop draws one item
    more than it processes before it [break]s. *)
Definition train (self : learner) (epoch : nat) (nbatches_train : nat)
    (train_generator : nat → batch) (cursor : nat) (fine_tune : bool)
  : M nat :=
  logger_info (EpochStarts epoch) ;;
  modify (set_training true) ;;
  set_emb_requires_grad false ;;
  ct ← train_batches self
         ((λ k, train_generator (cursor + k)) <$> seq 0 nbatches_train) 0 0;
  if decide (ct.2 = 0) then raise ZeroDivisionError
  else logger_info (TrainAccuracy ct.1 ct.2) ;;
       ret (cursor + nbatches_train + 1).

(** *** [test], [evaluate]

    [test] starts with [self.model.eval()]; its accumulator is the counts
    together with [total_step], [None] until a batch is processed; the
    report line computes [total_step+1]. *)

Definition test_batch (self : learner) (batch_idx : nat) (b : batch)
    (acc : counts * option nat) : M (counts * option nat) :=
  if decide (size0 (word_ids b) = 1) then
    logger_info (Info "Skipping batch of size=1") ;; ret acc
  else
    match char_ids b with
    | None => raise KeyError
    | Some _ =>
        let targets := transpose (labels b) in
        outputs ← gets (λ s, forward (snapshot s) (training s) b);
        mask ← lift (create_mask cuda_is_available (sequence_lengths b)
                                 targets false);
        let predictions := decode outputs (Some mask) in
        let masked_targets := mask_targets targets (sequence_lengths b) false in
        ret (eval_batch (λ tags, get_chunks tags
                                   (vocab_tags (learner_config self)))
                        acc.1 masked_targets predictions,
             Some batch_idx)
    end.

Fixpoint test_batches (self : learner) (batch_idx : nat)
    (batches : list batch) (acc : counts * option nat)
  : M (counts * option nat) :=
  match batches with
  | [] => ret acc
  | b :: batches =>
      acc ← test_batch self batch_idx b acc;
      test_batches self (S batch_idx) batches acc
  end.

Definition test (self : learner) (nbatches_val : nat)
    (val_generator : nat → batch) (cursor : nat) (fine_tune : bool)
  : M nat :=
  modify (set_training false) ;;
  acc ← test_batches self 0
          ((λ k, val_generator (cursor + k)) <$> seq 0 nbatches_val)
          (no_counts, None);
  prf ← lift (metrics (correct_preds acc.1) (total_preds acc.1)
                      (total_correct acc.1));
  match acc.2 with
  | None => raise TypeError
  | Some total_step =>
      logger_info (ValReport (mean (accs acc.1)) prf.2) ;;
      ret (cursor + nbatches_val + 1)
  end.

Definition evaluate (self : learner) (test_data : dataset) : M () :=
  ng ← batch_iter self test_data;
  logger_info (Info "Evaluating on test set") ;;
  test self ng.1 ng.2 0 false ;;
  ret ().

(** *** [predict_batch], [predict] *)

Definition predict_batch (self : learner) (words : list (list features))
  : M (list Z) :=
  modify (set_training false) ;;
  s ← gets id;
  outputs ← lift (forward_words (snapshot s) (training s)
                                (batch_size (learner_config self)) words);
  match decode outputs None with
  | [] => raise IndexError
  | first :: _ => ret first
  end.

Fixpoint tags_of (self : learner) (pred_ids : list Z) : result (list string) :=
  match pred_ids with
  | [] => Ok []
  | idx :: pred_ids =>
      match (list_to_map (reverse (idx_to_tag self)) : gmap Z string) !! idx with
      | Some tag => rbind (tags_of self pred_ids) (λ tags, Ok (tag :: tags))
      | None => Raise KeyError
      end
  end.

Definition predict (self : learner) (words_raw : list string)
  : M (list string) :=
  match processing_word (learner_config self) <$> words_raw with
  | [] => raise IndexError
  | words =>
      pred_ids ← predict_batch self [words];
      lift (tags_of self pred_ids)
  end.

(** *** [fit], [fine_tune] *)

Fixpoint fit_epochs (self : learner) (epochs : list nat)
    (nbatches_train : nat) (train_generator : nat → batch) (train_cursor : nat)
    (nbatches_dev : nat) (dev_generator : nat → batch) (dev_cursor : nat)
    (fine_tune : bool) : M () :=
  match epochs with
  | [] => ret ()
  | epoch :: epochs =>
      modify (λ s, set_opt (scheduler_step (opt s)) s) ;;
      train_cursor ← train self epoch nbatches_train train_generator
                           train_cursor fine_tune;
      dev_cursor ← test self nbatches_dev dev_generator dev_cursor fine_tune;
      fit_epochs self epochs nbatches_train train_generator train_cursor
                 nbatches_dev dev_generator dev_cursor fine_tune
  end.

Definition fit (self : learner) (train_data dev : dataset)
    (epochs : option nat) (fine_tune : bool) : M () :=
  let epochs := match epochs with
                | Some (S n) => S n
                | _ => nepochs (learner_config self)
                end in
  tr ← batch_iter self train_data;
  dv ← batch_iter self dev;
  modify (λ s, set_opt (scheduler_init (opt s)) s) ;;
  (if fine_tune then ret () else logger_info (Info "Training Model")) ;;
  fit_epochs self (seq 0 epochs) tr.1 tr.2 0 dv.1 dv.2 0 fine_tune ;;
  if fine_tune then save self (Some (ner_ft_path (learner_config self)))
  else save self (Some (ner_model_path (learner_config self))).

(** A call [self.fit(...)] as Python binds it against the signature
    [fit(self, train, dev, epochs=None, fine_tune=False)]: [train] and
    [dev] have no default, and a call that passes neither raises
    [TypeError] before the body runs. *)
Definition call_fit (self : learner) (train_data dev : option dataset)
    (epochs : option nat) (fine_tune : option bool) : M () :=
  match train_data, dev with
  | Some train_data, Some dev =>
      fit self train_data dev epochs (default false fine_tune)
  | _, _ => raise TypeError
  end.

(** [self.fit(epochs=1, fine_tune=True)] *)
Definition fine_tune (self : learner) : M () :=
  logger_info (Info "Fine Tuning Model") ;;
  call_fit self None None (Some 1) (Some true).

End learner.

(** ** Frame conditions

    [preserves I m]: a run of [m] from a state satisfying [I] ends, with a
    value or with an exception, in a state satisfying [I]. *)

Definition preserves `{Backend} (I : state → Prop) {A} (m : M A) : Prop :=
  ∀ s, I s → I (m s).1.

(** The model as evaluation sees it: the mode flag and the parameters. *)
Definition frozen_at `{Backend} (b : bool) (h : list (parameter W))
    (s : state) : Prop :=
  training s = b ∧ heap s = h.

(** The embedding weight is the object at address [a], it holds the
    tensor [d] and carries no gradient. *)
Definition embedding_fixed `{Backend} (a : nat) (d : W) (s : state) : Prop :=
  od_get "emb.weight" (state_dict s) = Some a ∧
  ∃ p, heap s !! a = Some p ∧ data p = d ∧ grad p = None.

(** The [Parameter] object at address [a] is [p]. *)
Definition embedding_is `{Backend} (a : nat) (p : parameter W)
    (s : state) : Prop :=
  heap s !! a = Some p.

(** A backend with integers for tensors, a model that predicts tag 0 at
    every valid position and an optimizer that subtracts the gradient, for
    running the learner on concrete inputs. *)
Definition toy_backend (cuda : bool) : Backend := {|
  W := Z;
  emissions := list (list Z);
  optim := nat;
  dataset := list batch;
  features := Z;
  cuda_is_available := cuda;
  forward := λ _ _ b, (λ r : list Z, (λ _ : Z, 0%Z) <$> r) <$> rows (word_ids b);
  backward := λ _ _ _ _ _, 1%Z;
  zeros_like := λ _, 0%Z;
  adam_init := 0;
  adam_update := λ o _ w g, ((w - g)%Z, S o);
  scheduler_init := λ o, o;
  scheduler_step := λ o, o;
  decode := λ e mask,
    match mask with
    | Some m => (λ col : list bool, (λ _ : bool, 0%Z) <$> filter (λ b, b = true) col)
                  <$> rows (transpose m)
    | None => e
    end;
  get_chunks := λ _ _, [];
  dataset_len := λ d, length d;
  generate := λ d _ k, default (mkBatch (mkTensor 0 0 []) None (mkTensor 0 0 []) [])
                               (d !! (k `mod` length d)%nat);
  forward_words := λ _ _ n ws, Ok ((λ w : list Z, (λ _ : Z, 0%Z) <$> w) <$> ws)
|}.

Definition toy_config (cuda : bool) : @config (toy_backend cuda) :=
  @mkConfig (toy_backend cuda) "results" "ner" "ner_ft" 1 2 3
            [("O", 0%Z); ("B-LOC", 1%Z)] 0%Z (λ _, 0%Z).

(** A model with an embedding and one more weight, in training mode. *)
Definition toy_state (cuda : bool) : @state (toy_backend cuda) :=
  @mkState (toy_backend cuda)
    [mkParameter 10%Z true None; mkParameter 20%Z true None]
    [("emb.weight", 0); ("lstm.weight", 1)] true 0 [] ∅.

Definition toy_learner (cuda : bool) : @learner (toy_backend cuda) :=
  @mkLearner (toy_backend cuda) (toy_config cuda) cuda
             [(0%Z, "O"); (1%Z, "B-LOC")] [0; 1].

(** Two sentences of lengths 3 and 2, padded to length 3. *)
Definition toy_batch : batch :=
  mkBatch (mkTensor 2 3 [[5; 6; 7]; [8; 9; 1]]%Z) (Some [])
          (mkTensor 2 3 [[1; 0; 0]; [0; 0; 0]]%Z) [3; 2]%Z.

(** ** Vocabulary for the further properties *)

(** The guard of the renaming pass on a checkpoint name [n]:
    [n not in names and n+'_raw' in names]. *)
Definition renamable {V} (m : odict V) (n : string) : Prop :=
  od_mem n m = false ∧ od_mem (n +:+ "_raw") m = true.

(** A model whose parameter names are distinct and whose parameters are
    all objects of the heap. *)
Definition model_ok `{Backend} (s : state) : Prop :=
  NoDup (od_keys (state_dict s)) ∧
  Forall (λ na, na.2 < length (heap s)) (state_dict s).

(** The tensor of the parameter named [n], if the model has it. *)
Definition tensor_of `{Backend} (s : state) (n : string) : option W :=
  a ← od_get n (state_dict s); data <$> heap s !! a.

(** A property of the state that looks at neither the tensors, flags and
    gradients of the parameters (only at how many there are), nor at the
    optimizer's state, the mode flag or the log. *)
Definition shape_only `{Backend} (I : state → Prop) : Prop :=
  (∀ s h, I s → length h = length (heap s) → I (set_heap h s)) ∧
  (∀ s o, I s → I (set_opt o s)) ∧
  (∀ s b, I s → I (set_training b s)) ∧
  (∀ s m, I s → I (add_log m s)).

(** The parameter object at address [a] holds the tensor [d]. *)
Definition tensor_is `{Backend} (a : nat) (d : W) (s : state) : Prop :=
  ∃ p, heap s !! a = Some p ∧ data p = d.

(** A batch of one sentence, which the loops of [train] and [test] skip. *)
Definition toy_single : batch :=
  mkBatch (mkTensor 1 3 [[5; 6; 7]]%Z) (Some [])
          (mkTensor 1 3 [[1; 0; 0]]%Z) [3]%Z.

(** The toy model with its second weight frozen, and a learner whose
    optimizer was given the embedding only. *)
Definition toy_frozen_state : @state (toy_backend true) :=
  @mkState (toy_backend true)
    [mkParameter 10%Z true None; mkParameter 20%Z false None]
    [("emb.weight", 0); ("lstm.weight", 1)] true 0 [] ∅.

Definition toy_partial_learner : @learner (toy_backend true) :=
  @mkLearner (toy_backend true) (toy_config true) true
             [(0%Z, "O"); (1%Z, "B-LOC")] [0].

(** The pairs [(lab, lab_pred)] that the loop of [test] compares for one
    batch, on a model whose parameters are those of [s] and which is in
    inference mode: none for a skipped batch, else the masked targets
    zipped with the decoded predictions. *)
Definition batch_samples `{Backend} (s : state) (b : batch)
  : list (list Z * list Z) :=
  if decide (size0 (word_ids b) = 1) then []
  else
    let targets := transpose (labels b) in
    match create_mask cuda_is_available (sequence_lengths b) targets false with
    | Ok mask =>
        zip (mask_targets targets (sequence_lengths b) false)
            (decode (forward (snapshot s) false b) (Some mask))
    | Raise _ => []
    end.

(** The pairs compared over a list of batches, in order. *)
Definition evaluated_samples `{Backend} (s : state) (batches : list batch)
  : list (list Z * list Z) :=
  concat (batch_samples s <$> batches).

(** * Proofs *)

(** Unfolds the operations of [M]. *)
Ltac munfold :=
  unfold mbind, M_bind, mret, M_ret, bind, ret, raise, lift, gets, modify,
         logger_info in *.

(** ** The embedding on concrete inputs *)

Example create_mask_time_major :
  create_mask true [3; 2]%Z (mkTensor 3 2 [[1; 2]; [0; 0]; [0; 0]]%Z) false
    = Ok (mkTensor 3 2 [[true; true]; [true; true]; [true; false]]).
Proof. reflexivity. Qed.

Example create_mask_batch_major :
  create_mask true [3; 1]%Z (mkTensor 2 3 [[1; 0; 0]; [2; 0; 0]]%Z) true
    = Ok (mkTensor 2 3 [[true; true; true]; [true; false; false]]).
Proof. reflexivity. Qed.

(** A negative length is a slice bound counted from the end. *)
Example create_mask_negative_length :
  create_mask true [-1]%Z (mkTensor 3 1 [[1]; [0]; [0]]%Z) false
    = Ok (mkTensor 3 1 [[true]; [true]; [false]]).
Proof. reflexivity. Qed.

(** More lengths than samples: the indexed assignment raises. *)
Example create_mask_too_many_lengths :
  create_mask true [2; 1]%Z (mkTensor 2 1 [[1]; [0]]%Z) false
    = Raise IndexError.
Proof. reflexivity. Qed.

Example mask_targets_time_major :
  mask_targets (mkTensor 3 2 [[1; 4]; [2; 5]; [3; 0]]%Z) [3; 2]%Z false
    = [[1; 2; 3]; [4; 5]]%Z.
Proof. reflexivity. Qed.

Example metrics_without_correct_chunks : metrics 0 3 2 = Ok (0, 0, 0)%Qc.
Proof. reflexivity. Qed.

Example true_div_by_zero : true_div 1%Qc 0%Qc = Raise ZeroDivisionError.
Proof. reflexivity. Qed.

(** [freeze_to(-1)] leaves only the last layer group trainable. *)
Example freeze_to_last_group :
  freeze_to (-1) [Module true [true] []; Module true [] []; Module false [false] []]
    = [Module false [false] []; Module false [] []; Module true [true] []].
Proof. reflexivity. Qed.

Example path_join_relative : path_join "results" "ner" = "results/ner".
Proof. reflexivity. Qed.

Example path_join_absolute : path_join "results" "/tmp/ner" = "/tmp/ner".
Proof. reflexivity. Qed.

(** One epoch of [fit] on a one-batch dataset, on a machine with CUDA: the
    run returns and the checkpoint is written under [ner_model_path], or
    under [ner_ft_path] when fine-tuning. *)
Example fit_saves_model :
  (fit (toy_learner true) [toy_batch] [toy_batch] None false
       (toy_state true)).2 = Ok () ∧
  disk (fit (toy_learner true) [toy_batch] [toy_batch] None false
            (toy_state true)).1 !! "results/ner.h5"
    = Some [("emb.weight", 10%Z); ("lstm.weight", 19%Z)].
Proof. vm_compute. split; reflexivity. Qed.

Example fit_fine_tune_saves_elsewhere :
  (fit (toy_learner true) [toy_batch] [toy_batch] (Some 1) true
       (toy_state true)).2 = Ok () ∧
  disk (fit (toy_learner true) [toy_batch] [toy_batch] (Some 1) true
            (toy_state true)).1 !! "results/ner.h5" = None ∧
  disk (fit (toy_learner true) [toy_batch] [toy_batch] (Some 1) true
            (toy_state true)).1 !! "results/ner_ft.h5"
    = Some [("emb.weight", 10%Z); ("lstm.weight", 19%Z)].
Proof. vm_compute. repeat split; reflexivity. Qed.

(** An evaluation set whose batches all have one sentence: every batch is
    skipped, [total_step] stays [None] and the report line raises. *)
Example test_all_batches_skipped :
  (test (toy_learner true) 1
        (λ _, mkBatch (mkTensor 1 1 [[5%Z]]) (Some []) (mkTensor 1 1 [[0%Z]]) [1%Z])
        0 false (toy_state true)).2 = Raise TypeError.
Proof. reflexivity. Qed.

(** ** Masks *)

(** *** Slices *)

Lemma slice_index_le n k : slice_index n k ≤ n.
Proof. unfold slice_index. destruct (k <? 0)%Z eqn:E; lia. Qed.

Lemma slice_index_nonneg n k : (0 ≤ k)%Z → slice_index n k = Nat.min (Z.to_nat k) n.
Proof. intros H. unfold slice_index. destruct (Z.ltb_spec k 0); [lia | done]. Qed.

Lemma slice_index_0 n : slice_index n 0 = 0.
Proof. rewrite slice_index_nonneg; [| lia]. done. Qed.

(** *** Tensors *)

Lemma shaped_ones d0 d1 : shaped (ones d0 d1).
Proof.
  split; simpl.
  - by rewrite length_replicate.
  - apply Forall_replicate. by rewrite length_replicate.
Qed.

Lemma entry_ones d0 d1 t j :
  entry (ones d0 d1) t j = if decide (t < d0 ∧ j < d1) then Some true else None.
Proof.
  unfold entry, ones; simpl.
  destruct (decide (t < d0)) as [Ht|Ht].
  - rewrite lookup_replicate_2 by done. simpl.
    destruct (decide (j < d1)) as [Hj|Hj].
    + rewrite lookup_replicate_2 by done. by rewrite decide_True.
    + rewrite (proj1 (lookup_replicate_None _ _ _)) by lia. rewrite decide_False; [done | lia].
  - rewrite (proj1 (lookup_replicate_None _ _ _)) by lia. simpl. rewrite decide_False; [done | lia].
Qed.

Lemma entry_is_Some {A} (t : tensor A) i j :
  shaped t → i < size0 t → j < size1 t → is_Some (entry t i j).
Proof.
  intros [H0 H1] Hi Hj. unfold entry.
  destruct (lookup_lt_is_Some_2 (rows t) i) as [r Hr]; [lia |].
  rewrite Hr. simpl. apply lookup_lt_is_Some_2.
  rewrite Forall_lookup in H1. rewrite (H1 _ _ Hr). done.
Qed.

Lemma clear_rows_from_spec l i mask :
  shaped mask → i < size1 mask →
  ∃ mask', clear_rows_from l i mask = Ok mask' ∧ shaped mask' ∧
    size0 mask' = size0 mask ∧ size1 mask' = size1 mask ∧
    ∀ t j, entry mask' t j =
      (λ b, if decide (slice_index (size0 mask) l ≤ t ∧ j = i) then false else b)
        <$> entry mask t j.
Proof.
  intros [H0 H1] Hi. unfold clear_rows_from. rewrite decide_True by done.
  eexists; split; [done |]. split; [| split; [done | split; [done |]]].
  - split; simpl.
    + by rewrite length_imap.
    + rewrite Forall_lookup. intros k r. rewrite list_lookup_imap.
      destruct (rows mask !! k) as [r0|] eqn:Hk; simpl; [| done].
      intros [= <-]. rewrite Forall_lookup in H1. specialize (H1 _ _ Hk).
      case_decide; by rewrite ?length_insert.
  - intros t j. unfold entry; simpl. rewrite list_lookup_imap.
    destruct (rows mask !! t) as [r|] eqn:Ht; simpl; [| done].
    rewrite Forall_lookup in H1. specialize (H1 _ _ Ht).
    destruct (decide (slice_index (size0 mask) l ≤ t)) as [Hs|Hs].
    + destruct (decide (j = i)) as [->|Hne].
      * rewrite list_lookup_insert_eq by lia.
        destruct (lookup_lt_is_Some_2 r i) as [b Hb]; [lia |].
        rewrite Hb. simpl. by rewrite decide_True.
      * rewrite list_lookup_insert_ne by done.
        destruct (r !! j); simpl; [| done]. rewrite decide_False; [done | tauto].
    + destruct (r !! j); simpl; [| done]. rewrite decide_False; [done | tauto].
Qed.

Lemma clear_cols_from_spec i l mask :
  shaped mask → i < size0 mask →
  ∃ mask', clear_cols_from i l mask = Ok mask' ∧ shaped mask' ∧
    size0 mask' = size0 mask ∧ size1 mask' = size1 mask ∧
    ∀ j t, entry mask' j t =
      (λ b, if decide (slice_index (size1 mask) l ≤ t ∧ j = i) then false else b)
        <$> entry mask j t.
Proof.
  intros [H0 H1] Hi. unfold clear_cols_from. rewrite decide_True by done.
  eexists; split; [done |]. split; [| split; [done | split; [done |]]].
  - split; simpl.
    + by rewrite length_alter.
    + rewrite Forall_lookup. intros k r Hk.
      rewrite Forall_lookup in H1.
      destruct (decide (k = i)) as [->|Hne].
      * rewrite list_lookup_alter_eq in Hk.
        destruct (rows mask !! i) as [r0|] eqn:Hr0; simpl in Hk; [| done].
        injection Hk as <-. rewrite length_imap. eauto.
      * rewrite list_lookup_alter_ne in Hk by done. eauto.
  - intros j t. unfold entry; simpl.
    destruct (decide (j = i)) as [->|Hne].
    + rewrite list_lookup_alter_eq.
      destruct (rows mask !! i) as [r|] eqn:Hr; simpl; [| done].
      rewrite list_lookup_imap. destruct (r !! t); simpl; [| done].
      f_equal. repeat case_decide; tauto || done.
    + rewrite list_lookup_alter_ne by done.
      destruct (rows mask !! j) as [r|]; simpl; [| done].
      destruct (r !! t); simpl; [| done].
      rewrite decide_False; [done | tauto].
Qed.

(** *** The loop of [create_mask] *)

Lemma kept_by_lookup n ls : ∀ i t j,
  kept_by n i ls t j =
    if decide (i ≤ j) then from_option (λ l, kept n l t) true (ls !! (j - i))
    else true.
Proof.
  induction ls as [|l ls IH]; intros i t j; simpl.
  - by case_decide.
  - rewrite IH. destruct (decide (j = i)) as [->|Hne].
    + rewrite (decide_False (P := S i ≤ i)) by lia.
      rewrite (decide_True (P := i ≤ i)) by lia.
      replace (i - i) with 0 by lia. simpl. by rewrite andb_true_r.
    + simpl. destruct (decide (i ≤ j)) as [Hle|Hle].
      * rewrite (decide_True (P := S i ≤ j)) by lia.
        replace (j - i) with (S (j - S i)) by lia. done.
      * by rewrite (decide_False (P := S i ≤ j)) by lia.
Qed.

Lemma kept_nonneg n l t :
  (0 ≤ l)%Z → t < n → kept n l t = bool_decide (Z.of_nat t < l)%Z.
Proof.
  intros Hl Ht. unfold kept. rewrite slice_index_nonneg by done.
  case_decide.
  - apply bool_decide_ext; lia.
  - symmetry. apply bool_decide_eq_true_2. lia.
Qed.

Lemma create_mask_loop_rows targets ls : ∀ i mask,
  shaped mask → size0 mask = size0 targets → size1 mask = size1 targets →
  i + length ls ≤ size1 targets →
  ∃ mask', create_mask_loop targets false i ls mask = Ok mask' ∧
    shaped mask' ∧ size0 mask' = size0 targets ∧ size1 mask' = size1 targets ∧
    ∀ t j, entry mask' t j =
      (λ b, b && kept_by (size0 targets) i ls t j) <$> entry mask t j.
Proof.
  induction ls as [|l ls IH]; intros i mask Hsh H0 H1 Hlen; simpl in *.
  - exists mask. repeat split; try done; try apply Hsh.
    intros t j. destruct (entry mask t j); simpl; [| done].
    by rewrite andb_true_r.
  - destruct (decide (l < Z.of_nat (size0 targets))%Z) as [Hl|Hl].
    + destruct (clear_rows_from_spec l i mask Hsh) as (m1 & -> & Hsh1 & E0 & E1 & Hent);
        [lia |]. simpl.
      destruct (IH (S i) m1) as (m2 & -> & Hsh2 & F0 & F1 & Hent2);
        [done | congruence | congruence | lia |].
      exists m2. repeat split; try done; try apply Hsh2.
      intros t j. rewrite Hent2, Hent. destruct (entry mask t j) as [b|]; simpl; [| done].
      f_equal. unfold kept. rewrite H0.
      rewrite (decide_True (P := (l < Z.of_nat (size0 targets))%Z)) by done.
      destruct b, (kept_by _ (S i) ls t j); simpl;
        repeat (case_decide || case_bool_decide); simpl;
        try done; exfalso; intuition lia.
    + simpl. destruct (IH (S i) mask) as (m2 & -> & Hsh2 & F0 & F1 & Hent2);
        [done | done | done | lia |].
      exists m2. repeat split; try done; try apply Hsh2.
      intros t j. rewrite Hent2. destruct (entry mask t j) as [b|]; simpl; [| done].
      f_equal. unfold kept.
      rewrite (decide_False (P := (l < Z.of_nat (size0 targets))%Z)) by done.
      by destruct (decide (j = i)).
Qed.

Lemma create_mask_loop_cols targets ls : ∀ i mask,
  shaped mask → size0 mask = size0 targets → size1 mask = size1 targets →
  i + length ls ≤ size0 targets →
  ∃ mask', create_mask_loop targets true i ls mask = Ok mask' ∧
    shaped mask' ∧ size0 mask' = size0 targets ∧ size1 mask' = size1 targets ∧
    ∀ j t, entry mask' j t =
      (λ b, b && kept_by (size1 targets) i ls t j) <$> entry mask j t.
Proof.
  induction ls as [|l ls IH]; intros i mask Hsh H0 H1 Hlen; simpl in *.
  - exists mask. repeat split; try done; try apply Hsh.
    intros j t. destruct (entry mask j t); simpl; [| done].
    by rewrite andb_true_r.
  - destruct (decide (l < Z.of_nat (size1 targets))%Z) as [Hl|Hl].
    + destruct (clear_cols_from_spec i l mask Hsh) as (m1 & -> & Hsh1 & E0 & E1 & Hent);
        [lia |]. simpl.
      destruct (IH (S i) m1) as (m2 & -> & Hsh2 & F0 & F1 & Hent2);
        [done | congruence | congruence | lia |].
      exists m2. repeat split; try done; try apply Hsh2.
      intros j t. rewrite Hent2, Hent. destruct (entry mask j t) as [b|]; simpl; [| done].
      f_equal. unfold kept. rewrite H1.
      rewrite (decide_True (P := (l < Z.of_nat (size1 targets))%Z)) by done.
      destruct b, (kept_by _ (S i) ls t j); simpl;
        repeat (case_decide || case_bool_decide); simpl;
        try done; exfalso; intuition lia.
    + simpl. destruct (IH (S i) mask) as (m2 & -> & Hsh2 & F0 & F1 & Hent2);
        [done | done | done | lia |].
      exists m2. repeat split; try done; try apply Hsh2.
      intros j t. rewrite Hent2. destruct (entry mask j t) as [b|]; simpl; [| done].
      f_equal. unfold kept.
      rewrite (decide_False (P := (l < Z.of_nat (size1 targets))%Z)) by done.
      by destruct (decide (j = i)).
Qed.

(** C1.  On a machine with CUDA, for sequence lengths that are true
    lengths (non-negative, at most one per sample of the batch),
    [create_mask] returns a mask of the shape of [targets] in which, for
    every sample [i] of length [l], the positions before [l] are true and
    those at or after [l] are false: [mask[t, i]] when [batch_first] is
    false, [mask[i, t]] when it is true.  [create_mask] is a function of
    its arguments, and the mask is a new tensor built from
    [targets.size()] only. *)
Theorem create_mask_marks_valid_positions
    (sequence_lengths : list Z) (targets : tensor Z) (batch_first : bool) :
  length sequence_lengths ≤
    (if batch_first then size0 targets else size1 targets) →
  Forall (λ l, (0 ≤ l)%Z) sequence_lengths →
  ∃ mask,
    create_mask true sequence_lengths targets batch_first = Ok mask ∧
    shaped mask ∧ size0 mask = size0 targets ∧ size1 mask = size1 targets ∧
    ∀ i l t,
      sequence_lengths !! i = Some l →
      t < (if batch_first then size1 targets else size0 targets) →
      (if batch_first then entry mask i t else entry mask t i)
        = Some (bool_decide (Z.of_nat t < l)%Z).
Proof.
  intros Hlen Hpos. unfold create_mask, cuda; simpl.
  destruct batch_first.
  - destruct (create_mask_loop_cols targets sequence_lengths 0
                (ones (size0 targets) (size1 targets)))
      as (mask & Hrun & Hsh & E0 & E1 & Hent);
      [apply shaped_ones | done | done | lia |].
    exists mask. repeat split; try done; try apply Hsh.
    intros i l t Hi Ht. rewrite Hent, entry_ones.
    apply lookup_lt_Some in Hi as Hi'.
    rewrite decide_True by lia. simpl. f_equal.
    rewrite kept_by_lookup, decide_True by lia.
    replace (i - 0) with i by lia. rewrite Hi. simpl.
    apply kept_nonneg; [| done].
    rewrite Forall_lookup in Hpos. eauto.
  - destruct (create_mask_loop_rows targets sequence_lengths 0
                (ones (size0 targets) (size1 targets)))
      as (mask & Hrun & Hsh & E0 & E1 & Hent);
      [apply shaped_ones | done | done | lia |].
    exists mask. repeat split; try done; try apply Hsh.
    intros i l t Hi Ht. rewrite Hent, entry_ones.
    apply lookup_lt_Some in Hi as Hi'.
    rewrite decide_True by lia. simpl. f_equal.
    rewrite kept_by_lookup, decide_True by lia.
    replace (i - 0) with i by lia. rewrite Hi. simpl.
    apply kept_nonneg; [| done].
    rewrite Forall_lookup in Hpos. eauto.
Qed.

(** Lengths [3, 2] in a time-major batch padded to length 3. *)
Lemma create_mask_marks_valid_positions_witness :
  ∃ mask,
    create_mask true [3%Z; 2%Z] (mkTensor 3 2 [[4%Z; 7%Z]; [0%Z; 0%Z]; [0%Z; 0%Z]])
                false = Ok mask ∧
    entry mask 2 0 = Some true ∧ entry mask 2 1 = Some false.
Proof.
  destruct (create_mask_marks_valid_positions [3%Z; 2%Z]
              (mkTensor 3 2 [[4%Z; 7%Z]; [0%Z; 0%Z]; [0%Z; 0%Z]]) false)
    as (mask & Hrun & _ & _ & _ & Hent).
  - simpl. lia.
  - repeat constructor; lia.
  - exists mask. split; [exact Hrun |]. split.
    + apply (Hent 0 3%Z 2); [reflexivity | simpl; lia].
    + apply (Hent 1 2%Z 2); [reflexivity | simpl; lia].
Defined.

(** ** Truncated targets *)

(** *** Rows of a transposed tensor *)

Lemma omap_lookup_column {A} (k : nat) (rs : list (list A)) :
  Forall (λ r, k < length r) rs →
  length (omap (λ r, r !! k) rs) = length rs ∧
  ∀ i, omap (λ r, r !! k) rs !! i = rs !! i ≫= λ r, r !! k.
Proof.
  induction 1 as [|r rs Hr _ [IHl IHi]]; csimpl.
  - split; [done |]. intros i. by rewrite lookup_nil.
  - destruct (lookup_lt_is_Some_2 r k Hr) as [x Hx]. rewrite Hx. csimpl.
    split; [by rewrite IHl |].
    intros [|i]; csimpl; [done | apply IHi].
Qed.

Lemma sample_row_spec {A} (batch_first : bool) (targets : tensor A) (k : nat) :
  shaped targets → k < batch_size_of batch_first targets →
  ∃ r, rows (if batch_first then targets else transpose targets) !! k = Some r ∧
       length r = time_size batch_first targets ∧
       ∀ t, r !! t = tag_at batch_first targets k t.
Proof.
  intros [H0 H1] Hk. unfold batch_size_of, time_size, tag_at in *.
  destruct batch_first.
  - destruct (lookup_lt_is_Some_2 (rows targets) k) as [r Hr]; [lia |].
    exists r. split; [done |]. rewrite Forall_lookup in H1.
    split; [eauto |]. intros t. unfold entry. by rewrite Hr.
  - simpl. rewrite list_lookup_fmap, lookup_seq_lt by done. simpl.
    eexists; split; [done |].
    destruct (omap_lookup_column k (rows targets)) as [Hl Hi].
    { eapply Forall_impl; [exact H1 |]. simpl. intros; lia. }
    split; [lia |]. intros t. rewrite Hi. done.
Qed.

Lemma sample_row_None {A} (batch_first : bool) (targets : tensor A) (k : nat) :
  shaped targets → batch_size_of batch_first targets ≤ k →
  rows (if batch_first then targets else transpose targets) !! k = None.
Proof.
  intros [H0 H1] Hk. unfold batch_size_of in *. destruct batch_first.
  - apply lookup_ge_None. lia.
  - simpl. rewrite list_lookup_fmap, lookup_seq_ge by done. done.
Qed.

Lemma mask_targets_lookup targets lens batch_first k :
  mask_targets targets lens batch_first !! k =
    r ← rows (if batch_first then targets else transpose targets) !! k;
    p ← lens !! k; Some (py_take p r).
Proof.
  unfold mask_targets. cbv zeta. rewrite list_lookup_fmap.
  rewrite lookup_zip_with.
  destruct (rows _ !! k) as [r|]; simpl; [| done].
  destruct (lens !! k); done.
Qed.

Lemma py_take_within {A} (p : Z) (r : list A) :
  (0 ≤ p ≤ Z.of_nat (length r))%Z → py_take p r = take (Z.to_nat p) r.
Proof.
  intros Hp. unfold py_take. rewrite slice_index_nonneg by lia.
  f_equal. lia.
Qed.

Lemma take_ext {A} (n : nat) (r r' : list A) :
  (∀ t, t < n → r !! t = r' !! t) → take n r = take n r'.
Proof.
  intros H. apply list_eq. intros t.
  destruct (decide (t < n)).
  - rewrite !lookup_take_lt by done. auto.
  - by rewrite !lookup_take_ge by lia.
Qed.

Lemma mask_targets_agree (targets targets' : tensor Z) lens batch_first :
  shaped targets → shaped targets' →
  size0 targets' = size0 targets → size1 targets' = size1 targets →
  Forall (λ p, (0 ≤ p ≤ Z.of_nat (time_size batch_first targets))%Z) lens →
  (∀ k p t, lens !! k = Some p → (Z.of_nat t < p)%Z →
     tag_at batch_first targets' k t = tag_at batch_first targets k t) →
  mask_targets targets' lens batch_first = mask_targets targets lens batch_first.
Proof.
  intros Hsh Hsh' E0 E1 Hlens Hagree. apply list_eq. intros k.
  rewrite !mask_targets_lookup.
  assert (Eb : batch_size_of batch_first targets' = batch_size_of batch_first targets)
    by (unfold batch_size_of; destruct batch_first; done).
  assert (Et : time_size batch_first targets' = time_size batch_first targets)
    by (unfold time_size; destruct batch_first; done).
  destruct (decide (k < batch_size_of batch_first targets)) as [Hk|Hk].
  - destruct (sample_row_spec batch_first targets k Hsh Hk) as (r & -> & Hlr & Hr).
    destruct (sample_row_spec batch_first targets' k Hsh') as (r' & -> & Hlr' & Hr');
      [lia |]. simpl.
    destruct (lens !! k) as [p|] eqn:Hp; simpl; [| done].
    rewrite Forall_lookup in Hlens. specialize (Hlens _ _ Hp).
    rewrite !py_take_within by lia. f_equal.
    apply take_ext. intros t Ht. rewrite Hr, Hr'. apply (Hagree k p); [done | lia].
  - rewrite !sample_row_None by (done || lia). done.
Qed.

(** C2.  [mask_targets] returns, for sample [k], exactly its first
    [sequence_lengths[k]] target ids; hence two target tensors that differ
    only at padded positions give the same truncated gold sequences, and
    the evaluation loop accumulates the same token comparisons and chunk
    counts from them whatever the predictions: padded positions never
    reach the accuracy computation. *)
Theorem mask_targets_drops_padding
    (chunks_of : list Z → list chunk) (c : counts)
    (targets targets' : tensor Z) (sequence_lengths : list Z)
    (batch_first : bool) (predictions : list (list Z)) :
  shaped targets → shaped targets' →
  size0 targets' = size0 targets → size1 targets' = size1 targets →
  Forall (λ p, (0 ≤ p ≤ Z.of_nat (time_size batch_first targets))%Z)
         sequence_lengths →
  (∀ k p t, sequence_lengths !! k = Some p → (Z.of_nat t < p)%Z →
     tag_at batch_first targets' k t = tag_at batch_first targets k t) →
  (∀ k p, sequence_lengths !! k = Some p →
     k < batch_size_of batch_first targets →
     ∃ ids, mask_targets targets sequence_lengths batch_first !! k = Some ids ∧
            Z.of_nat (length ids) = p ∧
            ∀ t, (Z.of_nat t < p)%Z →
                 ids !! t = tag_at batch_first targets k t) ∧
  mask_targets targets' sequence_lengths batch_first
    = mask_targets targets sequence_lengths batch_first ∧
  eval_batch chunks_of c
      (mask_targets targets' sequence_lengths batch_first) predictions
    = eval_batch chunks_of c
      (mask_targets targets sequence_lengths batch_first) predictions.
Proof.
  intros Hsh Hsh' E0 E1 Hlens Hagree.
  assert (Heq := mask_targets_agree targets targets' sequence_lengths
                   batch_first Hsh Hsh' E0 E1 Hlens Hagree).
  split; [| split; [exact Heq | by rewrite Heq]].
  intros k p Hp Hk. rewrite mask_targets_lookup.
  destruct (sample_row_spec batch_first targets k Hsh Hk) as (r & -> & Hlr & Hr).
  simpl. rewrite Hp. simpl.
  rewrite Forall_lookup in Hlens. specialize (Hlens _ _ Hp).
  eexists; split; [done |]. rewrite py_take_within by lia.
  split.
  - rewrite length_take. lia.
  - intros t Ht. rewrite lookup_take_lt by lia. apply Hr.
Qed.

(** A sample of true length 3 padded to length 5, next to one of length 5:
    the gold tags at the two padded positions are 9 in one tensor and 0 in
    the other, and the counts are the same. *)
Lemma mask_targets_drops_padding_witness :
  mask_targets (mkTensor 5 2 [[1; 4]; [2; 4]; [3; 4]; [9; 4]; [9; 4]]%Z)
               [3; 5]%Z false
    = [[1; 2; 3]; [4; 4; 4; 4; 4]]%Z ∧
  eval_batch (λ _, []) no_counts
      (mask_targets (mkTensor 5 2 [[1; 4]; [2; 4]; [3; 4]; [9; 4]; [9; 4]]%Z)
                    [3; 5]%Z false)
      [[1; 2; 0]; [4; 4; 4; 4; 4]]%Z
    = eval_batch (λ _, []) no_counts
      (mask_targets (mkTensor 5 2 [[1; 4]; [2; 4]; [3; 4]; [0; 4]; [0; 4]]%Z)
                    [3; 5]%Z false)
      [[1; 2; 0]; [4; 4; 4; 4; 4]]%Z.
Proof.
  split; [reflexivity |].
  apply (mask_targets_drops_padding (λ _, []) no_counts
           (mkTensor 5 2 [[1; 4]; [2; 4]; [3; 4]; [0; 4]; [0; 4]]%Z)
           (mkTensor 5 2 [[1; 4]; [2; 4]; [3; 4]; [9; 4]; [9; 4]]%Z)
           [3; 5]%Z false [[1; 2; 0]; [4; 4; 4; 4; 4]]%Z).
  - split; [reflexivity | repeat constructor].
  - split; [reflexivity | repeat constructor].
  - reflexivity.
  - reflexivity.
  - repeat constructor; simpl; lia.
  - intros [|[|k]] p t Hp Ht; simpl in Hp; try discriminate.
    + injection Hp as <-.
      destruct t as [|[|[|t]]]; try reflexivity. lia.
    + injection Hp as <-.
      destruct t as [|[|[|[|[|t]]]]]; reflexivity.
Defined.

(** ** Evaluation metrics *)

(** *** Counts of the evaluation loop *)

Lemma eval_samples_counts chunks_of (samples : list (list Z * list Z)) : ∀ c,
  let c' := foldl (λ c lp, eval_sample chunks_of c lp.1 lp.2) c samples in
  correct_preds c' = correct_preds c +
    sum_list_with (λ lp, size (chunk_set chunks_of lp.1 ∩ chunk_set chunks_of lp.2))
                  samples ∧
  total_preds c' = total_preds c +
    sum_list_with (λ lp, size (chunk_set chunks_of lp.2)) samples ∧
  total_correct c' = total_correct c +
    sum_list_with (λ lp, size (chunk_set chunks_of lp.1)) samples.
Proof.
  induction samples as [|[lab pred] samples IH]; intros c; simpl.
  - lia.
  - destruct (IH (eval_sample chunks_of c lab pred)) as (-> & -> & ->).
    unfold chunk_set. simpl. lia.
Qed.

Lemma eval_samples_bounds chunks_of (samples : list (list Z * list Z)) : ∀ c,
  correct_preds c ≤ total_preds c → correct_preds c ≤ total_correct c →
  let c' := foldl (λ c lp, eval_sample chunks_of c lp.1 lp.2) c samples in
  correct_preds c' ≤ total_preds c' ∧ correct_preds c' ≤ total_correct c'.
Proof.
  induction samples as [|[lab pred] samples IH]; intros c Hp Hc; simpl.
  - done.
  - apply IH; simpl.
    + apply Nat.add_le_mono; [done |].
      apply subseteq_size, intersection_subseteq_r.
    + apply Nat.add_le_mono; [done |].
      apply subseteq_size, intersection_subseteq_l.
Qed.

(** *** Divisions of [metrics] *)

Lemma Qc_of_nat_pos n : 0 < n → (0 < Qc_of_nat n)%Qc.
Proof.
  intros H. unfold Qc_of_nat. rewrite <- Z2Qc_inj_0.
  apply (proj1 (Z2Qc_inj_lt _ _)). lia.
Qed.

Lemma Qc_pos_ne_0 (x : Qc) : (0 < x)%Qc → x ≠ 0%Qc.
Proof. intros H ->. by apply (irreflexivity Qclt 0%Qc). Qed.

Lemma Qcdiv_pos (x y : Qc) : (0 < x)%Qc → (0 < y)%Qc → (0 < x / y)%Qc.
Proof. intros Hx Hy. apply Qcmult_pos_pos; [done | by apply Qcinv_pos]. Qed.

Lemma true_div_pos (a b : Qc) : (0 < b)%Qc → true_div a b = Ok (a / b)%Qc.
Proof.
  intros Hb. unfold true_div. rewrite decide_False; [done |].
  by apply Qc_pos_ne_0.
Qed.

Lemma metrics_spec cp tp tc :
  cp ≤ tp → cp ≤ tc →
  metrics cp tp tc =
    Ok (if decide (0 < cp)
        then let p := (Qc_of_nat cp / Qc_of_nat tp)%Qc in
             let r := (Qc_of_nat cp / Qc_of_nat tc)%Qc in
             (p, r, (2 * p * r / (p + r))%Qc)
        else (0%Qc, 0%Qc, 0%Qc)).
Proof.
  intros Hp Hc. unfold metrics.
  destruct (decide (0 < cp)) as [Hpos|Hz]; [| done].
  assert (0 < Qc_of_nat cp)%Qc by (apply Qc_of_nat_pos; lia).
  assert (0 < Qc_of_nat tp)%Qc by (apply Qc_of_nat_pos; lia).
  assert (0 < Qc_of_nat tc)%Qc by (apply Qc_of_nat_pos; lia).
  rewrite !true_div_pos by done. simpl.
  rewrite true_div_pos; [done |].
  apply Qcplus_pos_pos; by apply Qcdiv_pos.
Qed.

(** *** What [create_mask] can raise *)

Lemma create_mask_loop_raises targets bf ls : ∀ i mask e,
  create_mask_loop targets bf i ls mask = Raise e → e = IndexError.
Proof.
  induction ls as [|l ls IH]; intros i mask e; simpl; [done |].
  unfold clear_cols_from, clear_rows_from.
  destruct bf; repeat case_decide; simpl; eauto; congruence.
Qed.

Lemma create_mask_raises c ls targets bf e :
  create_mask c ls targets bf = Raise e → e = IndexError ∨ e = CudaError.
Proof.
  unfold create_mask, cuda. destruct c; simpl.
  - intros ?%create_mask_loop_raises. auto.
  - intros [= <-]. auto.
Qed.

(** *** The evaluation loop keeps the counts ordered *)

Lemma eval_batch_ordered chunks_of c masked predictions :
  ordered c → ordered (eval_batch chunks_of c masked predictions).
Proof.
  intros [Hp Hc]. unfold eval_batch.
  by apply eval_samples_bounds.
Qed.

Section test_loop.
Context `{Backend}.

Lemma test_batch_outcome self i b acc s :
  ordered acc.1 →
  match (test_batch self i b acc s).2 with
  | Ok acc' => ordered acc'.1
  | Raise e => e ≠ ZeroDivisionError
  end.
Proof.
  intros Hord. unfold test_batch.
  case_decide; [munfold; simpl; done |].
  destruct (char_ids b); [| munfold; simpl; done].
  munfold. simpl.
  destruct (create_mask _ _ _ _) as [mask|e] eqn:Hm; simpl.
  - by apply eval_batch_ordered.
  - apply create_mask_raises in Hm as [-> | ->]; done.
Qed.

Lemma test_batches_outcome self batches : ∀ i acc s,
  ordered acc.1 →
  match (test_batches self i batches acc s).2 with
  | Ok acc' => ordered acc'.1
  | Raise e => e ≠ ZeroDivisionError
  end.
Proof.
  induction batches as [|b batches IH]; intros i acc s Hord; simpl.
  - munfold. done.
  - unfold mbind, M_bind, bind.
    pose proof (test_batch_outcome self i b acc s Hord) as Hb.
    destruct (test_batch self i b acc s) as [s' [acc'|e]]; simpl in *.
    + by apply IH.
    + done.
Qed.

Lemma test_never_divides_by_zero self nbatches_val val_generator cursor ft s :
  (test self nbatches_val val_generator cursor ft s).2 ≠ Raise ZeroDivisionError.
Proof.
  unfold test. unfold mbind at 1, M_bind at 1, bind at 1.
  unfold modify at 1. unfold mbind at 1, M_bind at 1, bind at 1.
  match goal with
  | |- context [test_batches self 0 ?bs ?a ?s0] =>
      pose proof (test_batches_outcome self bs 0 a s0) as Hb;
      destruct (test_batches self 0 bs a s0) as [s' [acc|e]]
  end; simpl in *.
  - destruct Hb as [Hp Hc]; [split; simpl; lia |].
    munfold. rewrite metrics_spec by done. simpl.
    by destruct (acc.2).
  - intros [= ->]. by apply Hb; [split; simpl; lia |].
Qed.

End test_loop.

(** ** Checkpoints *)

(** *** Strings *)

Lemma string_app_cons c (s t : string) : String c s +:+ t = String c (s +:+ t).
Proof. reflexivity. Qed.

Lemma string_length_app (s t : string) :
  String.length (s +:+ t) = String.length s + String.length t.
Proof.
  induction s as [|c s IH]; [done |].
  rewrite string_app_cons. simpl. by rewrite IH.
Qed.

Lemma string_app_inj_r (s1 s2 t : string) : s1 +:+ t = s2 +:+ t → s1 = s2.
Proof.
  revert s2. induction s1 as [|c1 s1 IH]; intros [|c2 s2] Heq.
  - done.
  - apply (f_equal String.length) in Heq.
    rewrite !string_length_app in Heq. simpl in Heq. lia.
  - apply (f_equal String.length) in Heq.
    rewrite !string_length_app in Heq. simpl in Heq. lia.
  - rewrite !string_app_cons in Heq. injection Heq as -> Heq.
    f_equal. by apply IH.
Qed.

Lemma string_app_ne_self (s t : string) : t ≠ "" → s +:+ t ≠ s.
Proof.
  intros Ht Heq. apply (f_equal String.length) in Heq.
  rewrite string_length_app in Heq. destruct t; [done | simpl in Heq; lia].
Qed.

(** *** Ordered dictionaries *)

Section odict_facts.
Context {V : Type}.
Implicit Types (d : odict V) (k : string) (v : V).

Lemma od_mem_true k d : od_mem k d = true ↔ is_Some (od_get k d).
Proof. unfold od_mem. apply bool_decide_eq_true. Qed.

Lemma od_mem_false k d : od_mem k d = false ↔ od_get k d = None.
Proof.
  unfold od_mem. rewrite bool_decide_eq_false, <- eq_None_not_Some. done.
Qed.

Lemma od_get_set k k' v d :
  od_get k (od_set k' v d) = if decide (k = k') then Some v else od_get k d.
Proof.
  induction d as [|[k0 v0] d IH]; simpl.
  - destruct (decide (k' = k)), (decide (k = k')); congruence.
  - destruct (decide (k0 = k')) as [->|Hne]; simpl.
    + destruct (decide (k' = k)), (decide (k = k')); congruence.
    + rewrite IH. destruct (decide (k0 = k)), (decide (k = k')); congruence.
Qed.

Lemma od_get_del k k' d :
  od_get k (od_del k' d) = if decide (k = k') then None else od_get k d.
Proof.
  unfold od_del. induction d as [|[k0 v0] d IH].
  - rewrite filter_nil. simpl. by case_decide.
  - rewrite filter_cons. simpl.
    destruct (decide (k0 ≠ k')) as [Hne|Heq]; simpl.
    + rewrite IH. destruct (decide (k0 = k)), (decide (k = k')); congruence.
    + apply dec_stable in Heq as ->. rewrite IH.
      destruct (decide (k' = k)), (decide (k = k')); congruence.
Qed.

Lemma od_get_None k d : od_get k d = None ↔ k ∉ od_keys d.
Proof.
  unfold od_keys. induction d as [|[k0 v0] d IH]; simpl.
  - split; [intros _; apply not_elem_of_nil | done].
  - rewrite not_elem_of_cons. destruct (decide (k0 = k)) as [->|Hne].
    + split; [done | intros [? _]; done].
    + rewrite IH. split; [intros ?; split; [congruence | done] | tauto].
Qed.

Lemma od_mem_keys k d : od_mem k d = true ↔ k ∈ od_keys d.
Proof.
  destruct (od_mem k d) eqn:E.
  - split; [intros _ | done].
    destruct (decide (k ∈ od_keys d)) as [|Hn]; [done |].
    apply od_get_None in Hn. apply od_mem_true in E. rewrite Hn in E.
    by destruct E.
  - split; [done |]. intros Hin. apply od_mem_false, od_get_None in E. done.
Qed.

Lemma od_keys_set k v d :
  od_keys (od_set k v d) = if od_mem k d then od_keys d else od_keys d ++ [k].
Proof.
  unfold od_keys, od_mem. induction d as [|[k0 v0] d IH]; csimpl.
  - reflexivity.
  - destruct (decide (k0 = k)) as [->|Hne]; csimpl.
    + reflexivity.
    + rewrite IH. by destruct (bool_decide _).
Qed.

Lemma od_keys_del k d : od_keys (od_del k d) = filter (λ n, n ≠ k) (od_keys d).
Proof.
  unfold od_keys, od_del. induction d as [|[k0 v0] d IH]; [done |].
  rewrite fmap_cons, !filter_cons. simpl. case_decide; csimpl; by rewrite IH.
Qed.

Lemma od_set_NoDup k v d : NoDup (od_keys d) → NoDup (od_keys (od_set k v d)).
Proof.
  intros Hd. rewrite od_keys_set. destruct (od_mem k d) eqn:E; [done |].
  apply NoDup_app. split; [done |]. split; [| apply NoDup_singleton].
  intros x Hx ->%list_elem_of_singleton.
  apply od_mem_keys in Hx. congruence.
Qed.

Lemma od_del_NoDup k d : NoDup (od_keys d) → NoDup (od_keys (od_del k d)).
Proof. intros Hd. rewrite od_keys_del. by apply NoDup_filter. Qed.

End odict_facts.

(** *** The renaming pass *)

Section reconcile_facts.
Context {V : Type}.
Implicit Types (sd m : odict V) (n k : string) (names : gset string).

Lemma reconcile_key_spec names sd n :
  od_mem n sd = true →
  ∃ sd', reconcile_key names sd n = Ok sd' ∧
    (NoDup (od_keys sd) → NoDup (od_keys sd')) ∧
    ∀ k, od_get k sd' =
      if decide ((n ∉ names) ∧ ((n +:+ "_raw") ∈ names)) then
        if decide (k = n) then None
        else if decide (k = n +:+ "_raw" ∧ od_mem (n +:+ "_raw") sd = false)
             then od_get n sd else od_get k sd
      else od_get k sd.
Proof.
  intros Hn. unfold reconcile_key.
  destruct (decide ((n ∉ names) ∧ ((n +:+ "_raw") ∈ names))) as [Hg|Hg];
    [| by eauto].
  apply od_mem_true in Hn as Hn'. destruct Hn' as [v Hv].
  destruct (od_mem (n +:+ "_raw") sd) eqn:Hraw; simpl.
  - rewrite Hn. eexists; split; [done |]. split; [apply od_del_NoDup |].
    intros k. rewrite od_get_del. case_decide; [done |].
    rewrite decide_False; [done | by intros [_ ?]].
  - rewrite Hv. simpl.
    assert (Hne : n ≠ n +:+ "_raw")
      by (intros Heq; by apply (string_app_ne_self n "_raw")).
    assert (od_mem n (od_set (n +:+ "_raw") v sd) = true) as ->.
    { apply od_mem_true. rewrite od_get_set, decide_False by done. eauto. }
    eexists; split; [done |]. split.
    + intros Hd. by apply od_del_NoDup, od_set_NoDup.
    + intros k. rewrite od_get_del, od_get_set.
      destruct (decide (k = n)); [done |].
      destruct (decide (k = n +:+ "_raw")).
      * by rewrite decide_True.
      * rewrite decide_False; [done | tauto].
Qed.

Lemma reconcile_loop_ind names (P : list string → odict V → Prop) :
  (∀ n ks sd sd', n ∉ ks → od_mem n sd = true → P (n :: ks) sd →
     reconcile_key names sd n = Ok sd' → P ks sd') →
  ∀ ks sd, NoDup ks → (∀ n, n ∈ ks → od_mem n sd = true) → P ks sd →
    ∃ sd', reconcile_loop names ks sd = Ok sd' ∧ P [] sd'.
Proof.
  intros Hstep ks. induction ks as [|n ks IH]; intros sd Hnd Hin HP; simpl.
  - eauto.
  - apply NoDup_cons in Hnd as [Hn Hnd].
    assert (Hmem : od_mem n sd = true) by (apply Hin; left).
    destruct (reconcile_key_spec names sd n Hmem) as (sd1 & Hrun & _ & Hget).
    rewrite Hrun. simpl. apply IH; [done | | by eapply Hstep].
    intros n' Hn'. apply od_mem_true. rewrite Hget.
    assert (n' ≠ n) by (intros ->; done).
    assert (is_Some (od_get n' sd)) by (apply od_mem_true, Hin; by right).
    assert (is_Some (od_get n sd)) by by apply od_mem_true.
    repeat case_decide; done.
Qed.

(** A checkpoint entry [w] whose name is not live, while [w_raw] is live
    and absent from the checkpoint, ends up under [w_raw]. *)
Lemma reconcile_moves_to_raw m sd w v :
  NoDup (od_keys sd) →
  od_mem (w +:+ "_raw") m = true → od_mem w m = false →
  od_get w sd = Some v → od_mem (w +:+ "_raw") sd = false →
  ∃ sd', reconcile m sd = Ok sd' ∧ NoDup (od_keys sd') ∧
         od_get (w +:+ "_raw") sd' = Some v ∧ od_get w sd' = None.
Proof.
  intros Hnd Hraw Hw Hv Hnraw. unfold reconcile.
  set (names := list_to_set (od_keys m) : gset string).
  assert (Hwn : w ∉ names).
  { unfold names. rewrite elem_of_list_to_set, <- od_mem_keys. congruence. }
  assert (Hrn : (w +:+ "_raw") ∈ names).
  { unfold names. by rewrite elem_of_list_to_set, <- od_mem_keys. }
  assert (Hne : w +:+ "_raw" ≠ w) by by apply string_app_ne_self.
  destruct (reconcile_loop_ind names (λ ks sd,
      NoDup (od_keys sd) ∧
      (w ∈ ks → od_get w sd = Some v ∧ od_get (w +:+ "_raw") sd = None) ∧
      (w ∉ ks → od_get (w +:+ "_raw") sd = Some v ∧ od_get w sd = None)))
    with (ks := od_keys sd) (sd := sd) as (sd' & Hrun & Hd' & _ & Hafter).
  - intros n ks sd0 sd1 Hnks Hmem (Hd0 & Hbefore & Hafter) Hrun.
    destruct (reconcile_key_spec names sd0 n Hmem) as (sd1' & Hrun' & Hd1 & Hget).
    rewrite Hrun in Hrun'. injection Hrun' as <-.
    split; [by apply Hd1 |].
    destruct (decide (n = w)) as [->|Hnw].
    + destruct Hbefore as [Hb1 Hb2]; [left |].
      split; [done |]. intros _. rewrite !Hget.
      rewrite !(decide_True (P := (w ∉ names) ∧ ((w +:+ "_raw") ∈ names))) by done.
      rewrite (decide_False (P := w +:+ "_raw" = w)) by done.
      rewrite (decide_True (P := w = w)) by done.
      rewrite decide_True; [done |]. split; [done |]. by apply od_mem_false.
    + split.
      * intros Hin. destruct Hbefore as [Hb1 Hb2]; [by right |].
        rewrite !Hget. case_decide as Hg; [| done].
        destruct Hg as [Hg1 Hg2].
        rewrite (decide_False (P := w = n)) by done.
        rewrite (decide_False (P := w +:+ "_raw" = n)) by (intros <-; done).
        split.
        -- rewrite decide_False; [done |]. intros [-> _]. done.
        -- rewrite decide_False; [done |].
           intros [Heq%string_app_inj_r _]. done.
      * intros Hin. destruct Hafter as [Ha1 Ha2].
        { rewrite not_elem_of_cons. split; [done | done]. }
        rewrite !Hget. case_decide as Hg; [| done].
        destruct Hg as [Hg1 Hg2].
        rewrite (decide_False (P := w = n)) by done.
        rewrite (decide_False (P := w +:+ "_raw" = n)) by (intros <-; done).
        split.
        -- rewrite decide_False; [done |].
           intros [Heq%string_app_inj_r _]. done.
        -- rewrite decide_False; [done |]. intros [-> _]. done.
  - done.
  - intros n. by rewrite od_mem_keys.
  - split; [done |]. split.
    + intros _. split; [done | by apply od_mem_false].
    + intros Hn. exfalso. apply Hn, od_mem_keys, od_mem_true. eauto.
  - exists sd'. split; [done |]. split; [done |].
    apply Hafter. apply not_elem_of_nil.
Qed.


End reconcile_facts.

(** *** [load_state_dict] *)

Section load_state_dict_facts.
Context {V : Type}.
Implicit Types (own sd items : odict V) (n k : string).

Lemma reconcile_total m sd :
  NoDup (od_keys sd) →
  ∃ sd', reconcile m sd = Ok sd' ∧ NoDup (od_keys sd').
Proof.
  intros Hnd. unfold reconcile.
  destruct (reconcile_loop_ind (list_to_set (od_keys m))
              (λ _ sd, NoDup (od_keys sd)))
    with (ks := od_keys sd) (sd := sd) as (sd' & Hrun & Hd'); eauto.
  - intros n ks sd0 sd1 _ Hmem Hd0 Hrun.
    destruct (reconcile_key_spec (list_to_set (od_keys m)) sd0 n Hmem)
      as (sd1' & Hrun' & Hd1 & _).
    rewrite Hrun in Hrun'. injection Hrun' as <-. auto.
  - intros n. by rewrite od_mem_keys.
Qed.

Lemma od_mem_set k n (v : V) own :
  od_mem n own = true → od_mem k (od_set n v own) = od_mem k own.
Proof.
  intros Hn. destruct (decide (k = n)) as [->|Hne].
  - rewrite Hn. apply od_mem_true. rewrite od_get_set, decide_True by done.
    eauto.
  - unfold od_mem. by rewrite od_get_set, decide_False by done.
Qed.

Lemma copy_entries_raises strict items : ∀ own own' e,
  copy_entries strict own items = (own', Raise e) → e = KeyError.
Proof.
  induction items as [|[n p] items IH]; intros own own' e; simpl; [done |].
  destruct (od_mem n own); [by eauto |].
  destruct strict; [congruence | by eauto].
Qed.

Lemma copy_entries_ok strict items : ∀ own,
  NoDup (od_keys items) →
  (∀ n, n ∈ od_keys items → od_mem n own = true) →
  ∃ own', copy_entries strict own items = (own', Ok ()) ∧
    ∀ k, od_get k own' =
         match od_get k items with Some v => Some v | None => od_get k own end.
Proof.
  induction items as [|[n p] items IH]; intros own Hnd Hin; simpl.
  - eauto.
  - apply NoDup_cons in Hnd as [Hn Hnd].
    rewrite Hin by (csimpl; left).
    destruct (IH (od_set n p own) Hnd) as (own' & Hrun & Hget).
    { intros n' Hn'. rewrite od_mem_set; apply Hin; csimpl; [by right | by left]. }
    exists own'. split; [done |]. intros k. rewrite Hget, od_get_set.
    destruct (decide (n = k)) as [->|Hne].
    + apply od_get_None in Hn. simpl in Hn. rewrite Hn. by rewrite decide_True.
    + destruct (od_get k items); [done |]. by rewrite decide_False.
Qed.


Lemma missing_keys_spec own sd n :
  n ∈ missing_keys own sd ↔ od_mem n own = true ∧ od_mem n sd = false.
Proof.
  unfold missing_keys. rewrite list_elem_of_filter, od_mem_keys. tauto.
Qed.

Lemma load_state_dict_ok own sd :
  NoDup (od_keys sd) → (∀ n, od_mem n sd = od_mem n own) →
  ∃ own', load_state_dict own sd true = (own', Ok ()) ∧
    ∀ k, od_mem k own = true → od_get k own' = od_get k sd.
Proof.
  intros Hnd Hsame. unfold load_state_dict.
  destruct (copy_entries_ok true sd own Hnd) as (own' & -> & Hget).
  { intros n Hn. rewrite <- Hsame. by apply od_mem_keys. }
  destruct (missing_keys own sd) as [|k ks] eqn:Hmiss.
  - exists own'. split; [done |]. intros k Hk. rewrite Hget.
    rewrite <- Hsame in Hk. apply od_mem_true in Hk as [v ->]. done.
  - assert (Hk : k ∈ missing_keys own sd) by (rewrite Hmiss; left).
    apply missing_keys_spec in Hk as [Hk1 Hk2]. rewrite Hsame in Hk2. congruence.
Qed.

Lemma load_state_dict_missing own sd n :
  od_mem n own = true → od_mem n sd = false →
  ∃ own', load_state_dict own sd true = (own', Raise KeyError).
Proof.
  intros Hn Hsd. unfold load_state_dict.
  destruct (copy_entries true own sd) as [own' [[]|e]] eqn:Hcopy.
  - destruct (missing_keys own sd) as [|k ks] eqn:Hmiss; [| by eauto].
    assert (Hin : n ∈ missing_keys own sd) by by apply missing_keys_spec.
    rewrite Hmiss in Hin. by apply elem_of_nil in Hin.
  - apply copy_entries_raises in Hcopy as ->. eauto.
Qed.

Lemma load_state_dict_missing_copies own sd n :
  NoDup (od_keys sd) →
  (∀ k, od_mem k sd = true → od_mem k own = true) →
  od_mem n own = true → od_mem n sd = false →
  ∃ own', load_state_dict own sd true = (own', Raise KeyError) ∧
    ∀ k v, od_get k sd = Some v → od_get k own' = Some v.
Proof.
  intros Hnd Hlive Hn Hsd. unfold load_state_dict.
  destruct (copy_entries_ok true sd own Hnd) as (own' & -> & Hget).
  { intros k Hk. by apply Hlive, od_mem_keys. }
  destruct (missing_keys own sd) as [|k0 ks] eqn:Hmiss.
  - assert (Hin : n ∈ missing_keys own sd) by by apply missing_keys_spec.
    rewrite Hmiss in Hin. by apply elem_of_nil in Hin.
  - exists own'. split; [done |]. intros k v Hk. by rewrite Hget, Hk.
Qed.


End load_state_dict_facts.

(** What [NERLearner.load] returns is what [load_ner_model] returns on the
    checkpoint file, under strict matching. *)
Lemma load_outcome `{Backend} (self : learner) (fn : option string)
    (s : state) (sd : odict W) :
  disk s !! get_model_path self
              (name_or (ner_model_path (learner_config self)) fn) = Some sd →
  (load self fn s).2 = (load_ner_model (snapshot s) sd true).2.
Proof.
  intros Hfile. unfold load. cbv zeta.
  unfold mbind, M_bind, bind, gets, modify, lift, logger_info. simpl.
  rewrite Hfile. simpl.
  by destruct (load_ner_model (snapshot s) sd true).2 as [[]|e].
Qed.

(** C4, as the code has it.  The renaming pass of [load_ner_model] never
    raises on a dictionary.  For a name [w] that is not a live parameter
    name while [w_raw] is, and a checkpoint holding a tensor under [w] and
    none under [w_raw], the pass moves the tensor to [w_raw]; if the names
    of the checkpoint then are exactly the live names, the strict load
    succeeds and the live parameter [w_raw] holds the tensor stored under
    [w].  If after the pass some live parameter has no checkpoint entry,
    the strict load raises; it is not atomic: when every checkpoint name
    is a live name, all checkpoint entries have been copied into the live
    model by the time the error is raised. *)
Theorem load_ner_model_renames_to_raw {V : Type} (m sd : odict V) :
  NoDup (od_keys sd) →
  ∃ sd', reconcile m sd = Ok sd' ∧
    (∀ w v,
       od_mem (w +:+ "_raw") m = true → od_mem w m = false →
       od_get w sd = Some v → od_mem (w +:+ "_raw") sd = false →
       od_get (w +:+ "_raw") sd' = Some v ∧ od_get w sd' = None ∧
       ((∀ n, od_mem n sd' = od_mem n m) →
        ∃ m', load_ner_model m sd true = (m', Ok ()) ∧
              od_get (w +:+ "_raw") m' = Some v)) ∧
    (∀ n, od_mem n m = true → od_mem n sd' = false →
       ∃ m', load_ner_model m sd true = (m', Raise KeyError)) ∧
    ((∀ k, od_mem k sd' = true → od_mem k m = true) →
     ∀ n, od_mem n m = true → od_mem n sd' = false →
       ∃ m', load_ner_model m sd true = (m', Raise KeyError) ∧
             ∀ k v, od_get k sd' = Some v → od_get k m' = Some v).
Proof.
  intros Hnd. destruct (reconcile_total m sd Hnd) as (sd' & Hrun & Hnd').
  exists sd'. split; [done |]. split; [| split].
  - intros w v Hraw Hw Hv Hnraw.
    destruct (reconcile_moves_to_raw m sd w v Hnd Hraw Hw Hv Hnraw)
      as (sd'' & Hrun' & _ & Hget_raw & Hget_w).
    rewrite Hrun in Hrun'. injection Hrun' as <-.
    split; [done |]. split; [done |].
    intros Hsame. unfold load_ner_model. rewrite Hrun.
    destruct (load_state_dict_ok m sd' Hnd' Hsame) as (m' & Hload & Hget).
    exists m'. split; [done |]. by rewrite Hget.
  - intros n Hn Hmiss. unfold load_ner_model. rewrite Hrun.
    by apply (load_state_dict_missing m sd' n).
  - intros Hlive n Hn Hmiss. unfold load_ner_model. rewrite Hrun.
    by apply (load_state_dict_missing_copies m sd' n).
Qed.

(** A live model with the single parameter [w_raw] and a checkpoint with
    the single entry [w]. *)
Lemma load_ner_model_renames_to_raw_witness :
  ∃ m', load_ner_model [("w_raw", 0%Z)] [("w", 5%Z)] true = (m', Ok ()) ∧
        od_get "w_raw" m' = Some 5%Z.
Proof.
  destruct (load_ner_model_renames_to_raw [("w_raw", 0%Z)] [("w", 5%Z)])
    as (sd' & Hrun & Hmove & _ & _).
  - repeat constructor; apply not_elem_of_nil || idtac.
  - vm_compute in Hrun. injection Hrun as <-.
    destruct (Hmove "w" 5%Z) as (_ & _ & Hload);
      [reflexivity | reflexivity | reflexivity | reflexivity |].
    apply Hload. intros n. unfold od_mem. simpl.
    destruct (decide ("w_raw" = n)); reflexivity.
Defined.

(** When [w] itself is a live name nothing is renamed: [w_raw] receives
    nothing, the strict load raises, and the entry [w] has been copied by
    then. *)
Lemma load_ner_model_both_names_live :
  od_mem "w_raw" [("w", 1%Z); ("w_raw", 2%Z)] = true ∧
  od_get "w" [("w", 7%Z)] = Some 7%Z ∧
  od_mem "w_raw" [("w", 7%Z)] = false ∧
  load_ner_model [("w", 1%Z); ("w_raw", 2%Z)] [("w", 7%Z)] true
    = ([("w", 7%Z); ("w_raw", 2%Z)], Raise KeyError).
Proof. repeat split; reflexivity. Qed.




(** ** Freezing *)

(** *** Layer groups *)

Lemma set_trainable_flags (b : bool) : ∀ l,
  group_flags_are b (set_trainable b l) = true.
Proof.
  fix IH 1. intros [t ps cs].
  change (bool_decide (b = b)
          && forallb (λ p, bool_decide (p = b)) ((λ _, b) <$> ps)
          && forallb (group_flags_are b) (set_trainable b <$> cs) = true).
  assert (Hps : forallb (λ p, bool_decide (p = b)) ((λ _, b) <$> ps) = true).
  { clear IH. induction ps as [|p ps IHps]; [done |].
    rewrite fmap_cons. cbn [forallb].
    by rewrite bool_decide_eq_true_2. }
  assert (Hcs : forallb (group_flags_are b) (set_trainable b <$> cs) = true).
  { induction cs as [|c cs IHcs]; [done |].
    rewrite fmap_cons. cbn [forallb]. by rewrite IH, IHcs. }
  rewrite Hps, Hcs. by rewrite bool_decide_eq_true_2.
Qed.

Lemma freeze_to_length n c : length (freeze_to n c) = length c.
Proof.
  unfold freeze_to. rewrite length_app, length_take, !length_fmap, length_drop.
  rewrite length_fmap. pose proof (slice_index_le (length c) n). lia.
Qed.

Lemma freeze_to_lookup n c i l :
  freeze_to n c !! i = Some l →
  group_flags_are (bool_decide (slice_index (length c) n ≤ i)) l = true.
Proof.
  unfold freeze_to. rewrite length_fmap.
  set (k := slice_index (length c) n).
  assert (Hk : k ≤ length c) by apply slice_index_le.
  destruct (decide (k ≤ i)) as [Hle|Hlt].
  - rewrite bool_decide_eq_true_2 by done.
    rewrite lookup_app_r; rewrite length_take, length_fmap; [| lia].
    rewrite list_lookup_fmap. intros Hl.
    destruct (drop k (set_trainable false <$> c) !! _) as [l0|]; [| done].
    injection Hl as <-. apply set_trainable_flags.
  - rewrite bool_decide_eq_false_2 by done.
    rewrite lookup_app_l by (rewrite length_take, length_fmap; lia).
    rewrite lookup_take_lt by lia. rewrite list_lookup_fmap. intros Hl.
    destruct (c !! i) as [l0|]; [| done].
    injection Hl as <-. apply set_trainable_flags.
Qed.

(** C6.  After [freeze_to(n)] the layer groups before the start of the
    slice [c[n:]] have every flag false and those from it on have every
    flag true; for [n ≥ 0] these are the groups with index in [0, n) and in
    [n, end).  [unfreeze()] is [freeze_to(0)], and [freeze_to(n)] followed
    by [unfreeze()] leaves every layer group trainable, for every [n]. *)
Theorem freeze_to_then_unfreeze (c : list module) (n : Z) :
  length (freeze_to n c) = length c ∧
  (∀ i l, freeze_to n c !! i = Some l →
     group_flags_are (bool_decide (slice_index (length c) n ≤ i)) l = true) ∧
  ((0 ≤ n)%Z → ∀ i l, freeze_to n c !! i = Some l →
     group_flags_are (bool_decide (n ≤ Z.of_nat i)%Z) l = true) ∧
  unfreeze c = freeze_to 0 c ∧
  (∀ i l, unfreeze (freeze_to n c) !! i = Some l →
     group_flags_are true l = true).
Proof.
  split; [apply freeze_to_length |].
  split; [apply freeze_to_lookup |].
  split; [| split; [done |]].
  - intros Hn i l Hl. apply freeze_to_lookup in Hl as Hfl.
    apply lookup_lt_Some in Hl. rewrite freeze_to_length in Hl.
    rewrite slice_index_nonneg in Hfl by done.
    rewrite <- Hfl. f_equal. apply bool_decide_ext. lia.
  - intros i l Hl. unfold unfreeze in Hl. apply freeze_to_lookup in Hl.
    rewrite slice_index_0 in Hl.
    by rewrite bool_decide_eq_true_2 in Hl by lia.
Qed.

(** Three layer groups, frozen up to the second and then unfrozen. *)
Lemma freeze_to_then_unfreeze_witness :
  group_flags_are false (Module false [false] []) = true ∧
  group_flags_are true (Module true [true; true] [Module true [true] []]) = true.
Proof.
  destruct (freeze_to_then_unfreeze
              [Module true [true] [];
               Module false [true; false] [Module false [true] []];
               Module false [] []] 1) as (_ & _ & Hfreeze & _ & Hunfreeze).
  split.
  - apply (Hfreeze ltac:(lia) 0 (Module false [false] [])). reflexivity.
  - apply (Hunfreeze 1 (Module true [true; true] [Module true [true] []])).
    reflexivity.
Defined.

(** ** Effects of the learner's methods *)

(** *** Rules for [preserves] *)

Section preserves_rules.
Context `{Backend}.
Implicit Types (I : state → Prop) (s : state).

Lemma bind_run {A B} (m : M A) (k : A → M B) s :
  (m ≫= k) s = match m s with
               | (s', Ok a) => k a s'
               | (s', Raise e) => (s', Raise e)
               end.
Proof. reflexivity. Qed.

Lemma preserves_ret I {A} (a : A) : preserves I (ret a).
Proof. by intros s Hs. Qed.

Lemma preserves_raise I {A} e : preserves I (raise e : M A).
Proof. by intros s Hs. Qed.

Lemma preserves_lift I {A} (r : result A) : preserves I (lift r).
Proof. by intros s Hs. Qed.

Lemma preserves_gets I {A} (f : state → A) : preserves I (gets f).
Proof. by intros s Hs. Qed.

Lemma preserves_modify I (f : state → state) :
  (∀ s, I s → I (f s)) → preserves I (modify f).
Proof. intros Hf s Hs. by apply Hf. Qed.

Lemma preserves_bind I {A B} (m : M A) (k : A → M B) :
  preserves I m → (∀ a, preserves I (k a)) → preserves I (m ≫= k).
Proof.
  intros Hm Hk s Hs. rewrite bind_run. specialize (Hm s Hs).
  destruct (m s) as [s' [a|e]]; simpl in *; [by apply Hk | done].
Qed.

Lemma preserves_logger_info I msg :
  (∀ s, I s → I (add_log msg s)) → preserves I (logger_info msg).
Proof. apply preserves_modify. Qed.

End preserves_rules.

Ltac preserves_step :=
  lazymatch goal with
  | |- preserves _ (mbind _ _) => apply preserves_bind; [| intros ?]
  | |- preserves _ (ret _) => apply preserves_ret
  | |- preserves _ (raise _) => apply preserves_raise
  | |- preserves _ (lift _) => apply preserves_lift
  | |- preserves _ (gets _) => apply preserves_gets
  | |- preserves _ (let _ := _ in _) => cbv zeta
  | |- preserves _ (if ?b then _ else _) => destruct b
  | |- preserves _ (match ?x with _ => _ end) => destruct x
  end.

(** ** What the loop of [test] accumulates and what [test] reports *)

Lemma eval_samples_accs chunks_of (samples : list (list Z * list Z)) : ∀ c,
  accs (foldl (λ c lp, eval_sample chunks_of c lp.1 lp.2) c samples)
  = accs c ++ concat ((λ lp, token_matches lp.1 lp.2) <$> samples).
Proof.
  induction samples as [|lp samples IH]; intros c.
  - simpl. by rewrite app_nil_r.
  - rewrite fmap_cons. simpl. rewrite IH. simpl. by rewrite <- app_assoc.
Qed.

Section test_report.
Context `{Backend}.
Implicit Types (self : learner) (s : state).

(** One iteration, on a model in inference mode with the parameters of
    [s0]: the counts grow by the batch's pairs, and only the log changes. *)
Lemma test_batch_counts self i b acc s0 s1 s2 acc' :
  snapshot s1 = snapshot s0 → training s1 = false →
  test_batch self i b acc s1 = (s2, Ok acc') →
  acc'.1 = foldl (λ c lp, eval_sample (λ tags, get_chunks tags
                            (vocab_tags (learner_config self))) c lp.1 lp.2)
                 acc.1 (batch_samples s0 b) ∧
  snapshot s2 = snapshot s0 ∧ training s2 = false.
Proof.
  intros Hsnap Hmode. unfold test_batch, batch_samples.
  case_decide as Hone.
  - munfold. simpl. by intros [= <- <-].
  - destruct (char_ids b); [| munfold; simpl; done].
    munfold. simpl. rewrite Hsnap, Hmode.
    destruct (create_mask _ _ _ _) as [mask|e]; simpl; [| done].
    by intros [= <- <-].
Qed.

Lemma test_batches_counts self batches : ∀ i acc s0 s1 s2 acc',
  snapshot s1 = snapshot s0 → training s1 = false →
  test_batches self i batches acc s1 = (s2, Ok acc') →
  acc'.1 = foldl (λ c lp, eval_sample (λ tags, get_chunks tags
                            (vocab_tags (learner_config self))) c lp.1 lp.2)
                 acc.1 (evaluated_samples s0 batches).
Proof.
  induction batches as [|b batches IH]; intros i acc s0 s1 s2 acc' Hsnap Hmode.
  - simpl. munfold. by intros [= <- <-].
  - simpl. rewrite bind_run.
    destruct (test_batch self i b acc s1) as [s1' [acc1|e]] eqn:Hb; [| done].
    destruct (test_batch_counts self i b acc s0 s1 s1' acc1 Hsnap Hmode Hb)
      as (Hacc & Hsnap' & Hmode').
    intros Hrest. apply (IH _ _ s0) in Hrest; [| done | done].
    unfold evaluated_samples. rewrite fmap_cons. simpl.
    rewrite foldl_app. by rewrite <- Hacc.
Qed.

(** A run of [test] that returns has logged, last, the accuracy and the
    F1 of the counts over the pairs it compared; a run that raises does
    not raise [ZeroDivisionError]. *)
Lemma test_reports self nbatches_val val_generator cursor ft s :
  match test self nbatches_val val_generator cursor ft s with
  | (s', Ok cur) =>
      ∃ p r f1,
        metrics
          (correct_preds
             (foldl (λ c lp, eval_sample (λ tags, get_chunks tags
                               (vocab_tags (learner_config self))) c lp.1 lp.2)
                no_counts
                (evaluated_samples s
                   ((λ k, val_generator (cursor + k)) <$> seq 0 nbatches_val))))
          (total_preds
             (foldl (λ c lp, eval_sample (λ tags, get_chunks tags
                               (vocab_tags (learner_config self))) c lp.1 lp.2)
                no_counts
                (evaluated_samples s
                   ((λ k, val_generator (cursor + k)) <$> seq 0 nbatches_val))))
          (total_correct
             (foldl (λ c lp, eval_sample (λ tags, get_chunks tags
                               (vocab_tags (learner_config self))) c lp.1 lp.2)
                no_counts
                (evaluated_samples s
                   ((λ k, val_generator (cursor + k)) <$> seq 0 nbatches_val))))
          = Ok (p, r, f1) ∧
        last (log s')
          = Some (ValReport
                    (mean (accs
                       (foldl (λ c lp, eval_sample (λ tags, get_chunks tags
                                 (vocab_tags (learner_config self))) c lp.1 lp.2)
                          no_counts
                          (evaluated_samples s
                             ((λ k, val_generator (cursor + k))
                                <$> seq 0 nbatches_val)))))
                    f1)
  | (_, Raise e) => e ≠ ZeroDivisionError
  end.
Proof.
  pose proof (test_never_divides_by_zero self nbatches_val val_generator
                cursor ft s) as Hnz.
  destruct (test self nbatches_val val_generator cursor ft s)
    as [s' [cur|e]] eqn:Hrun; [| by intros ->].
  clear Hnz. revert Hrun. unfold test.
  rewrite bind_run. unfold modify at 1. rewrite bind_run.
  set (batches := (λ k, val_generator (cursor + k)) <$> seq 0 nbatches_val).
  destruct (test_batches self 0 batches (no_counts, None)
              (set_training false s)) as [s2 [acc|e]] eqn:Hloop; [| done].
  apply (test_batches_counts _ _ _ _ s) in Hloop; [| done | done].
  simpl in Hloop. rewrite <- Hloop.
  rewrite bind_run. unfold lift at 1.
  destruct (metrics (correct_preds acc.1) (total_preds acc.1)
                    (total_correct acc.1)) as [[[p r] f1]|e] eqn:Hm; [| done].
  destruct (acc.2) as [total_step|]; [| done].
  munfold. simpl. intros [= <- _].
  exists p, r, f1. split; [done |]. simpl. by rewrite last_snoc.
Qed.

End test_report.

(** C3.  In a run of [test], the pairs compared are, batch after batch,
    the masked targets zipped with the decoded predictions of the batches
    that are not skipped.  The loop of [test] accumulates over these
    pairs: [accs] is the list of their token comparisons,
    [correct_preds] = the sum of |gold chunks ∩ predicted chunks|,
    [total_preds] = the sum of |predicted chunks| and [total_correct] =
    the sum of |gold chunks|.  On these counts the final computation
    returns without raising, with precision = correct_preds/total_preds,
    recall = correct_preds/total_correct and F1 = 2pr/(p+r) when
    [correct_preds > 0], and all three equal to 0 when
    [correct_preds = 0].  A run of [test] that returns has reported, in
    its last log line, the mean of these [accs] and this F1; a run that
    raises does not raise [ZeroDivisionError].  (Divisions are over the
    rationals.) *)
Theorem test_metrics_never_divide_by_zero `{Backend}
    (self : learner) (nbatches_val : nat) (val_generator : nat → batch)
    (cursor : nat) (fine_tune : bool) (s : state) :
  let chunks_of := λ tags, get_chunks tags (vocab_tags (learner_config self)) in
  let batches := (λ k, val_generator (cursor + k)) <$> seq 0 nbatches_val in
  let samples := evaluated_samples s batches in
  let c := foldl (λ c lp, eval_sample chunks_of c lp.1 lp.2) no_counts samples in
  (∀ s1 acc,
     test_batches self 0 batches (no_counts, None) (set_training false s)
       = (s1, Ok acc) →
     acc.1 = c) ∧
  accs c = concat ((λ lp, token_matches lp.1 lp.2) <$> samples) ∧
  correct_preds c =
    sum_list_with (λ lp, size (chunk_set chunks_of lp.1 ∩ chunk_set chunks_of lp.2))
                  samples ∧
  total_preds c = sum_list_with (λ lp, size (chunk_set chunks_of lp.2)) samples ∧
  total_correct c = sum_list_with (λ lp, size (chunk_set chunks_of lp.1)) samples ∧
  metrics (correct_preds c) (total_preds c) (total_correct c) =
    Ok (if decide (0 < correct_preds c)
        then let p := (Qc_of_nat (correct_preds c) / Qc_of_nat (total_preds c))%Qc in
             let r := (Qc_of_nat (correct_preds c) / Qc_of_nat (total_correct c))%Qc in
             (p, r, (2 * p * r / (p + r))%Qc)
        else (0%Qc, 0%Qc, 0%Qc)) ∧
  match test self nbatches_val val_generator cursor fine_tune s with
  | (s', Ok _) =>
      last (log s')
      = Some (ValReport
                (mean (accs c))
                (if decide (0 < correct_preds c)
                 then let p := (Qc_of_nat (correct_preds c)
                                / Qc_of_nat (total_preds c))%Qc in
                      let r := (Qc_of_nat (correct_preds c)
                                / Qc_of_nat (total_correct c))%Qc in
                      (2 * p * r / (p + r))%Qc
                 else 0%Qc))
  | (_, Raise e) => e ≠ ZeroDivisionError
  end.
Proof.
  intros chunks_of batches samples c.
  destruct (eval_samples_counts chunks_of samples no_counts) as (Hcp & Htp & Htc).
  destruct (eval_samples_bounds chunks_of samples no_counts) as [Hp Hc];
    [done | done |].
  fold c in Hcp, Htp, Htc, Hp, Hc. simpl in Hcp, Htp, Htc.
  pose proof (metrics_spec _ _ _ Hp Hc) as Hm.
  split_and!; try done.
  - intros s1 acc Hloop.
    by apply (test_batches_counts self batches 0 _ s _ s1 acc) in Hloop.
  - unfold c. by rewrite eval_samples_accs.
  - pose proof (test_reports self nbatches_val val_generator cursor fine_tune s)
      as Hrep.
    destruct (test self nbatches_val val_generator cursor fine_tune s)
      as [s' [cur|e]]; [| done].
    destruct Hrep as (p & r & f1 & Hm' & Hlast).
    fold batches samples chunks_of c in Hm', Hlast.
    rewrite Hlast. do 2 f_equal.
    rewrite Hm in Hm'. by destruct (decide (0 < correct_preds c)); simplify_eq.
Qed.

(** The toy run: five tokens compared, four of them right, no chunk. *)
Example test_reports_accuracy :
  (test (toy_learner true) 1 (λ _, toy_batch) 0 false (toy_state true)).2
    = Ok 2 ∧
  last (log (test (toy_learner true) 1 (λ _, toy_batch) 0 false
               (toy_state true)).1)
    = Some (ValReport (Some (Q2Qc (4 # 5))) 0%Qc).
Proof. vm_compute. split; reflexivity. Qed.

(** *** What evaluation and inference leave alone *)

Section mode_flag.
Context `{Backend}.
Implicit Types (self : learner) (s : state).

Lemma test_batch_frozen self b h i bt acc :
  preserves (frozen_at b h) (test_batch self i bt acc).
Proof.
  unfold test_batch.
  repeat (preserves_step || (apply preserves_logger_info; by intros ? [? ?])).
Qed.

Lemma test_batches_frozen self b h batches : ∀ i acc,
  preserves (frozen_at b h) (test_batches self i batches acc).
Proof.
  induction batches as [|bt batches IH]; intros i acc; simpl.
  - apply preserves_ret.
  - apply preserves_bind; [apply test_batch_frozen | intros ?; apply IH].
Qed.

Lemma test_frozen self nbatches_val val_generator cursor ft s :
  frozen_at false (heap s) (test self nbatches_val val_generator cursor ft s).1.
Proof.
  unfold test. rewrite bind_run. unfold modify at 1.
  match goal with
  | |- frozen_at _ _ (?m (set_training false s)).1 =>
      cut (preserves (frozen_at false (heap s)) m);
        [intros Hp; by apply Hp |]
  end.
  apply preserves_bind; [apply test_batches_frozen | intros ?].
  repeat (preserves_step || (apply preserves_logger_info; by intros ? [? ?])).
Qed.

Lemma predict_batch_frozen self words s :
  frozen_at false (heap s) (predict_batch self words s).1.
Proof.
  unfold predict_batch. rewrite bind_run. unfold modify at 1.
  match goal with
  | |- frozen_at _ _ (?m (set_training false s)).1 =>
      cut (preserves (frozen_at false (heap s)) m);
        [intros Hp; by apply Hp |]
  end.
  repeat preserves_step.
Qed.

Lemma evaluate_frozen self test_data s :
  frozen_at (if decide (batch_size (learner_config self) = 0)
             then training s else false)
            (heap s) (evaluate self test_data s).1.
Proof.
  unfold evaluate, batch_iter. rewrite bind_run.
  case_decide; [done |]. simpl.
  rewrite bind_run. simpl. rewrite bind_run.
  match goal with
  | |- context [test self ?n ?g 0 false ?s0] =>
      pose proof (test_frozen self n g 0 false s0) as Ht;
      destruct (test self n g 0 false s0) as [s' [a|e]]
  end; exact Ht.
Qed.

Lemma predict_frozen self words_raw s :
  frozen_at (match words_raw with [] => training s | _ => false end)
            (heap s) (predict self words_raw s).1.
Proof.
  unfold predict. destruct words_raw as [|w ws]; [done |].
  rewrite fmap_cons. rewrite bind_run.
  match goal with
  | |- context [predict_batch self ?x s] =>
      pose proof (predict_batch_frozen self x s) as Hp;
      destruct (predict_batch self x s) as [s' [a|e]]
  end; exact Hp.
Qed.

(** *** [train] runs in training mode *)

Lemma optimizer_step_one_training l : ∀ s,
  training (foldl optimizer_step_one s l) = training s.
Proof.
  induction l as [|a l IH]; intros s; simpl; [done |].
  rewrite IH. unfold optimizer_step_one.
  destruct (heap s !! a) as [p|]; [| done]. by destruct (grad p).
Qed.

Lemma train_batch_training self b bt :
  preserves (λ s, training s = b) (train_batch self bt).
Proof.
  unfold train_batch, zero_grad, loss_backward, optimizer_step.
  repeat (preserves_step
          || (apply preserves_logger_info; by intros ? ?)
          || (apply preserves_modify; intros ? ?;
              rewrite ?optimizer_step_one_training; done)).
Qed.

Lemma train_batches_training self b batches : ∀ c t,
  preserves (λ s, training s = b) (train_batches self batches c t).
Proof.
  induction batches as [|bt batches IH]; intros c t; simpl.
  - apply preserves_ret.
  - apply preserves_bind; [apply train_batch_training | intros ?; apply IH].
Qed.

Lemma train_sets_training self epoch n gen cursor ft s :
  training (train self epoch n gen cursor ft s).1 = true.
Proof.
  unfold train. rewrite bind_run. unfold logger_info at 1, modify at 1.
  rewrite bind_run. unfold modify at 1.
  match goal with
  | |- training (?m ?s0).1 = true =>
      cut (preserves (λ s, training s = true) m);
        [intros Hp; by apply Hp |]
  end.
  unfold set_emb_requires_grad, emb_weight.
  repeat (preserves_step
          || apply train_batches_training
          || (apply preserves_logger_info; by intros ? ?)
          || (apply preserves_modify; by intros ? ?)).
Qed.

End mode_flag.

(** ** Fine-tuning, devices and the mode flag *)

(** C7.  [fine_tune()] logs its notice and then raises [TypeError]: the
    call [self.fit(epochs=1, fine_tune=True)] passes neither [train] nor
    [dev].  No epoch runs and nothing is saved: the parameters, the
    optimizer and the checkpoint files are as before. *)
Theorem fine_tune_raises_TypeError `{Backend} (self : learner) (s : state) :
  fine_tune self s = (add_log (Info "Fine Tuning Model") s, Raise TypeError) ∧
  disk (fine_tune self s).1 = disk s ∧
  heap (fine_tune self s).1 = heap s ∧
  opt (fine_tune self s).1 = opt s.
Proof. repeat split; reflexivity. Qed.

(** What [fit] does when it is called with its data: a run that returns
    has written the checkpoint of its mode, [ner_ft_path] when fine-tuning
    and [ner_model_path] otherwise. *)
Lemma fit_saves_checkpoint `{Backend} (self : learner)
    (train_data dev : dataset) (epochs : option nat) (ft : bool) (s : state) :
  (fit self train_data dev epochs ft s).2 = Ok () →
  is_Some (disk (fit self train_data dev epochs ft s).1
           !! get_model_path self
                (name_or (ner_model_path (learner_config self))
                   (Some (if ft then ner_ft_path (learner_config self)
                          else ner_model_path (learner_config self))))).
Proof.
  unfold fit. cbv zeta.
  repeat (rewrite bind_run;
          match goal with
          | |- context [match ?m ?s0 with _ => _ end] =>
              destruct (m s0) as [? [?|?]]; simpl; [| done]
          end).
  intros _. destruct ft; unfold save; rewrite bind_run; simpl;
    rewrite lookup_insert_eq; eauto.
Qed.

(** Without CUDA no batch gets past the mask, in training or evaluation. *)
Lemma no_cuda_batches_raise `{Backend} (self : learner) (bt : batch)
    (i : nat) (acc : counts * option nat) (s : state) :
  cuda_is_available = false →
  size0 (word_ids bt) ≠ 1 → is_Some (char_ids bt) →
  (train_batch self bt s).2 = Raise CudaError ∧
  (test_batch self i bt acc s).2 = Raise CudaError.
Proof.
  intros Hcpu Hsize [cs Hcs]. unfold train_batch, test_batch, create_mask.
  rewrite Hcpu, Hcs. rewrite !decide_False by done. split; reflexivity.
Qed.

(** C8.  Without CUDA the constructor logs the fallback and then raises at
    [CRF(ntags).cuda()], and [create_mask] raises at its [.cuda()]. *)
Theorem no_cuda_construction_raises `{Backend} (cfg : config) (s : state)
    (sequence_lengths : list Z) (targets : tensor Z) (batch_first : bool) :
  cuda_is_available = false →
  init cfg s = (add_log (Info "No GPU found.") s, Raise CudaError) ∧
  create_mask cuda_is_available sequence_lengths targets batch_first
    = Raise CudaError.
Proof.
  intros Hcpu. unfold init, create_mask. rewrite Hcpu. split; reflexivity.
Qed.

Lemma no_cuda_construction_raises_witness :
  (init (toy_config false) (toy_state false)).2 = Raise CudaError ∧
  create_mask (@cuda_is_available (toy_backend false)) [2%Z]
              (mkTensor 2 1 [[1%Z]; [1%Z]]) false = Raise CudaError.
Proof.
  destruct (@no_cuda_construction_raises (toy_backend false)
              (toy_config false) (toy_state false) [2%Z]
              (mkTensor 2 1 [[1%Z]; [1%Z]]) false) as [Hinit Hmask].
  - reflexivity.
  - split; [by rewrite Hinit | exact Hmask].
Defined.

(** C9, as the code has it.  [test] and [predict_batch] put the model in
    inference mode and leave it there: after the call the training flag is
    false whatever it was before, and the parameters are untouched.
    [evaluate] and [predict] do the same once they reach [test] and
    [predict_batch] (they raise before that on a zero batch size and on an
    empty sentence).  [train] sets the flag at the start of every epoch, so
    every training epoch runs, and ends, in training mode. *)
Theorem evaluation_leaves_inference_mode `{Backend} (self : learner)
    (nbatches : nat) (generator : nat → batch) (cursor : nat)
    (fine_tune : bool) (words : list (list features)) (test_data : dataset)
    (words_raw : list string) (epoch : nat) (s : state) :
  frozen_at false (heap s) (test self nbatches generator cursor fine_tune s).1 ∧
  frozen_at false (heap s) (predict_batch self words s).1 ∧
  frozen_at (if decide (batch_size (learner_config self) = 0)
             then training s else false)
            (heap s) (evaluate self test_data s).1 ∧
  frozen_at (match words_raw with [] => training s | _ => false end)
            (heap s) (predict self words_raw s).1 ∧
  training (train self epoch nbatches generator cursor fine_tune s).1 = true.
Proof.
  split; [apply test_frozen |].
  split; [apply predict_batch_frozen |].
  split; [apply evaluate_frozen |].
  split; [apply predict_frozen |].
  apply train_sets_training.
Qed.

(** A model in training mode and one evaluation batch of two sentences:
    [test] returns, and the flag is false afterwards. *)
Lemma test_does_not_restore_training_mode :
  training (toy_state true) = true ∧
  (test (toy_learner true) 1 (λ _, toy_batch) 0 false (toy_state true)).2
    = Ok 2 ∧
  training
    (test (toy_learner true) 1 (λ _, toy_batch) 0 false (toy_state true)).1
    = false.
Proof. vm_compute. repeat split; reflexivity. Qed.

(** ** The embedding weight *)

(** *** The optimizer skips a parameter without gradient *)

Section embedding_frame.
Context `{Backend}.
Implicit Types (self : learner) (s : state) (p : parameter W).

Lemma foldl_alter_fixed {B} (f : B → parameter W → parameter W)
    (addr : B → nat) (a : nat) p (l : list B) : ∀ h : list (parameter W),
  (∀ x, f x p = p) → h !! a = Some p →
  foldl (λ (h : list (parameter W)) x, alter (f x) (addr x) h) h l !! a
    = Some p.
Proof.
  induction l as [|x l IH]; intros h Hf Hp; simpl; [done |].
  apply IH; [done |].
  destruct (decide (addr x = a)) as [<-|Hne].
  - rewrite list_lookup_alter_eq, Hp. simpl. by rewrite Hf.
  - by rewrite list_lookup_alter_ne.
Qed.

Lemma optimizer_step_one_keeps a p l : ∀ s,
  grad p = None → heap s !! a = Some p →
  heap (foldl optimizer_step_one s l) !! a = Some p.
Proof.
  induction l as [|a' l IH]; intros s Hg Hp; simpl; [done |].
  apply IH; [done |]. unfold optimizer_step_one.
  destruct (heap s !! a') as [p'|] eqn:Hp'; [| done].
  destruct (grad p') as [g|] eqn:Hg'; [| done]. simpl.
  destruct (decide (a' = a)) as [->|Hne]; [congruence |].
  by rewrite list_lookup_insert_ne.
Qed.

Lemma optimizer_step_one_state_dict l : ∀ s,
  state_dict (foldl optimizer_step_one s l) = state_dict s.
Proof.
  induction l as [|a l IH]; intros s; simpl; [done |].
  rewrite IH. unfold optimizer_step_one.
  destruct (heap s !! a) as [p|]; [| done]. by destruct (grad p).
Qed.

Lemma optimizer_step_keeps self a p :
  grad p = None → preserves (embedding_is a p) (optimizer_step self).
Proof.
  intros Hg. apply preserves_modify. intros s Hs.
  by apply optimizer_step_one_keeps.
Qed.

Lemma train_batch_keeps self a p bt :
  requires_grad p = false → grad p = None →
  preserves (embedding_is a p) (train_batch self bt).
Proof.
  intros Hr Hg. unfold train_batch.
  repeat (preserves_step || (apply preserves_logger_info; by intros ? ?)).
  - unfold zero_grad. apply preserves_modify. intros s Hs.
    unfold embedding_is. simpl.
    match goal with
    | |- foldl (λ h x, alter (@?f x) _ h) _ _ !! _ = _ =>
        apply (foldl_alter_fixed f id); [| done]
    end.
    intros ?. destruct p as [d r g]. simpl in *. by subst.
  - unfold loss_backward. apply preserves_modify. intros s Hs.
    unfold embedding_is. simpl.
    match goal with
    | |- foldl (λ h x, alter (@?f x) _ h) _ _ !! _ = _ =>
        apply (foldl_alter_fixed f snd); [| done]
    end.
    intros na. simpl. by rewrite Hr.
  - by apply optimizer_step_keeps.
Qed.

Lemma train_batches_keeps self a p batches : ∀ c t,
  requires_grad p = false → grad p = None →
  preserves (embedding_is a p) (train_batches self batches c t).
Proof.
  induction batches as [|bt batches IH]; intros c t Hr Hg; simpl.
  - apply preserves_ret.
  - apply preserves_bind; [by apply train_batch_keeps | intros ?; by apply IH].
Qed.

Lemma train_batch_state_dict self d bt :
  preserves (λ s, state_dict s = d) (train_batch self bt).
Proof.
  unfold train_batch, zero_grad, loss_backward, optimizer_step.
  repeat (preserves_step
          || (apply preserves_logger_info; by intros ? ?)
          || (apply preserves_modify; intros ? ?;
              rewrite ?optimizer_step_one_state_dict; done)).
Qed.

Lemma train_batches_state_dict self d batches : ∀ c t,
  preserves (λ s, state_dict s = d) (train_batches self batches c t).
Proof.
  induction batches as [|bt batches IH]; intros c t; simpl.
  - apply preserves_ret.
  - apply preserves_bind; [apply train_batch_state_dict | intros ?; apply IH].
Qed.

Lemma train_keeps_embedding self epoch n gen cursor ft s a p :
  od_get "emb.weight" (state_dict s) = Some a →
  heap s !! a = Some p → grad p = None →
  embedding_is a (mkParameter (data p) false None)
               (train self epoch n gen cursor ft s).1 ∧
  state_dict (train self epoch n gen cursor ft s).1 = state_dict s.
Proof.
  intros Ha Hp Hg.
  split; unfold train;
    rewrite bind_run; unfold logger_info at 1, modify at 1;
    rewrite bind_run; unfold modify at 1;
    rewrite bind_run; unfold set_emb_requires_grad at 1, emb_weight;
    rewrite !bind_run; simpl; rewrite Ha; simpl.
  - match goal with
    | |- embedding_is _ ?p0 (?m ?s0).1 =>
        cut (preserves (embedding_is a p0) m); [intros Hkeep; apply Hkeep |]
    end.
    + unfold embedding_is. simpl. rewrite list_lookup_alter_eq, Hp. simpl.
      by rewrite Hg.
    + repeat (preserves_step
              || (apply train_batches_keeps; done)
              || (apply preserves_logger_info; by intros ? ?)).
  - match goal with
    | |- state_dict (?m ?s0).1 = _ =>
        cut (preserves (λ s1, state_dict s1 = state_dict s) m);
          [intros Hsd; by apply Hsd |]
    end.
    repeat (preserves_step
            || apply train_batches_state_dict
            || (apply preserves_logger_info; by intros ? ?)).
Qed.

End embedding_frame.

(** *** The embedding weight over a whole [fit] *)

Section fit_frame.
Context `{Backend}.
Implicit Types (self : learner) (s : state).

Lemma test_batches_insensitive (I : state → Prop) self batches :
  (∀ s m, I s → I (add_log m s)) →
  ∀ i acc, preserves I (test_batches self i batches acc).
Proof.
  intros Hlog. induction batches as [|bt batches IH]; intros i acc; simpl.
  - apply preserves_ret.
  - apply preserves_bind; [| intros ?; apply IH].
    unfold test_batch.
    repeat (preserves_step || (apply preserves_logger_info; by auto)).
Qed.

(** [test] preserves whatever does not look at the mode flag or the log. *)
Lemma test_insensitive (I : state → Prop) self n gen cursor ft :
  (∀ s b, I s → I (set_training b s)) →
  (∀ s m, I s → I (add_log m s)) →
  preserves I (test self n gen cursor ft).
Proof.
  intros Hmode Hlog. unfold test.
  apply preserves_bind; [apply preserves_modify; by auto | intros _].
  apply preserves_bind; [by apply test_batches_insensitive | intros ?].
  repeat (preserves_step || (apply preserves_logger_info; by auto)).
Qed.

Lemma train_embedding_fixed self epoch n gen cursor ft a d :
  preserves (embedding_fixed a d) (train self epoch n gen cursor ft).
Proof.
  intros s (Ha & p & Hp & Hd & Hg).
  destruct (train_keeps_embedding self epoch n gen cursor ft s a p Ha Hp Hg)
    as [Hkeep Hsd].
  split; [by rewrite Hsd |]. eexists; split; [exact Hkeep |]. done.
Qed.

Lemma fit_epochs_embedding_fixed self a d epochs :
  ∀ nt gt ct nd gd cd ft,
    preserves (embedding_fixed a d)
              (fit_epochs self epochs nt gt ct nd gd cd ft).
Proof.
  induction epochs as [|e epochs IH]; intros nt gt ct nd gd cd ft; simpl.
  - apply preserves_ret.
  - apply preserves_bind; [by apply preserves_modify | intros _].
    apply preserves_bind; [apply train_embedding_fixed | intros ?].
    apply preserves_bind; [by apply test_insensitive | intros ?].
    apply IH.
Qed.

(** Over a whole run of [fit], whether it returns or raises, the embedding
    weight keeps its tensor. *)
Lemma fit_embedding_fixed self train_data dev epochs ft a d :
  preserves (embedding_fixed a d) (fit self train_data dev epochs ft).
Proof.
  unfold fit, batch_iter, save. cbv zeta.
  repeat (preserves_step
          || apply fit_epochs_embedding_fixed
          || (apply preserves_logger_info; by auto)
          || (apply preserves_modify; by auto)).
Qed.

End fit_frame.

(** [load_emb] installs a new embedding weight that has no gradient and
    requires none. *)
Lemma load_emb_disables_gradient `{Backend} (self : learner) (s : state) :
  od_mem "emb.weight" (state_dict s) = true →
  od_get "emb.weight" (state_dict (load_emb self s).1)
    = Some (length (heap s)) ∧
  embedding_is (length (heap s))
    (mkParameter (embeddings (learner_config self)) false None)
    (load_emb self s).1.
Proof.
  intros Hemb. unfold load_emb, set_emb_requires_grad, emb_weight.
  unfold mbind, M_bind, bind, gets, modify, ret, raise, logger_info. simpl.
  rewrite Hemb. simpl.
  rewrite od_get_set, decide_True by done. simpl.
  split; [by rewrite od_get_set, decide_True by done |].
  unfold embedding_is. simpl.
  rewrite list_lookup_alter_eq, lookup_app_r by done.
  by rewrite Nat.sub_diag.
Qed.

(** C10.  Whatever [fine_tune] is, [train] clears [requires_grad] on the
    embedding weight before its loop, and no step of the optimizer changes
    that weight: when the weight carries no gradient as [train] starts (as
    after [load_emb], or on a model never trained with it), it is the same
    tensor when [train] ends, with [requires_grad] false and still no
    gradient; every processed batch, and every optimizer step in it,
    leaves it as it is. *)
Theorem train_never_updates_embedding `{Backend} (self : learner)
    (epoch nbatches_train : nat) (train_generator : nat → batch)
    (cursor : nat) (fine_tune : bool) (s : state)
    (a : nat) (p : parameter W) :
  od_get "emb.weight" (state_dict s) = Some a →
  heap s !! a = Some p →
  grad p = None →
  embedding_is a (mkParameter (data p) false None)
    (train self epoch nbatches_train train_generator cursor fine_tune s).1 ∧
  state_dict
    (train self epoch nbatches_train train_generator cursor fine_tune s).1
    = state_dict s ∧
  (∀ bt, preserves (embedding_is a (mkParameter (data p) false None))
                   (train_batch self bt)) ∧
  preserves (embedding_is a (mkParameter (data p) false None))
            (optimizer_step self).
Proof.
  intros Ha Hp Hg.
  destruct (train_keeps_embedding self epoch nbatches_train train_generator
              cursor fine_tune s a p Ha Hp Hg) as [Hkeep Hsd].
  split; [done |]. split; [done |]. split.
  - intros bt. by apply train_batch_keeps.
  - by apply optimizer_step_keeps.
Qed.

(** One epoch over one batch: the optimizer moves the other weight from 20
    to 19 and leaves the embedding weight at 10. *)
Lemma train_never_updates_embedding_witness :
  heap (train (toy_learner true) 0 1 (λ _, toy_batch) 0 false
              (toy_state true)).1
    = [mkParameter 10%Z false None; mkParameter 19%Z true (Some 1%Z)] ∧
  @embedding_is (toy_backend true) 0 (mkParameter 10%Z false None)
    (train (toy_learner true) 0 1 (λ _, toy_batch) 0 false (toy_state true)).1.
Proof.
  split; [vm_compute; reflexivity |].
  apply (@train_never_updates_embedding (toy_backend true) (toy_learner true)
           0 1 (λ _, toy_batch) 0 false (toy_state true) 0
           (mkParameter 10%Z true None)); reflexivity.
Defined.

(** * Further properties *)

(** ** More on checkpoints *)

Section reconcile_entries.
Context {V : Type}.
Implicit Types (sd m : odict V) (n k : string).

Lemma renamable_names m n :
  renamable m n ↔
  (n ∉ (list_to_set (od_keys m) : gset string)) ∧
  ((n +:+ "_raw") ∈ (list_to_set (od_keys m) : gset string)).
Proof.
  unfold renamable. rewrite !elem_of_list_to_set, <- !od_mem_keys.
  destruct (od_mem n m); split; intros [? ?]; split; congruence.
Qed.

(** Where every entry of the checkpoint is after the renaming pass. *)
Lemma reconcile_entries m sd :
  NoDup (od_keys sd) →
  ∃ sd', reconcile m sd = Ok sd' ∧ NoDup (od_keys sd') ∧
    (∀ k, renamable m k → od_get k sd' = None) ∧
    (∀ k, ¬ renamable m k → is_Some (od_get k sd) →
          od_get k sd' = od_get k sd) ∧
    (∀ n, renamable m n → is_Some (od_get n sd) →
          od_get (n +:+ "_raw") sd = None →
          od_get (n +:+ "_raw") sd' = od_get n sd) ∧
    (∀ k v, od_get k sd' = Some v →
          od_get k sd = Some v ∨
          ∃ n, k = n +:+ "_raw" ∧ renamable m n ∧ od_get n sd = Some v).
Proof.
  intros Hnd. unfold reconcile.
  set (names := list_to_set (od_keys m) : gset string).
  set (guard := λ n, (n ∉ names) ∧ ((n +:+ "_raw") ∈ names)).
  destruct (reconcile_loop_ind names (λ ks cur,
      NoDup (od_keys cur) ∧
      (∀ k, k ∈ ks → is_Some (od_get k sd) ∧ od_get k cur = od_get k sd) ∧
      (∀ k, guard k → k ∉ ks → od_get k cur = None) ∧
      (∀ k, ¬ guard k → is_Some (od_get k sd) → od_get k cur = od_get k sd) ∧
      (∀ n, guard n → n ∉ ks → is_Some (od_get n sd) →
            od_get (n +:+ "_raw") sd = None →
            od_get (n +:+ "_raw") cur = od_get n sd) ∧
      (∀ k v, od_get k cur = Some v →
            od_get k sd = Some v ∨
            ∃ n, k = n +:+ "_raw" ∧ guard n ∧ (n ∉ ks) ∧ od_get n sd = Some v)))
    with (ks := od_keys sd) (sd := sd)
    as (sd' & Hrun & Hd' & _ & HA & HB & HC & HD).
  - intros n ks cur cur' Hnks Hmem (Hd & HU & HA & HB & HC & HD) Hrun.
    destruct (reconcile_key_spec names cur n Hmem) as (cur'' & Hrun' & Hd1 & Hget).
    rewrite Hrun in Hrun'. injection Hrun' as <-.
    split; [by apply Hd1 |].
    destruct (HU n) as [Hn_sd Hn_cur]; [left |].
    destruct (decide ((n ∉ names) ∧ ((n +:+ "_raw") ∈ names))) as [Hg|Hg].
    + (* the entry [n] is renamed *)
      destruct Hg as [Hg1 Hg2]. split_and!.
      * intros k Hk. destruct (HU k) as [Hk_sd Hk_cur]; [by right |].
        split; [done |]. rewrite Hget.
        rewrite decide_False by (intros ->; done).
        rewrite decide_False; [done |].
        intros [-> Hf]. apply od_mem_false in Hf.
        rewrite Hk_cur in Hf. rewrite Hf in Hk_sd. by destruct Hk_sd.
      * intros k [Hk1 Hk2] Hk. rewrite Hget.
        destruct (decide (k = n)) as [->|Hne]; [done |].
        rewrite decide_False by (intros [-> _]; done).
        apply HA; [done |]. rewrite not_elem_of_cons. done.
      * intros k Hk Hsome. rewrite Hget.
        rewrite decide_False by (intros ->; apply Hk; done).
        rewrite decide_False; [by apply HB |].
        intros [-> Hf]. apply od_mem_false in Hf.
        rewrite (HB _ Hk Hsome) in Hf. rewrite Hf in Hsome. by destruct Hsome.
      * intros n0 [Hn01 Hn02] Hn0 Hsome Hnone. rewrite Hget.
        rewrite decide_False by (intros Heq; rewrite Heq in Hn02; done).
        destruct (decide (n0 = n)) as [->|Hne].
        -- rewrite decide_True; [done |]. split; [done |].
           apply od_mem_false.
           destruct (od_get (n +:+ "_raw") cur) as [v|] eqn:Hcur; [| done].
           destruct (HD _ _ Hcur) as [Hsd | (n1 & Heq & _ & Hn1 & _)].
           ++ congruence.
           ++ apply string_app_inj_r in Heq as <-.
              exfalso. apply Hn1. left.
        -- rewrite decide_False by (intros [Heq%string_app_inj_r _]; done).
           apply HC; [done | | done | done].
           rewrite not_elem_of_cons. done.
      * intros k v. rewrite Hget.
        destruct (decide (k = n)) as [->|Hne]; [done |].
        destruct (decide (k = n +:+ "_raw" ∧
                          od_mem (n +:+ "_raw") cur = false)) as [[-> _]|Hc].
        -- rewrite Hn_cur. intros Hv.
           right. exists n. split_and!; done.
        -- intros Hv. destruct (HD _ _ Hv) as [? | (n1 & ? & ? & Hn1 & ?)];
             [by left |].
           right. exists n1. split_and!; try done.
           intros Hin. apply Hn1. by right.
    + (* the entry [n] stays *)
      split_and!.
      * intros k Hk. destruct (HU k) as [Hk_sd Hk_cur]; [by right |].
        split; [done |]. by rewrite Hget.
      * intros k Hk Hks. rewrite Hget. apply HA; [done |].
        rewrite not_elem_of_cons. split; [| done]. intros ->. done.
      * intros k Hk Hsome. rewrite Hget. by apply HB.
      * intros n0 Hn0 Hks Hsome Hnone. rewrite Hget.
        apply HC; try done.
        rewrite not_elem_of_cons. split; [| done]. intros ->. done.
      * intros k v. rewrite Hget. intros Hv.
        destruct (HD _ _ Hv) as [? | (n1 & ? & ? & Hn1 & ?)]; [by left |].
        right. exists n1. split_and!; try done.
        intros Hin. apply Hn1. by right.
  - done.
  - intros n. by rewrite od_mem_keys.
  - split; [done |]. split_and!.
    + intros k Hk. split; [| done]. apply od_mem_true. by apply od_mem_keys.
    + intros k _ Hk. by apply od_get_None.
    + done.
    + intros n _ Hn Hsome. apply od_get_None in Hn. rewrite Hn in Hsome.
      by destruct Hsome.
    + auto.
  - exists sd'. split; [done |]. split; [done |]. split_and!.
    + intros k Hk%renamable_names. apply HA; [done | apply not_elem_of_nil].
    + intros k Hk Hsome. apply HB; [| done].
      intros Hg. apply Hk. by apply renamable_names.
    + intros n Hn%renamable_names Hsome Hnone.
      apply HC; [done | apply not_elem_of_nil | done | done].
    + intros k v Hv.
      destruct (HD _ _ Hv) as [? | (n1 & ? & Hg & _ & ?)]; [by left |].
      right. exists n1. split_and!; [done | by apply renamable_names | done].
Qed.

End reconcile_entries.

Section load_more.
Context {V : Type}.
Implicit Types (own sd items m : odict V) (n k : string).

Lemma copy_entries_keys strict items : ∀ own,
  od_keys (copy_entries strict own items).1 = od_keys own.
Proof.
  induction items as [|[n p] items IH]; intros own; simpl; [done |].
  destruct (od_mem n own) eqn:E.
  - rewrite IH, od_keys_set, E. done.
  - destruct strict; [done | apply IH].
Qed.

Lemma copy_entries_lenient items : ∀ own,
  NoDup (od_keys items) →
  ∃ own', copy_entries false own items = (own', Ok ()) ∧
    ∀ k, od_get k own' =
         if od_mem k own
         then match od_get k items with Some v => Some v | None => od_get k own end
         else None.
Proof.
  induction items as [|[n p] items IH]; intros own Hnd; simpl.
  - exists own. split; [done |]. intros k.
    destruct (od_mem k own) eqn:E; [done | by apply od_mem_false].
  - apply NoDup_cons in Hnd as [Hn Hnd]. apply od_get_None in Hn. simpl in Hn.
    destruct (od_mem n own) eqn:E.
    + destruct (IH (od_set n p own) Hnd) as (own' & -> & Hget).
      exists own'. split; [done |]. intros k. rewrite Hget.
      rewrite od_mem_set by done. destruct (od_mem k own) eqn:Ek; [| done].
      rewrite od_get_set. destruct (decide (n = k)) as [->|Hne].
      * rewrite Hn. by rewrite decide_True.
      * destruct (od_get k items); [done |]. by rewrite decide_False.
    + destruct (IH own Hnd) as (own' & -> & Hget).
      exists own'. split; [done |]. intros k. rewrite Hget.
      destruct (od_mem k own) eqn:Ek; [| done].
      rewrite decide_False; [done |]. intros ->. congruence.
Qed.

Lemma load_ner_model_keys m sd strict :
  od_keys (load_ner_model m sd strict).1 = od_keys m.
Proof.
  unfold load_ner_model. destruct (reconcile m sd) as [sd'|e]; [| done].
  unfold load_state_dict.
  pose proof (copy_entries_keys strict sd' m) as Hk.
  destruct (copy_entries strict m sd') as [own' [[]|e]]; simpl in *; [| done].
  destruct strict; [| done]. by destruct (missing_keys m sd').
Qed.

(** With exactly the live names in the checkpoint the pass changes no
    entry. *)
Lemma reconcile_exact_names m sd :
  NoDup (od_keys sd) → (∀ n, od_mem n sd = true → od_mem n m = true) →
  ∃ sd', reconcile m sd = Ok sd' ∧ NoDup (od_keys sd') ∧
         ∀ k, od_get k sd' = od_get k sd.
Proof.
  intros Hnd Hlive.
  destruct (reconcile_entries m sd Hnd) as (sd' & Hrun & Hnd' & HA & HB & HC & HD).
  exists sd'. split; [done |]. split; [done |]. intros k.
  assert (Hnot : ∀ n, is_Some (od_get n sd) → ¬ renamable m n).
  { intros n Hn%od_mem_true [Hf _]. rewrite (Hlive n Hn) in Hf. done. }
  destruct (od_get k sd) as [v|] eqn:Hk.
  - rewrite HB; [done | apply Hnot; by rewrite Hk | by rewrite Hk].
  - destruct (od_get k sd') as [v|] eqn:Hk'; [| done].
    destruct (HD _ _ Hk') as [? | (n & _ & Hren & Hn)]; [congruence |].
    exfalso. apply (Hnot n); [by rewrite Hn | done].
Qed.

Lemma load_ner_model_exact m sd :
  NoDup (od_keys sd) → (∀ n, od_mem n sd = od_mem n m) →
  ∃ m', load_ner_model m sd true = (m', Ok ()) ∧
        od_keys m' = od_keys m ∧
        ∀ k, od_mem k m = true → od_get k m' = od_get k sd.
Proof.
  intros Hnd Hsame.
  destruct (reconcile_exact_names m sd Hnd) as (sd' & Hrun & Hnd' & Hget).
  { intros n Hn. by rewrite <- Hsame. }
  assert (Hsame' : ∀ n, od_mem n sd' = od_mem n m).
  { intros n. rewrite <- Hsame. unfold od_mem. by rewrite Hget. }
  destruct (load_state_dict_ok m sd' Hnd' Hsame') as (m' & Hload & Hget').
  assert (Hrun' : load_ner_model m sd true = (m', Ok ()))
    by (unfold load_ner_model; by rewrite Hrun).
  exists m'. split; [done |]. split.
  - pose proof (load_ner_model_keys m sd true) as Hk. by rewrite Hrun' in Hk.
  - intros k Hk. by rewrite Hget', Hget.
Qed.

Lemma od_get_elem_of (d : odict V) n v :
  NoDup (od_keys d) → (n, v) ∈ d → od_get n d = Some v.
Proof.
  unfold od_keys. induction d as [|[n0 v0] d IH]; intros Hnd Hin.
  - by apply elem_of_nil in Hin.
  - csimpl in Hnd. apply NoDup_cons in Hnd as [Hn0 Hnd].
    apply elem_of_cons in Hin as [[= -> ->] | Hin]; simpl.
    + by rewrite decide_True.
    + rewrite decide_False; [by apply IH |].
      intros ->. apply Hn0. apply list_elem_of_fmap. by exists (n, v).
Qed.

End load_more.

(** X1.  What the renaming pass of [load_ner_model] does to a checkpoint,
    entry by entry.  It never raises.  An entry whose name [n] passes the
    guard ([n] is not a live name, [n_raw] is) is removed; every other
    entry keeps its name and tensor; the tensor of a removed [n] is found
    under [n_raw] when the checkpoint had no [n_raw] entry; and every
    entry of the result is an entry of the checkpoint under the same name
    or under the name without its [_raw]. *)
Theorem reconcile_pass_entries {V : Type} (m sd : odict V) :
  NoDup (od_keys sd) →
  ∃ sd', reconcile m sd = Ok sd' ∧ NoDup (od_keys sd') ∧
    (∀ k, renamable m k → od_get k sd' = None) ∧
    (∀ k, ¬ renamable m k → is_Some (od_get k sd) →
          od_get k sd' = od_get k sd) ∧
    (∀ n, renamable m n → is_Some (od_get n sd) →
          od_get (n +:+ "_raw") sd = None →
          od_get (n +:+ "_raw") sd' = od_get n sd) ∧
    (∀ k v, od_get k sd' = Some v →
          od_get k sd = Some v ∨
          ∃ n, k = n +:+ "_raw" ∧ renamable m n ∧ od_get n sd = Some v).
Proof. apply reconcile_entries. Qed.

Lemma reconcile_pass_entries_witness :
  reconcile [("enc.w_raw", 0%Z); ("out.b", 0%Z)]
            [("enc.w", 5%Z); ("out.b", 6%Z); ("old", 7%Z)]
    = Ok [("out.b", 6%Z); ("old", 7%Z); ("enc.w_raw", 5%Z)].
Proof.
  destruct (reconcile_pass_entries [("enc.w_raw", 0%Z); ("out.b", 0%Z)]
              [("enc.w", 5%Z); ("out.b", 6%Z); ("old", 7%Z)])
    as (sd' & Hrun & _).
  - by apply (bool_decide_unpack _).
  - rewrite Hrun. vm_compute in Hrun. congruence.
Defined.

(** X2.  When the checkpoint holds both [w] and [w_raw] and only [w_raw]
    is a live name, the checkpoint's own [w_raw] entry wins: [w] is
    dropped without being copied, and if the names then match, the live
    parameter [w_raw] is loaded from the checkpoint's [w_raw]. *)
Theorem load_ner_model_raw_entry_wins {V : Type}
    (m sd : odict V) (w : string) (v v' : V) :
  NoDup (od_keys sd) →
  renamable m w →
  od_get w sd = Some v → od_get (w +:+ "_raw") sd = Some v' →
  ∃ sd', reconcile m sd = Ok sd' ∧
    od_get w sd' = None ∧ od_get (w +:+ "_raw") sd' = Some v' ∧
    ((∀ n, od_mem n sd' = od_mem n m) →
     ∃ m', load_ner_model m sd true = (m', Ok ()) ∧
           od_get (w +:+ "_raw") m' = Some v').
Proof.
  intros Hnd Hren Hw Hraw.
  destruct (reconcile_entries m sd Hnd) as (sd' & Hrun & Hnd' & HA & HB & _).
  exists sd'. split; [done |]. split; [by apply HA |].
  assert (Hraw' : od_get (w +:+ "_raw") sd' = Some v').
  { rewrite HB; [done | | by rewrite Hraw].
    intros [Hf _]. destruct Hren as [_ Ht]. congruence. }
  split; [done |]. intros Hsame.
  destruct (load_state_dict_ok m sd' Hnd' Hsame) as (m' & Hload & Hget).
  exists m'. unfold load_ner_model. rewrite Hrun. split; [done |].
  rewrite Hget; [done |]. apply Hren.
Qed.

Lemma load_ner_model_raw_entry_wins_witness :
  ∃ m', load_ner_model [("w_raw", 0%Z)] [("w", 5%Z); ("w_raw", 6%Z)] true
          = (m', Ok ()) ∧ od_get "w_raw" m' = Some 6%Z.
Proof.
  destruct (load_ner_model_raw_entry_wins [("w_raw", 0%Z)]
              [("w", 5%Z); ("w_raw", 6%Z)] "w" 5%Z 6%Z)
    as (sd' & Hrun & _ & _ & Hload).
  - by apply (bool_decide_unpack _).
  - split; reflexivity.
  - reflexivity.
  - reflexivity.
  - vm_compute in Hrun. injection Hrun as <-.
    apply Hload. intros n. unfold od_mem. simpl.
    destruct (decide ("w_raw" = n)); reflexivity.
Defined.

(** X3.  A checkpoint whose names are exactly the live names loads as it
    is under strict matching: the call returns, every live parameter holds
    the checkpoint's tensor of its name, and the live names and their
    order are unchanged. *)
Theorem load_ner_model_exact_names {V : Type} (m sd : odict V) :
  NoDup (od_keys sd) → (∀ n, od_mem n sd = od_mem n m) →
  ∃ m', load_ner_model m sd true = (m', Ok ()) ∧
        od_keys m' = od_keys m ∧
        ∀ k, od_mem k m = true → od_get k m' = od_get k sd.
Proof. apply load_ner_model_exact. Qed.

Lemma load_ner_model_exact_names_witness :
  ∃ m', load_ner_model [("a", 1%Z); ("b", 2%Z)] [("b", 8%Z); ("a", 7%Z)] true
          = (m', Ok ()) ∧ od_keys m' = ["a"; "b"] ∧
        od_get "a" m' = Some 7%Z.
Proof.
  destruct (load_ner_model_exact_names [("a", 1%Z); ("b", 2%Z)]
              [("b", 8%Z); ("a", 7%Z)]) as (m' & Hload & Hkeys & Hget).
  - by apply (bool_decide_unpack _).
  - intros n. unfold od_mem. simpl.
    destruct (decide ("b" = n)), (decide ("a" = n)); subst; done.
  - exists m'. split; [done |]. split; [done |]. by apply Hget.
Defined.

(** X4.  Without strict matching [load_ner_model] never raises: every live
    parameter whose name the renamed checkpoint holds receives that
    tensor, every other live parameter keeps its own, and checkpoint
    entries with other names are ignored. *)
Theorem load_ner_model_lenient {V : Type} (m sd : odict V) :
  NoDup (od_keys sd) →
  ∃ sd' m', reconcile m sd = Ok sd' ∧
    load_ner_model m sd false = (m', Ok ()) ∧
    ∀ k, od_get k m' =
         if od_mem k m
         then match od_get k sd' with Some v => Some v | None => od_get k m end
         else None.
Proof.
  intros Hnd.
  destruct (reconcile_total m sd Hnd) as (sd' & Hrun & Hnd').
  destruct (copy_entries_lenient sd' m Hnd') as (m' & Hcopy & Hget).
  exists sd', m'. split; [done |]. split; [| done].
  unfold load_ner_model, load_state_dict. by rewrite Hrun, Hcopy.
Qed.

Lemma load_ner_model_lenient_witness :
  load_ner_model [("a", 1%Z); ("b", 2%Z)] [("a", 7%Z); ("c", 9%Z)] false
    = ([("a", 7%Z); ("b", 2%Z)], Ok ()).
Proof.
  destruct (load_ner_model_lenient [("a", 1%Z); ("b", 2%Z)]
              [("a", 7%Z); ("c", 9%Z)]) as (sd' & m' & _ & Hload & _).
  - by apply (bool_decide_unpack _).
  - rewrite Hload. vm_compute in Hload. congruence.
Defined.

(** X5.  Whatever the checkpoint and whether the call returns or raises,
    [load_ner_model] leaves the live model with the same parameter names
    in the same order: it only ever overwrites tensors. *)
Theorem load_ner_model_keeps_names {V : Type} (m sd : odict V) (strict : bool) :
  od_keys (load_ner_model m sd strict).1 = od_keys m.
Proof. apply load_ner_model_keys. Qed.

(** ** Saving and loading through the learner *)

Lemma od_get_Some_elem_of {V} (d : odict V) n v :
  od_get n d = Some v → (n, v) ∈ d.
Proof.
  induction d as [|[n0 v0] d IH]; simpl; [done |].
  destruct (decide (n0 = n)) as [->|Hne].
  - intros [= ->]. left.
  - intros Hn. right. by apply IH.
Qed.

Section save_load.
Context `{Backend}.
Implicit Types (self : learner) (s : state).

(** *** The snapshot of a model *)

Lemma snapshot_aux (h : list (parameter W)) (d : odict nat) :
  Forall (λ na, na.2 < length h) d →
  od_keys (omap (λ na, p ← h !! na.2; Some (na.1, data p)) d) = od_keys d ∧
  ∀ n, od_get n (omap (λ na, p ← h !! na.2; Some (na.1, data p)) d)
       = a ← od_get n d; data <$> h !! a.
Proof.
  induction 1 as [|[n0 a0] d Ha0 _ [IHk IHg]]; [done |].
  simpl in Ha0. destruct (lookup_lt_is_Some_2 h a0 Ha0) as [p0 Hp0].
  assert (Hstep : omap (λ na, p ← h !! na.2; Some (na.1, data p)) ((n0, a0) :: d)
          = (n0, data p0)
            :: omap (λ na, p ← h !! na.2; Some (na.1, data p)) d).
  { csimpl. by rewrite Hp0. }
  rewrite Hstep. split.
  - unfold od_keys in *. csimpl. by rewrite IHk.
  - intros n. simpl. destruct (decide (n0 = n)) as [->|Hne].
    + simpl. by rewrite Hp0.
    + apply IHg.
Qed.

Lemma snapshot_keys s :
  model_ok s → od_keys (snapshot s) = od_keys (state_dict s).
Proof. intros [_ Hok]. by apply snapshot_aux. Qed.

Lemma snapshot_get s n : model_ok s → od_get n (snapshot s) = tensor_of s n.
Proof. intros [_ Hok]. by apply snapshot_aux. Qed.

Lemma snapshot_mem s n :
  model_ok s → od_mem n (snapshot s) = od_mem n (state_dict s).
Proof.
  intros Hok. destruct (od_mem n (state_dict s)) eqn:E.
  - apply od_mem_keys. rewrite snapshot_keys by done. by apply od_mem_keys.
  - apply od_mem_false, od_get_None. rewrite snapshot_keys by done.
    by apply od_get_None, od_mem_false.
Qed.

(** *** Writing tensors back *)

Lemma write_back_frame own : ∀ s,
  state_dict (write_back own s) = state_dict s ∧
  training (write_back own s) = training s ∧
  opt (write_back own s) = opt s ∧
  log (write_back own s) = log s ∧
  disk (write_back own s) = disk s ∧
  length (heap (write_back own s)) = length (heap s).
Proof.
  unfold write_back.
  induction own as [|[n v] own IH]; intros s; simpl; [done |].
  destruct (od_get n (state_dict s)) as [a|]; [| apply IH].
  destruct (IH (set_heap (alter (λ p, mkParameter v (requires_grad p) (grad p))
                                a (heap s)) s))
    as (-> & -> & -> & -> & -> & ->).
  simpl. by rewrite length_alter.
Qed.

(** Only tensors change: flags and gradients stay, and a tensor is either
    the old one or one written for its address. *)
Lemma write_back_heap (val : nat → W → Prop) own : ∀ s,
  (∀ n v a, (n, v) ∈ own → od_get n (state_dict s) = Some a → val a v) →
  ∀ a p, heap s !! a = Some p →
    ∃ d, heap (write_back own s) !! a
           = Some (mkParameter d (requires_grad p) (grad p)) ∧
         (d = data p ∨ val a d).
Proof.
  unfold write_back.
  induction own as [|[n v] own IH]; intros s Hval a p Hp; simpl.
  - exists (data p). split; [by destruct p | by left].
  - destruct (od_get n (state_dict s)) as [a0|] eqn:Hn.
    + set (s1 := set_heap (alter (λ p, mkParameter v (requires_grad p) (grad p))
                                 a0 (heap s)) s).
      destruct (decide (a0 = a)) as [->|Hne].
      * destruct (IH s1) with (a := a)
          (p := mkParameter v (requires_grad p) (grad p)) as (d & Hd & Hor).
        { intros n' v' a' Hin Hn'. apply (Hval n'); [by right | done]. }
        { simpl. by rewrite list_lookup_alter_eq, Hp. }
        exists d. split; [done |]. right. destruct Hor as [-> | ?]; [| done].
        simpl. apply (Hval n); [left | done].
      * destruct (IH s1) with (a := a) (p := p) as (d & Hd & Hor).
        { intros n' v' a' Hin Hn'. apply (Hval n'); [by right | done]. }
        { simpl. by rewrite list_lookup_alter_ne. }
        eauto.
    + apply IH; [| done].
      intros n' v' a' Hin Hn'. apply (Hval n'); [by right | done].
Qed.

(** A parameter whose name is written receives a written tensor. *)
Lemma write_back_hit (val : nat → W → Prop) own : ∀ s,
  (∀ n v a, (n, v) ∈ own → od_get n (state_dict s) = Some a → val a v) →
  ∀ n a p, n ∈ od_keys own → od_get n (state_dict s) = Some a →
    heap s !! a = Some p →
    ∃ d, heap (write_back own s) !! a
           = Some (mkParameter d (requires_grad p) (grad p)) ∧ val a d.
Proof.
  induction own as [|[n0 v0] own IH]; intros s Hval n a p Hin Hn Hp.
  - by apply elem_of_nil in Hin.
  - unfold od_keys in Hin. csimpl in Hin.
    destruct (decide (n = n0)) as [->|Hne].
    + (* written now; later writes to the address are written tensors too *)
      change (write_back ((n0, v0) :: own) s) with
        (write_back own
           (match od_get n0 (state_dict s) with
            | Some a => set_heap (alter (λ p, mkParameter v0 (requires_grad p)
                                                (grad p)) a (heap s)) s
            | None => s
            end)).
      rewrite Hn.
      set (s1 := set_heap _ s).
      destruct (write_back_heap val own s1) with (a := a)
        (p := mkParameter v0 (requires_grad p) (grad p)) as (d & Hd & Hor).
      { intros n' v' a' Hin' Hn'. apply (Hval n'); [by right | done]. }
      { simpl. by rewrite list_lookup_alter_eq, Hp. }
      exists d. split; [done |]. destruct Hor as [-> | ?]; [| done].
      simpl. apply (Hval n0); [left | done].
    + apply elem_of_cons in Hin as [? | Hin]; [done |].
      change (write_back ((n0, v0) :: own) s) with
        (write_back own
           (match od_get n0 (state_dict s) with
            | Some a => set_heap (alter (λ p, mkParameter v0 (requires_grad p)
                                                (grad p)) a (heap s)) s
            | None => s
            end)).
      destruct (od_get n0 (state_dict s)) as [a0|] eqn:Hn0.
      * set (s1 := set_heap _ s).
        destruct (decide (a0 = a)) as [->|Hna].
        -- destruct (IH s1) with (n := n) (a := a)
             (p := mkParameter v0 (requires_grad p) (grad p)) as (d & Hd & Hv);
             try done.
           { intros n' v' a' Hin' Hn'. apply (Hval n'); [by right | done]. }
           { simpl. by rewrite list_lookup_alter_eq, Hp. }
           eauto.
        -- destruct (IH s1) with (n := n) (a := a) (p := p) as (d & Hd & Hv);
             try done.
           { intros n' v' a' Hin' Hn'. apply (Hval n'); [by right | done]. }
           { simpl. by rewrite list_lookup_alter_ne. }
           eauto.
      * apply (IH s) with (n := n); try done.
        intros n' v' a' Hin' Hn'. apply (Hval n'); [by right | done].
Qed.

(** *** [save] and [load] as runs *)

Lemma save_run self name s :
  save self name s
  = (add_log (SavedModelAt (get_model_path self
                (name_or (ner_model_path (learner_config self)) name)))
       (set_disk (<[get_model_path self
                      (name_or (ner_model_path (learner_config self)) name)
                    := snapshot s]> (disk s)) s),
     Ok ()).
Proof. reflexivity. Qed.

Lemma load_run self fn s sd :
  disk s !! get_model_path self
              (name_or (ner_model_path (learner_config self)) fn) = Some sd →
  load self fn s
  = match (load_ner_model (snapshot s) sd true).2 with
    | Ok _ =>
        (add_log (LoadedModelFrom (get_model_path self
                    (name_or (ner_model_path (learner_config self)) fn)))
           (write_back (load_ner_model (snapshot s) sd true).1 s), Ok ())
    | Raise e =>
        (write_back (load_ner_model (snapshot s) sd true).1 s, Raise e)
    end.
Proof.
  intros Hsd. unfold load. munfold. simpl. rewrite Hsd.
  by destruct (load_ner_model (snapshot s) sd true).2.
Qed.

Lemma load_frame self fn s :
  state_dict (load self fn s).1 = state_dict s ∧
  training (load self fn s).1 = training s ∧
  opt (load self fn s).1 = opt s ∧
  disk (load self fn s).1 = disk s ∧
  length (heap (load self fn s).1) = length (heap s) ∧
  ∀ a p, heap s !! a = Some p →
    ∃ d, heap (load self fn s).1 !! a
         = Some (mkParameter d (requires_grad p) (grad p)).
Proof.
  destruct (disk s !! get_model_path self
              (name_or (ner_model_path (learner_config self)) fn))
    as [sd|] eqn:Hsd.
  - rewrite (load_run _ _ _ _ Hsd).
    set (own := (load_ner_model (snapshot s) sd true).1).
    destruct (write_back_frame own s) as (Hd & Ht & Ho & Hl & Hk & Hlen).
    assert (Hheap : ∀ a p, heap s !! a = Some p →
              ∃ d, heap (write_back own s) !! a
                   = Some (mkParameter d (requires_grad p) (grad p))).
    { intros a p Hp.
      destruct (write_back_heap (λ _ _, True) own s) with (a := a) (p := p)
        as (d & Hd' & _); [done | done |]. by exists d. }
    by destruct (load_ner_model (snapshot s) sd true).2.
  - unfold load. munfold. simpl. rewrite Hsd. simpl.
    split_and!; try done. intros a p Hp. exists (data p). by destruct p.
Qed.

Lemma load_restores self fn s0 s :
  model_ok s0 →
  state_dict s = state_dict s0 → length (heap s) = length (heap s0) →
  disk s !! get_model_path self
              (name_or (ner_model_path (learner_config self)) fn)
    = Some (snapshot s0) →
  (load self fn s).2 = Ok () ∧
  ∀ n, tensor_of (load self fn s).1 n = tensor_of s0 n.
Proof.
  intros Hok0 Hsd Hlen Hfile.
  assert (Hok : model_ok s).
  { destruct Hok0 as [Hnd Hall]. split; rewrite Hsd; [done |].
    by rewrite Hlen. }
  rewrite (load_run _ _ _ _ Hfile).
  destruct (load_ner_model_exact (snapshot s) (snapshot s0))
    as (m' & Hrun & Hkeys & Hget).
  { rewrite snapshot_keys by done. apply Hok0. }
  { intros n. rewrite !snapshot_mem by done. by rewrite Hsd. }
  rewrite Hrun. simpl. split; [done |].
  intros n. unfold tensor_of at 1. simpl.
  destruct (write_back_frame m' s) as (Hd & _). rewrite Hd.
  destruct (od_get n (state_dict s)) as [a|] eqn:Hn; simpl.
  - assert (Ha : a < length (heap s)).
    { destruct Hok as [_ Hall]. rewrite Forall_forall in Hall.
      apply (Hall (n, a)). by apply od_get_Some_elem_of. }
    destruct (lookup_lt_is_Some_2 _ _ Ha) as [p Hp].
    destruct (write_back_hit
                (λ a d, data <$> heap s0 !! a = Some d) m' s)
      with (n := n) (a := a) (p := p) as (d & Hd' & Hval); try done.
    + intros n' v' a' Hin Hn'.
      assert (Hg : od_get n' m' = Some v').
      { apply od_get_elem_of; [| done]. rewrite Hkeys.
        rewrite snapshot_keys by done. apply Hok. }
      rewrite Hget in Hg.
      * rewrite snapshot_get in Hg by done. unfold tensor_of in Hg.
        rewrite <- Hsd, Hn' in Hg. done.
      * rewrite snapshot_mem by done. apply od_mem_true. by rewrite Hn'.
    + rewrite Hkeys, snapshot_keys by done.
      apply od_mem_keys, od_mem_true. by rewrite Hn.
    + rewrite Hd'. simpl. unfold tensor_of. rewrite <- Hsd, Hn. simpl.
      by rewrite Hval.
  - unfold tensor_of. by rewrite <- Hsd, Hn.
Qed.

End save_load.

(** *** Paths *)

Lemma string_app_inj_l (s t1 t2 : string) : s +:+ t1 = s +:+ t2 → t1 = t2.
Proof.
  induction s as [|c s IH]; [done |].
  rewrite !string_app_cons. intros [= Heq]. by apply IH.
Qed.

Lemma path_join_of_relative (a b : string) :
  String.prefix "/" b = false →
  ∃ sep, path_join a b = a +:+ sep +:+ b ∧ (sep = "" ∨ sep = "/") ∧
         ∀ b', String.prefix "/" b' = false → path_join a b' = a +:+ sep +:+ b'.
Proof.
  intros Hb. unfold path_join. rewrite Hb.
  destruct (bool_decide (a = "") || ends_with_slash a) eqn:E.
  - exists "". split_and!; [done | by left |]. by intros b' ->.
  - exists "/". split_and!; [done | by right |]. by intros b' ->.
Qed.



(** X7. Saving and loading round-trip: once [save] has written the model
    of state [s0] under a name, a [load] of that name into a model with
    the same parameters (whatever their tensors have become since) returns
    normally and gives every parameter the tensor it had in [s0]. *)
Theorem save_then_load_restores `{Backend} (self : learner)
    (name : option string) (s0 s : state) :
  model_ok s0 →
  state_dict s = state_dict s0 →
  length (heap s) = length (heap s0) →
  disk s = disk (save self name s0).1 →
  (load self name s).2 = Ok () ∧
  ∀ n, tensor_of (load self name s).1 n = tensor_of s0 n.
Proof.
  intros Hok Hsd Hlen Hdisk. apply load_restores; try done.
  rewrite Hdisk, save_run. simpl. apply lookup_insert_eq.
Qed.

Lemma save_then_load_restores_witness :
  heap (train (toy_learner true) 0 1 (λ _, toy_batch) 0 false
          (save (toy_learner true) None (toy_state true)).1).1
    = [mkParameter 10%Z false None; mkParameter 19%Z true (Some 1%Z)] ∧
  (load (toy_learner true) None
     (train (toy_learner true) 0 1 (λ _, toy_batch) 0 false
        (save (toy_learner true) None (toy_state true)).1).1).2 = Ok () ∧
  tensor_of
    (load (toy_learner true) None
       (train (toy_learner true) 0 1 (λ _, toy_batch) 0 false
          (save (toy_learner true) None (toy_state true)).1).1).1
    "lstm.weight" = Some 20%Z.
Proof.
  assert (Hok : model_ok (toy_state true)).
  { split; [by apply (bool_decide_unpack _) |]. repeat constructor. }
  split; [vm_compute; reflexivity |].
  destruct (save_then_load_restores (toy_learner true) None (toy_state true)
              (train (toy_learner true) 0 1 (λ _, toy_batch) 0 false
                 (save (toy_learner true) None (toy_state true)).1).1 Hok)
    as [Hres Hget].
  - vm_compute; reflexivity.
  - vm_compute; reflexivity.
  - vm_compute; reflexivity.
  - split; [exact Hres |]. rewrite Hget. reflexivity.
Defined.

(** X8. Apart from its log line, [load] changes nothing but tensors:
    whether it returns or raises, the model's names, its mode flag, the
    optimizer's state and the files are as before, there are as many
    parameter objects as before, and every parameter object keeps its
    [requires_grad] flag and its gradient. *)
Theorem load_changes_only_tensors `{Backend} (self : learner)
    (fn : option string) (s : state) :
  state_dict (load self fn s).1 = state_dict s ∧
  training (load self fn s).1 = training s ∧
  opt (load self fn s).1 = opt s ∧
  disk (load self fn s).1 = disk s ∧
  length (heap (load self fn s).1) = length (heap s) ∧
  ∀ a p, heap s !! a = Some p →
    ∃ d, heap (load self fn s).1 !! a
         = Some (mkParameter d (requires_grad p) (grad p)).
Proof. apply load_frame. Qed.

(** X9. [get_model_path] is injective on names that do not start with a
    slash: two such names give the same path string only when they are
    the same name.  (Different path strings may still name one file, as
    [ner] and [./ner] do; this is about the strings.) *)
Theorem get_model_path_injective `{Backend} (self : learner)
    (name1 name2 : string) :
  String.prefix "/" name1 = false →
  String.prefix "/" name2 = false →
  get_model_path self name1 = get_model_path self name2 →
  name1 = name2.
Proof.
  intros H1 H2. unfold get_model_path. intros Heq%string_app_inj_r.
  destruct (path_join_of_relative (dir_model (learner_config self)) name1 H1)
    as (sep & Hj1 & _ & Hj).
  rewrite Hj1, (Hj name2 H2) in Heq.
  by apply string_app_inj_l, string_app_inj_l in Heq.
Qed.

Lemma get_model_path_injective_witness :
  get_model_path (toy_learner true) "ner" ≠ get_model_path (toy_learner true) "ner_ft".
Proof.
  intros Heq.
  by apply (get_model_path_injective (toy_learner true) "ner" "ner_ft") in Heq.
Defined.

(** ** Masks for arbitrary lengths *)

Section masks.
Implicit Types (targets : tensor Z) (mask : tensor bool) (bf : bool).

(** One step of the loop of [create_mask], in either orientation. *)
Lemma create_mask_step_ok targets bf l i mask :
  shaped mask → size0 mask = size0 targets → size1 mask = size1 targets →
  i < batch_size_of bf targets →
  ∃ mask',
    (if bf then clear_cols_from i l mask else clear_rows_from l i mask)
      = Ok mask' ∧
    shaped mask' ∧ size0 mask' = size0 targets ∧ size1 mask' = size1 targets ∧
    ∀ j t, tag_at bf mask' j t =
      (λ b, if decide (slice_index (time_size bf targets) l ≤ t ∧ j = i)
            then false else b) <$> tag_at bf mask j t.
Proof.
  intros Hsh H0 H1 Hi. unfold batch_size_of, time_size, tag_at in *.
  destruct bf.
  - destruct (clear_cols_from_spec i l mask Hsh) as (m1 & -> & ? & ? & ? & Hent);
      [lia |].
    exists m1. split_and!; try done; try congruence.
    intros j t. rewrite Hent. by rewrite H1.
  - destruct (clear_rows_from_spec l i mask Hsh) as (m1 & -> & ? & ? & ? & Hent);
      [lia |].
    exists m1. split_and!; try done; try congruence.
    intros j t. rewrite Hent. by rewrite H0.
Qed.

Lemma create_mask_loop_unfold targets bf i l ls mask :
  create_mask_loop targets bf i (l :: ls) mask =
    rbind (if decide (l < Z.of_nat (time_size bf targets))%Z
           then (if bf then clear_cols_from i l mask
                 else clear_rows_from l i mask)
           else Ok mask)
          (create_mask_loop targets bf (S i) ls).
Proof. unfold time_size. by destruct bf. Qed.

Lemma create_mask_loop_any targets bf ls : ∀ i mask,
  shaped mask → size0 mask = size0 targets → size1 mask = size1 targets →
  (∀ k l, ls !! k = Some l → (l < Z.of_nat (time_size bf targets))%Z →
          i + k < batch_size_of bf targets) →
  ∃ mask', create_mask_loop targets bf i ls mask = Ok mask' ∧
    shaped mask' ∧ size0 mask' = size0 targets ∧ size1 mask' = size1 targets ∧
    ∀ j t, tag_at bf mask' j t =
      (λ b, b && kept_by (time_size bf targets) i ls t j) <$> tag_at bf mask j t.
Proof.
  induction ls as [|l ls IH]; intros i mask Hsh H0 H1 Hok.
  - exists mask. split_and!; try done.
    intros j t. simpl. destruct (tag_at bf mask j t); simpl; [| done].
    by rewrite andb_true_r.
  - rewrite create_mask_loop_unfold.
    assert (Hok' : ∀ k l', ls !! k = Some l' →
              (l' < Z.of_nat (time_size bf targets))%Z →
              S i + k < batch_size_of bf targets).
    { intros k l' Hk Hl'. specialize (Hok (S k) l' Hk Hl'). lia. }
    destruct (decide (l < Z.of_nat (time_size bf targets))%Z) as [Hl|Hl].
    + destruct (create_mask_step_ok targets bf l i mask)
        as (m1 & -> & Hsh1 & E0 & E1 & Hent); try done.
      { specialize (Hok 0 l eq_refl Hl). lia. }
      simpl.
      destruct (IH (S i) m1) as (m2 & -> & Hsh2 & F0 & F1 & Hent2); try done.
      exists m2. split_and!; try done.
      intros j t. rewrite Hent2, Hent.
      destruct (tag_at bf mask j t) as [b|]; simpl; [| done].
      f_equal. unfold kept.
      rewrite (decide_True (P := (l < Z.of_nat (time_size bf targets))%Z)) by done.
      destruct b, (kept_by _ (S i) ls t j); simpl;
        repeat (case_decide || case_bool_decide); simpl;
        try done; exfalso; intuition lia.
    + simpl.
      destruct (IH (S i) mask) as (m2 & -> & Hsh2 & F0 & F1 & Hent2); try done.
      exists m2. split_and!; try done.
      intros j t. rewrite Hent2.
      destruct (tag_at bf mask j t) as [b|]; simpl; [| done].
      f_equal. unfold kept.
      rewrite (decide_False (P := (l < Z.of_nat (time_size bf targets))%Z)) by done.
      by destruct (decide (j = i)).
Qed.

(** A length that needs clearing, at an index outside the batch, makes
    the loop raise. *)
Lemma create_mask_loop_index_error targets bf ls : ∀ i mask,
  shaped mask → size0 mask = size0 targets → size1 mask = size1 targets →
  (∃ k l, ls !! k = Some l ∧ (l < Z.of_nat (time_size bf targets))%Z ∧
          batch_size_of bf targets ≤ i + k) →
  create_mask_loop targets bf i ls mask = Raise IndexError.
Proof.
  induction ls as [|l ls IH]; intros i mask Hsh H0 H1 (k & l' & Hk & Hl' & Hik).
  - done.
  - rewrite create_mask_loop_unfold.
    destruct (decide (l < Z.of_nat (time_size bf targets))%Z) as [Hl|Hl].
    + destruct (decide (i < batch_size_of bf targets)) as [Hi|Hi].
      * destruct (create_mask_step_ok targets bf l i mask)
          as (m1 & -> & Hsh1 & E0 & E1 & _); try done.
        simpl. apply IH; try done.
        destruct k as [|k]; [lia |]. exists k, l'. split_and!; [done | done | lia].
      * unfold batch_size_of in Hi.
        destruct bf; unfold clear_cols_from, clear_rows_from.
        -- by rewrite decide_False by lia.
        -- by rewrite decide_False by lia.
    + simpl. apply IH; try done.
      destruct k as [|k]; [by injection Hk as -> |].
      exists k, l'. split_and!; [done | done | lia].
Qed.

Lemma create_mask_loop_raise_inv targets bf ls : ∀ i mask e,
  size0 mask = size0 targets → size1 mask = size1 targets →
  create_mask_loop targets bf i ls mask = Raise e →
  ∃ k l, ls !! k = Some l ∧ (l < Z.of_nat (time_size bf targets))%Z ∧
         batch_size_of bf targets ≤ i + k.
Proof.
  induction ls as [|l ls IH]; intros i mask e H0 H1; [done |].
  rewrite create_mask_loop_unfold.
  destruct (decide (l < Z.of_nat (time_size bf targets))%Z) as [Hl|Hl].
  - destruct (decide (i < batch_size_of bf targets)) as [Hi|Hi].
    + assert (∃ m1, (if bf then clear_cols_from i l mask
                     else clear_rows_from l i mask) = Ok m1 ∧
                    size0 m1 = size0 targets ∧ size1 m1 = size1 targets)
        as (m1 & -> & E0 & E1).
      { unfold batch_size_of in Hi.
        destruct bf; unfold clear_cols_from, clear_rows_from;
          rewrite decide_True by lia; eauto. }
      simpl. intros Hr. destruct (IH _ _ _ E0 E1 Hr) as (k & l' & ? & ? & ?).
      exists (S k), l'. split_and!; [done | done | lia].
    + intros _. exists 0, l. split_and!; [done | done | lia].
  - simpl. intros Hr. destruct (IH _ _ _ H0 H1 Hr) as (k & l' & ? & ? & ?).
    exists (S k), l'. split_and!; [done | done | lia].
Qed.

(** What [kept] says, by the sign and size of the length. *)
Lemma kept_cases n l t :
  t < n →
  kept n l t = bool_decide ((Z.of_nat n ≤ l)%Z ∨
                            (0 ≤ l ∧ Z.of_nat t < l)%Z ∨
                            (l < 0 ∧ Z.of_nat t < Z.of_nat n + l)%Z).
Proof.
  intros Ht. unfold kept, slice_index. case_decide.
  - destruct (l <? 0)%Z eqn:E.
    + apply Z.ltb_lt in E. apply bool_decide_ext. lia.
    + apply Z.ltb_ge in E. apply bool_decide_ext. lia.
  - symmetry. apply bool_decide_eq_true_2. lia.
Qed.

Lemma kept_slice n l t :
  t < n → kept n l t = bool_decide (t < slice_index n l).
Proof.
  intros Ht. unfold kept. case_decide; [done |].
  unfold slice_index. rewrite (proj2 (Z.ltb_ge l 0)) by lia.
  symmetry. apply bool_decide_eq_true_2. lia.
Qed.

End masks.

(** ** Counting correct predictions *)

Lemma count_correct_raise_iff predictions : ∀ masked_targets e,
  count_correct predictions masked_targets = Raise e ↔
  e = IndexError ∧
  ∃ k p mt, predictions !! k = Some p ∧ masked_targets !! k = Some mt ∧
            length mt < length p.
Proof.
  induction predictions as [|p ps IH]; intros [|mt mts] e; simpl.
  - split; [done | by intros (_ & k & ? & ? & ? & _)].
  - split; [done | by intros (_ & k & ? & ? & ? & _)].
  - split; [done | by intros (_ & k & ? & ? & _ & ? & _)].
  - case_decide as Hlen.
    + destruct (count_correct ps mts) as [n|e'] eqn:Hc; simpl.
      * split; [done |]. intros (-> & [|k] & p' & mt' & Hp & Hmt & Hlt).
        -- simpl in *. simplify_eq. lia.
        -- assert (Hr : count_correct ps mts = Raise IndexError).
           { apply IH. eauto 10. }
           congruence.
      * apply IH in Hc as (-> & k & p' & mt' & ? & ? & ?).
        split.
        -- intros [= <-]. split; [done |]. exists (S k), p', mt'. eauto.
        -- by intros [-> _].
    + split.
      * intros [= <-]. split; [done |]. exists 0, p, mt. split_and!; [done..| lia].
      * by intros [-> _].
Qed.

Lemma token_matches_length lab lab_pred :
  length (token_matches lab lab_pred) = length lab `min` length lab_pred.
Proof. unfold token_matches. by rewrite length_fmap, length_zip. Qed.

Lemma token_matches_self lab :
  filter (λ b, b = true) (token_matches lab lab) = replicate (length lab) true.
Proof.
  unfold token_matches. induction lab as [|a lab IH]; [done |].
  csimpl. rewrite filter_cons, decide_True by (by apply bool_decide_eq_true_2).
  simpl. rewrite bool_decide_eq_true_2 by done. by rewrite IH.
Qed.

Lemma count_correct_bound predictions : ∀ masked_targets n,
  count_correct predictions masked_targets = Ok n →
  n ≤ sum_list_with length predictions.
Proof.
  induction predictions as [|p ps IH]; intros [|mt mts] n; simpl;
    try (intros [= <-]; lia).
  case_decide; [| done].
  destruct (count_correct ps mts) as [n'|] eqn:Hc; simpl; [| done].
  intros [= <-]. apply IH in Hc.
  pose proof (length_filter (λ b, b = true) (token_matches p mt)) as Hf.
  rewrite token_matches_length in Hf. lia.
Qed.

Lemma count_correct_self predictions :
  count_correct predictions predictions = Ok (sum_list_with length predictions).
Proof.
  induction predictions as [|p ps IH]; [done |].
  simpl. rewrite decide_True by done. rewrite IH. simpl.
  by rewrite token_matches_self, length_replicate.
Qed.

Lemma create_mask_run ls targets bf :
  create_mask true ls targets bf
  = create_mask_loop targets bf 0 ls (ones (size0 targets) (size1 targets)).
Proof. reflexivity. Qed.

Lemma tag_at_ones bf d0 d1 (targets : tensor Z) i t :
  d0 = size0 targets → d1 = size1 targets →
  i < batch_size_of bf targets → t < time_size bf targets →
  tag_at bf (ones d0 d1) i t = Some true.
Proof.
  intros -> -> Hi Ht. unfold tag_at, batch_size_of, time_size in *.
  destruct bf; rewrite entry_ones; by rewrite decide_True by lia.
Qed.

Lemma create_mask_any ls targets bf :
  (∀ k l, ls !! k = Some l → (l < Z.of_nat (time_size bf targets))%Z →
          k < batch_size_of bf targets) →
  ∃ mask, create_mask true ls targets bf = Ok mask ∧
    shaped mask ∧ size0 mask = size0 targets ∧ size1 mask = size1 targets ∧
    ∀ i t, i < batch_size_of bf targets → t < time_size bf targets →
      tag_at bf mask i t
      = Some (from_option (λ l, kept (time_size bf targets) l t) true (ls !! i)).
Proof.
  intros Hok. rewrite create_mask_run.
  destruct (create_mask_loop_any targets bf ls 0
              (ones (size0 targets) (size1 targets)))
    as (mask & Hrun & Hsh & E0 & E1 & Hent);
    [apply shaped_ones | done | done | by intros k l Hk Hl; apply (Hok k l) |].
  exists mask. split_and!; try done.
  intros i t Hi Ht. rewrite Hent, (tag_at_ones bf _ _ targets) by done.
  simpl. f_equal. rewrite kept_by_lookup, decide_True by lia.
  by replace (i - 0) with i by lia.
Qed.

Lemma mask_targets_length targets ls bf :
  shaped targets →
  length (mask_targets targets ls bf)
  = batch_size_of bf targets `min` length ls.
Proof.
  intros [Hlen _]. unfold mask_targets, batch_size_of.
  rewrite length_fmap, length_zip. f_equal.
  destruct bf; [done |]. simpl. by rewrite length_fmap, length_seq.
Qed.

Lemma mask_targets_sample targets ls bf k p :
  shaped targets → ls !! k = Some p → k < batch_size_of bf targets →
  ∃ ids, mask_targets targets ls bf !! k = Some ids ∧
         length ids = slice_index (time_size bf targets) p ∧
         ∀ t, t < length ids → ids !! t = tag_at bf targets k t.
Proof.
  intros Hsh Hp Hk.
  destruct (sample_row_spec bf targets k Hsh Hk) as (r & Hr & Hlen & Hget).
  exists (py_take p r). split_and!.
  - rewrite mask_targets_lookup, Hr. simpl. by rewrite Hp.
  - unfold py_take. rewrite length_take, Hlen.
    pose proof (slice_index_le (time_size bf targets) p). lia.
  - intros t Ht. unfold py_take in *. rewrite length_take in Ht.
    rewrite lookup_take_lt by lia. apply Hget.
Qed.

(** X10. On a machine with CUDA, [create_mask] raises [IndexError]
    exactly when some length that calls for clearing (one smaller than
    the time dimension) sits at an index outside the batch dimension;
    extra lengths that reach the time dimension are tolerated. *)
Theorem create_mask_index_error_iff (sequence_lengths : list Z)
    (targets : tensor Z) (batch_first : bool) :
  create_mask true sequence_lengths targets batch_first = Raise IndexError ↔
  ∃ k l, sequence_lengths !! k = Some l ∧
         (l < Z.of_nat (time_size batch_first targets))%Z ∧
         batch_size_of batch_first targets ≤ k.
Proof.
  rewrite create_mask_run. split.
  - intros Hr.
    destruct (create_mask_loop_raise_inv targets batch_first sequence_lengths
                0 (ones (size0 targets) (size1 targets)) IndexError)
      as (k & l & ? & ? & ?); [done | done | done |].
    exists k, l. split_and!; [done | done | lia].
  - intros (k & l & ? & ? & ?).
    apply create_mask_loop_index_error; [apply shaped_ones | done | done |].
    exists k, l. split_and!; [done | done | lia].
Qed.

(** X11. For lengths of any sign and size (as long as no clearing falls
    outside the batch), the mask follows Python's slice [l:]: a length at
    or above the time dimension masks nothing, a length [0 <= l] keeps
    the positions before [l], a negative length keeps the positions
    before [n + l] (it masks the last [-l] positions), and a sample
    without a length keeps every position. *)
Theorem create_mask_any_lengths (sequence_lengths : list Z)
    (targets : tensor Z) (batch_first : bool) :
  (∀ k l, sequence_lengths !! k = Some l →
          (l < Z.of_nat (time_size batch_first targets))%Z →
          k < batch_size_of batch_first targets) →
  ∃ mask,
    create_mask true sequence_lengths targets batch_first = Ok mask ∧
    shaped mask ∧ size0 mask = size0 targets ∧ size1 mask = size1 targets ∧
    ∀ i t, i < batch_size_of batch_first targets →
           t < time_size batch_first targets →
      tag_at batch_first mask i t
      = Some (match sequence_lengths !! i with
              | Some l =>
                  bool_decide
                    ((Z.of_nat (time_size batch_first targets) ≤ l)%Z ∨
                     (0 ≤ l ∧ Z.of_nat t < l)%Z ∨
                     (l < 0 ∧
                      Z.of_nat t < Z.of_nat (time_size batch_first targets) + l)%Z)
              | None => true
              end).
Proof.
  intros Hok.
  destruct (create_mask_any sequence_lengths targets batch_first Hok)
    as (mask & Hrun & Hsh & E0 & E1 & Hent).
  exists mask. split_and!; try done.
  intros i t Hi Ht. rewrite Hent by done. f_equal.
  destruct (sequence_lengths !! i) as [l|]; simpl; [| done].
  by apply kept_cases.
Qed.

(** Lengths [-1] (all but the last position), [7] (longer than the
    batch is padded) and a third sample without a length. *)
Lemma create_mask_any_lengths_witness :
  ∃ mask,
    create_mask true [(-1)%Z; 7%Z]
      (mkTensor 3 3 [[4%Z; 7%Z; 1%Z]; [0%Z; 0%Z; 1%Z]; [0%Z; 0%Z; 1%Z]]) false
      = Ok mask ∧
    tag_at false mask 0 1 = Some true ∧ tag_at false mask 0 2 = Some false ∧
    tag_at false mask 1 2 = Some true ∧ tag_at false mask 2 2 = Some true.
Proof.
  destruct (create_mask_any_lengths [(-1)%Z; 7%Z]
              (mkTensor 3 3 [[4%Z; 7%Z; 1%Z]; [0%Z; 0%Z; 1%Z]; [0%Z; 0%Z; 1%Z]])
              false)
    as (mask & Hrun & _ & _ & _ & Hent).
  { intros [|[|k]] l Hk Hl; simpl in *; simplify_eq; lia. }
  exists mask. split; [exact Hrun |].
  split_and!; rewrite Hent by (simpl; lia); reflexivity.
Defined.

(** X12. The mask and the masked targets agree for every length: when
    [create_mask] and [mask_targets] are given the same tensor and
    lengths, sample [k] of [mask_targets] holds the first tags of the
    sample's row, as many as the slice [:p] keeps, and the mask is true
    at position [t] of sample [k] exactly when [t] is a position of that
    truncated row.  [mask_targets] returns one row per sample that has a
    length. *)
Theorem mask_matches_masked_targets (sequence_lengths : list Z)
    (targets : tensor Z) (batch_first : bool) :
  shaped targets →
  length sequence_lengths ≤ batch_size_of batch_first targets →
  ∃ mask,
    create_mask true sequence_lengths targets batch_first = Ok mask ∧
    length (mask_targets targets sequence_lengths batch_first)
      = length sequence_lengths ∧
    ∀ k p, sequence_lengths !! k = Some p →
      ∃ ids,
        mask_targets targets sequence_lengths batch_first !! k = Some ids ∧
        length ids = slice_index (time_size batch_first targets) p ∧
        (∀ t, t < length ids → ids !! t = tag_at batch_first targets k t) ∧
        ∀ t, t < time_size batch_first targets →
             tag_at batch_first mask k t = Some (bool_decide (t < length ids)).
Proof.
  intros Hsh Hlen.
  destruct (create_mask_any sequence_lengths targets batch_first)
    as (mask & Hrun & _ & _ & _ & Hent).
  { intros k l Hk _. apply lookup_lt_Some in Hk. lia. }
  exists mask. split_and!; [done | |].
  - rewrite mask_targets_length by done. lia.
  - intros k p Hp. apply lookup_lt_Some in Hp as Hk.
    destruct (mask_targets_sample targets sequence_lengths batch_first k p)
      as (ids & Hids & Hl & Hget); [done | done | lia |].
    exists ids. split_and!; try done.
    intros t Ht. rewrite Hent by (done || lia). rewrite Hp. simpl.
    rewrite Hl. f_equal. by apply kept_slice.
Qed.

Lemma mask_matches_masked_targets_witness :
  mask_targets (mkTensor 3 2 [[1; 4]; [2; 5]; [3; 6]]%Z) [(-1)%Z; 3%Z] false
    = [[1; 2]; [4; 5; 6]]%Z ∧
  ∃ mask,
    create_mask true [(-1)%Z; 3%Z] (mkTensor 3 2 [[1; 4]; [2; 5]; [3; 6]]%Z) false
      = Ok mask ∧
    tag_at false mask 0 1 = Some true ∧ tag_at false mask 0 2 = Some false.
Proof.
  split; [reflexivity |].
  destruct (mask_matches_masked_targets [(-1)%Z; 3%Z]
              (mkTensor 3 2 [[1; 4]; [2; 5]; [3; 6]]%Z) false)
    as (mask & Hrun & _ & Hk).
  { split; [reflexivity |]. repeat constructor. }
  { simpl. lia. }
  exists mask. split; [exact Hrun |].
  destruct (Hk 0 (-1)%Z eq_refl) as (ids & Hids & _ & _ & Hent).
  injection Hids as <-.
  split; rewrite Hent by (simpl; lia); reflexivity.
Defined.

(** X13. The count of correct tokens in [train]: the comprehension
    raises (and only [IndexError]) exactly when some prediction is longer
    than the masked target it is zipped with; a count it returns is at
    most the number of predicted tokens; and predictions equal to the
    targets are all counted. *)
Theorem count_correct_outcome (predictions masked_targets : list (list Z)) :
  (∀ e, count_correct predictions masked_targets = Raise e ↔
        e = IndexError ∧
        ∃ k p mt, predictions !! k = Some p ∧ masked_targets !! k = Some mt ∧
                  length mt < length p) ∧
  (∀ n, count_correct predictions masked_targets = Ok n →
        n ≤ sum_list_with length predictions) ∧
  count_correct predictions predictions
    = Ok (sum_list_with length predictions).
Proof.
  split_and!.
  - intros e. apply count_correct_raise_iff.
  - apply count_correct_bound.
  - apply count_correct_self.
Qed.

(** ** The number of valid positions *)

Lemma filter_concat_length {A} (P : A → Prop) `{!∀ x, Decision (P x)}
    (L : list (list A)) :
  length (filter P (concat L)) = sum_list_with (λ r, length (filter P r)) L.
Proof.
  induction L as [|r L IH]; [done |].
  simpl. by rewrite filter_app, length_app, IH.
Qed.

Lemma sum_list_with_plus {A} (f g : A → nat) (l : list A) :
  sum_list_with (λ x, f x + g x) l = sum_list_with f l + sum_list_with g l.
Proof. induction l as [|x l IH]; simpl; lia. Qed.

Lemma sum_list_with_ext_in {A} (f g : A → nat) (l : list A) :
  (∀ x, x ∈ l → f x = g x) → sum_list_with f l = sum_list_with g l.
Proof.
  induction l as [|x l IH]; intros Hfg; [done |].
  simpl. rewrite (Hfg x) by left. rewrite IH; [done |].
  intros y Hy. apply Hfg. by right.
Qed.

Lemma sum_list_with_fmap {A B} (g : B → nat) (f : A → B) (l : list A) :
  sum_list_with g (f <$> l) = sum_list_with (λ x, g (f x)) l.
Proof. induction l as [|x l IH]; [done |]. csimpl. by rewrite IH. Qed.

Lemma count_below (k : nat) : ∀ n i,
  sum_list_with (λ t, if decide (t < k) then 1 else 0) (seq i n)
  = (k `min` (i + n)) - (k `min` i).
Proof.
  induction n as [|n IH]; intros i; simpl; [lia |].
  rewrite IH. case_decide; lia.
Qed.

Lemma count_kept (n : nat) (ks : list nat) :
  Forall (λ k, k ≤ n) ks →
  sum_list_with
    (λ t, length (filter (λ b, b = true) ((λ k, bool_decide (t < k)) <$> ks)))
    (seq 0 n)
  = sum_list_with id ks.
Proof.
  intros Hall. induction Hall as [|k ks Hk Hall IH].
  - simpl. induction (seq 0 n) as [|? ? IHs]; [done |]. simpl. by rewrite IHs.
  - rewrite (sum_list_with_ext_in _
      (λ t, (if decide (t < k) then 1 else 0)
            + length (filter (λ b, b = true)
                             ((λ k, bool_decide (t < k)) <$> ks)))).
    + rewrite sum_list_with_plus, IH, count_below. simpl. lia.
    + intros t _. rewrite fmap_cons, filter_cons.
      destruct (decide (t < k)) as [Ht|Ht].
      * rewrite bool_decide_eq_true_2 by done. by rewrite decide_True.
      * rewrite bool_decide_eq_false_2 by done. by rewrite decide_False.
Qed.

Lemma mask_rows_time_major (mask : tensor bool) (n : nat) (ls : list Z) :
  shaped mask → size0 mask = n → size1 mask = length ls →
  (∀ i t, i < length ls → t < n →
     entry mask t i = Some (from_option (λ l, kept n l t) true (ls !! i))) →
  rows mask
  = (λ t, (λ l, bool_decide (t < slice_index n l)) <$> ls) <$> seq 0 n.
Proof.
  intros [Hlen Hrows] H0 H1 Hent. apply list_eq. intros t.
  rewrite list_lookup_fmap.
  destruct (decide (t < n)) as [Ht|Ht].
  - rewrite lookup_seq_lt by done. simpl.
    destruct (lookup_lt_is_Some_2 (rows mask) t) as [r Hr]; [lia |].
    rewrite Hr. f_equal.
    assert (Hrl : length r = length ls).
    { rewrite Forall_forall in Hrows. rewrite <- H1. apply Hrows.
      by eapply list_elem_of_lookup_2. }
    apply list_eq. intros i. rewrite list_lookup_fmap.
    destruct (decide (i < length ls)) as [Hi|Hi].
    + specialize (Hent i t Hi Ht). unfold entry in Hent.
      rewrite Hr in Hent. simpl in Hent. rewrite Hent.
      destruct (lookup_lt_is_Some_2 ls i Hi) as [l Hl]. rewrite Hl. simpl.
      f_equal. by apply kept_slice.
    + rewrite (lookup_ge_None_2 r) by lia.
      by rewrite (lookup_ge_None_2 ls) by lia.
  - rewrite (lookup_ge_None_2 (rows mask)) by lia.
    by rewrite (lookup_ge_None_2 (seq 0 n)) by (rewrite length_seq; lia).
Qed.

Lemma mask_sum_time_major (mask : tensor bool) (n : nat) (ls : list Z) :
  shaped mask → size0 mask = n → size1 mask = length ls →
  (∀ i t, i < length ls → t < n →
     entry mask t i = Some (from_option (λ l, kept n l t) true (ls !! i))) →
  mask_sum mask = sum_list_with (slice_index n) ls.
Proof.
  intros Hsh H0 H1 Hent. unfold mask_sum.
  rewrite (mask_rows_time_major mask n ls) by done.
  rewrite filter_concat_length, sum_list_with_fmap.
  rewrite (sum_list_with_ext_in _
    (λ t, length (filter (λ b, b = true)
            ((λ k, bool_decide (t < k)) <$> (slice_index n <$> ls))))).
  - rewrite count_kept.
    + by rewrite sum_list_with_fmap.
    + apply Forall_fmap, Forall_forall. intros l _. apply slice_index_le.
  - intros t _. by rewrite <- list_fmap_compose.
Qed.

Lemma masked_lengths {A} (n : nat) (rs : list (list A)) : ∀ ls : list Z,
  Forall (λ r, length r = n) rs → length rs = length ls →
  sum_list_with length ((λ lp, py_take lp.2 lp.1) <$> zip rs ls)
  = sum_list_with (slice_index n) ls.
Proof.
  induction rs as [|r rs IH]; intros [|l ls] Hall Hlen; try done.
  apply Forall_cons in Hall as [Hr Hall]. simpl in Hlen.
  csimpl. rewrite IH by (done || lia). f_equal.
  unfold py_take. rewrite length_take, Hr.
  pose proof (slice_index_le n l). lia.
Qed.

(** X26. In the time-major orientation that [train] and [test] use, with
    one length per sample, the number of true positions of the mask (the
    [t_] by which [train] divides) equals the total number of tags that
    [mask_targets] keeps. *)
Theorem mask_sum_counts_target_tokens (sequence_lengths : list Z)
    (targets : tensor Z) :
  shaped targets →
  length sequence_lengths = size1 targets →
  ∃ mask,
    create_mask true sequence_lengths targets false = Ok mask ∧
    mask_sum mask
    = sum_list_with length (mask_targets targets sequence_lengths false).
Proof.
  intros Hsh Hlen.
  destruct (create_mask_any sequence_lengths targets false)
    as (mask & Hrun & Hshm & E0 & E1 & Hent).
  { intros k l Hk _. apply lookup_lt_Some in Hk. simpl. lia. }
  exists mask. split; [done |].
  rewrite (mask_sum_time_major mask (size0 targets) sequence_lengths);
    [| done | done | congruence |].
  - unfold mask_targets. symmetry. apply masked_lengths.
    + apply Forall_lookup. intros k r Hr.
      assert (Hk : k < size1 targets).
      { apply lookup_lt_Some in Hr. simpl in Hr.
        by rewrite length_fmap, length_seq in Hr. }
      destruct (sample_row_spec false targets k Hsh Hk) as (r' & Hr' & Hl & _).
      change (rows (transpose targets) !! k = Some r') in Hr'.
      rewrite Hr in Hr'. by injection Hr' as <-.
    + simpl. by rewrite length_fmap, length_seq.
  - intros i t Hi Ht. apply (Hent i t); simpl; lia.
Qed.

Lemma mask_sum_counts_target_tokens_witness :
  ∃ mask,
    create_mask true [3; 2]%Z (mkTensor 3 2 [[1; 4]; [2; 5]; [3; 0]]%Z) false
      = Ok mask ∧
    mask_sum mask = 5.
Proof.
  destruct (mask_sum_counts_target_tokens [3; 2]%Z
              (mkTensor 3 2 [[1; 4]; [2; 5]; [3; 0]]%Z))
    as (mask & Hrun & Hsum).
  - split; [reflexivity |]. repeat constructor.
  - reflexivity.
  - exists mask. split; [exact Hrun |]. rewrite Hsum. reflexivity.
Defined.

(** ** Frames of training and fitting *)

Section train_frame.
Context `{Backend}.
Implicit Types (self : learner) (s : state) (I : state → Prop).

Lemma foldl_alter_length {B} (f : B → parameter W → parameter W)
    (addr : B → nat) (l : list B) : ∀ h : list (parameter W),
  length (foldl (λ (h : list (parameter W)) x, alter (f x) (addr x) h) h l)
  = length h.
Proof.
  induction l as [|x l IH]; intros h; simpl; [done |].
  by rewrite IH, length_alter.
Qed.

Lemma optimizer_step_shape I l : shape_only I →
  ∀ s, I s → I (foldl optimizer_step_one s l).
Proof.
  intros (Hheap & Hopt & _). induction l as [|a l IH]; intros s Hs; simpl;
    [done |].
  apply IH. unfold optimizer_step_one.
  destruct (heap s !! a) as [p|]; [| done].
  destruct (grad p); [| done].
  apply Hopt, Hheap; [done |]. by rewrite length_insert.
Qed.

Lemma train_batch_shape I self bt :
  shape_only I → preserves I (train_batch self bt).
Proof.
  intros HI. pose proof HI as (Hheap & Hopt & Hmode & Hlog).
  unfold train_batch, zero_grad, loss_backward, optimizer_step.
  repeat (preserves_step
          || (apply preserves_logger_info; by auto)
          || (apply preserves_modify; intros ? ?;
              first [ by apply optimizer_step_shape
                    | apply Hheap; [done | by rewrite foldl_alter_length] ])).
Qed.

Lemma train_batches_shape I self batches : shape_only I →
  ∀ c t, preserves I (train_batches self batches c t).
Proof.
  intros HI. induction batches as [|bt batches IH]; intros c t; simpl.
  - apply preserves_ret.
  - apply preserves_bind; [by apply train_batch_shape | intros ?; apply IH].
Qed.

Lemma set_emb_requires_grad_shape I b :
  shape_only I → preserves I (set_emb_requires_grad b).
Proof.
  intros (Hheap & _). unfold set_emb_requires_grad, emb_weight.
  repeat (preserves_step
          || (apply preserves_modify; intros ? ?; apply Hheap;
              [done | by rewrite length_alter])).
Qed.

Lemma train_shape I self epoch n gen cursor ft :
  shape_only I → preserves I (train self epoch n gen cursor ft).
Proof.
  intros HI. pose proof HI as (Hheap & Hopt & Hmode & Hlog). unfold train.
  repeat (preserves_step
          || (by apply train_batches_shape)
          || (by apply set_emb_requires_grad_shape)
          || (apply preserves_logger_info; by auto)
          || (apply preserves_modify; by auto)).
Qed.

Lemma test_shape I self n gen cursor ft :
  shape_only I → preserves I (test self n gen cursor ft).
Proof. intros (_ & _ & Hmode & Hlog). by apply test_insensitive. Qed.



End train_frame.

(** ** Runs in which no batch is processed *)

Section skipped.
Context `{Backend}.
Implicit Types (self : learner) (s : state).

Lemma train_batches_skipped self batches : ∀ c t s,
  Forall (λ b, size0 (word_ids b) = 1) batches →
  (train_batches self batches c t s).2 = Ok (c, t).
Proof.
  induction batches as [|bt batches IH]; intros c t s Hall; [done |].
  apply Forall_cons in Hall as [Hbt Hall].
  simpl. rewrite bind_run. unfold train_batch.
  rewrite decide_True by done. rewrite bind_run. simpl.
  rewrite !Nat.add_0_r. by apply IH.
Qed.

Lemma test_batches_skipped self batches : ∀ i acc s,
  Forall (λ b, size0 (word_ids b) = 1) batches →
  (test_batches self i batches acc s).2 = Ok acc.
Proof.
  induction batches as [|bt batches IH]; intros i acc s Hall; [done |].
  apply Forall_cons in Hall as [Hbt Hall].
  simpl. rewrite bind_run. unfold test_batch.
  rewrite decide_True by done. rewrite bind_run. simpl.
  by apply IH.
Qed.

Lemma drawn_all_skipped (gen : nat → batch) cursor n :
  (∀ k, k < n → size0 (word_ids (gen (cursor + k))) = 1) →
  Forall (λ b, size0 (word_ids b) = 1) ((λ k, gen (cursor + k)) <$> seq 0 n).
Proof.
  intros Hall. apply Forall_fmap, Forall_forall. intros k Hk.
  apply elem_of_seq in Hk. simpl. apply Hall. lia.
Qed.

Lemma train_skipped self epoch n gen cursor ft s :
  od_mem "emb.weight" (state_dict s) = true →
  (∀ k, k < n → size0 (word_ids (gen (cursor + k))) = 1) →
  (train self epoch n gen cursor ft s).2 = Raise ZeroDivisionError.
Proof.
  intros Hemb Hall. apply od_mem_true in Hemb as [a Ha].
  unfold train.
  rewrite bind_run; unfold logger_info at 1, modify at 1.
  rewrite bind_run; unfold modify at 1.
  rewrite bind_run; unfold set_emb_requires_grad at 1, emb_weight.
  rewrite !bind_run; simpl; rewrite Ha; simpl.
  rewrite bind_run.
  match goal with
  | |- (match train_batches ?sf ?bs ?c ?t ?s0 with _ => _ end).2 = _ =>
      pose proof (train_batches_skipped sf bs c t s0
                    (drawn_all_skipped gen cursor n Hall)) as Hr;
      destruct (train_batches sf bs c t s0) as [s1 r]
  end.
  simpl in Hr. subst r. reflexivity.
Qed.

Lemma test_skipped self n gen cursor ft s :
  (∀ k, k < n → size0 (word_ids (gen (cursor + k))) = 1) →
  (test self n gen cursor ft s).2 = Raise TypeError.
Proof.
  intros Hall. unfold test.
  rewrite bind_run; unfold modify at 1.
  rewrite bind_run.
  match goal with
  | |- (match test_batches ?sf ?i ?bs ?acc ?s0 with _ => _ end).2 = _ =>
      pose proof (test_batches_skipped sf bs i acc s0
                    (drawn_all_skipped gen cursor n Hall)) as Hr;
      destruct (test_batches sf i bs acc s0) as [s1 r]
  end.
  simpl in Hr. subst r. reflexivity.
Qed.

End skipped.

(** ** What [fit] leaves behind *)

Section fit_outcome.
Context `{Backend}.
Implicit Types (self : learner) (s : state).

Lemma snapshot_ext s s' :
  heap s' = heap s → state_dict s' = state_dict s → snapshot s' = snapshot s.
Proof. unfold snapshot. by intros -> ->. Qed.

Lemma fit_run self train_data dev epochs ft s :
  batch_size (learner_config self) ≠ 0 →
  fit self train_data dev epochs ft s
  = (fit_epochs self
       (seq 0 (match epochs with
               | Some (S n) => S n
               | _ => nepochs (learner_config self)
               end))
       ((dataset_len train_data + batch_size (learner_config self) - 1)
          / batch_size (learner_config self))
       (generate train_data (batch_size (learner_config self))) 0
       ((dataset_len dev + batch_size (learner_config self) - 1)
          / batch_size (learner_config self))
       (generate dev (batch_size (learner_config self))) 0 ft ;;
     save self (Some (if ft then ner_ft_path (learner_config self)
                      else ner_model_path (learner_config self))))
      (if ft then set_opt (scheduler_init (opt s)) s
       else add_log (Info "Training Model")
              (set_opt (scheduler_init (opt s)) s)).
Proof.
  intros Hbs. unfold fit, batch_iter. cbv zeta.
  rewrite !decide_False by done.
  destruct ft; reflexivity.
Qed.

Lemma fit_zero_batch_size self train_data dev epochs ft s :
  batch_size (learner_config self) = 0 →
  fit self train_data dev epochs ft s = (s, Raise ZeroDivisionError).
Proof.
  intros Hbs. unfold fit, batch_iter. cbv zeta.
  by rewrite !decide_True by done.
Qed.


Lemma fit_epochs_mode self epochs :
  ∀ nt gt ct nd gd cd ft s s',
    epochs ≠ [] →
    fit_epochs self epochs nt gt ct nd gd cd ft s = (s', Ok ()) →
    training s' = false.
Proof.
  induction epochs as [|e epochs IH]; intros nt gt ct nd gd cd ft s s' Hne;
    [done |].
  simpl. rewrite bind_run. unfold modify at 1.
  rewrite bind_run.
  destruct (train self e nt gt ct ft _) as [s1 [ct1|?]]; [| done].
  rewrite bind_run.
  pose proof (test_frozen self nd gd cd ft s1) as [Hmode _].
  destruct (test self nd gd cd ft s1) as [s2 [cd1|?]]; [| done].
  simpl in Hmode. destruct epochs as [|e' epochs].
  - by intros [= <-].
  - by apply IH.
Qed.

End fit_outcome.

(** X14. An epoch of [train] in which no batch is processed (there is no
    batch, or every batch drawn holds one sentence and is skipped) raises
    [ZeroDivisionError]: the accuracy line divides by the number of
    tokens seen, which is still zero. *)
Theorem train_without_batch_raises `{Backend} (self : learner)
    (epoch nbatches_train : nat) (train_generator : nat → batch)
    (cursor : nat) (fine_tune : bool) (s : state) :
  od_mem "emb.weight" (state_dict s) = true →
  (∀ k, k < nbatches_train →
        size0 (word_ids (train_generator (cursor + k))) = 1) →
  (train self epoch nbatches_train train_generator cursor fine_tune s).2
    = Raise ZeroDivisionError.
Proof. apply train_skipped. Qed.

Lemma train_without_batch_raises_witness :
  (train (toy_learner true) 0 1 (λ _, toy_single) 0 false (toy_state true)).2
    = Raise ZeroDivisionError.
Proof.
  apply (train_without_batch_raises (toy_learner true) 0 1 (λ _, toy_single)
           0 false (toy_state true)).
  - reflexivity.
  - intros k _. reflexivity.
Defined.

(** X15. A run of [test] in which no batch is processed raises
    [TypeError]: [total_step] is still [None] when the report line adds
    one to it. *)
Theorem test_without_batch_raises `{Backend} (self : learner)
    (nbatches_val : nat) (val_generator : nat → batch)
    (cursor : nat) (fine_tune : bool) (s : state) :
  (∀ k, k < nbatches_val →
        size0 (word_ids (val_generator (cursor + k))) = 1) →
  (test self nbatches_val val_generator cursor fine_tune s).2
    = Raise TypeError.
Proof. apply test_skipped. Qed.

Lemma test_without_batch_raises_witness :
  (test (toy_learner true) 1 (λ _, toy_single) 0 false (toy_state true)).2
    = Raise TypeError.
Proof.
  apply (test_without_batch_raises (toy_learner true) 1 (λ _, toy_single)
           0 false (toy_state true)).
  intros k _. reflexivity.
Defined.



(** X18. After a [fit] that returns and ran at least one epoch, the model
    is in inference mode: the last thing before the checkpoint is the
    evaluation on the dev set, and nothing puts the model back in
    training mode. *)
Theorem fit_leaves_inference_mode `{Backend} (self : learner)
    (train_data dev : dataset) (epochs : option nat) (fine_tune : bool)
    (s : state) :
  0 < nepochs (learner_config self) →
  (fit self train_data dev epochs fine_tune s).2 = Ok () →
  training (fit self train_data dev epochs fine_tune s).1 = false.
Proof.
  intros Hep.
  destruct (decide (batch_size (learner_config self) = 0)) as [Hbs|Hbs].
  { by rewrite fit_zero_batch_size. }
  rewrite fit_run by done. rewrite bind_run.
  set (s0 := if fine_tune then _ else _).
  assert (∃ n, match epochs with
               | Some (S n) => S n
               | _ => nepochs (learner_config self)
               end = S n) as [n ->].
  { destruct epochs as [[|n]|]; eauto;
      exists (pred (nepochs (learner_config self))); lia. }
  match goal with
  | |- context [fit_epochs ?sf ?es ?nt ?gt ?ct ?nd ?gd ?cd ?f s0] =>
      pose proof (fit_epochs_mode sf es nt gt ct nd gd cd f s0) as Hmode;
      destruct (fit_epochs sf es nt gt ct nd gd cd f s0) as [s1 [[]|e]]
  end; [| done].
  intros _. rewrite save_run. simpl. by apply (Hmode s1).
Qed.

Lemma fit_leaves_inference_mode_witness :
  training (toy_state true) = true ∧
  training (fit (toy_learner true) [toy_batch; toy_batch]
                [toy_batch; toy_batch] None false (toy_state true)).1 = false.
Proof.
  split; [reflexivity |].
  apply (fit_leaves_inference_mode (toy_learner true) [toy_batch; toy_batch]
           [toy_batch; toy_batch] None false (toy_state true)).
  - simpl. lia.
  - vm_compute. reflexivity.
Defined.

(** ** Which parameters training can change *)

Section parameters.
Context `{Backend}.
Implicit Types (self : learner) (s : state) (p : parameter W).

(** *** A frozen parameter *)

Lemma set_emb_requires_grad_keeps a p :
  requires_grad p = false →
  preserves (embedding_is a p) (set_emb_requires_grad false).
Proof.
  intros Hr. unfold set_emb_requires_grad, emb_weight.
  repeat preserves_step.
  apply preserves_modify. intros s Hs. unfold embedding_is in *. simpl.
  match goal with |- alter _ ?a0 _ !! _ = _ =>
    destruct (decide (a0 = a)) as [->|Hne] end.
  - rewrite list_lookup_alter_eq, Hs. simpl. destruct p; simpl in *. by subst.
  - by rewrite list_lookup_alter_ne.
Qed.

Lemma train_keeps_frozen self epoch n gen cursor ft a p :
  requires_grad p = false → grad p = None →
  preserves (embedding_is a p) (train self epoch n gen cursor ft).
Proof.
  intros Hr Hg. unfold train.
  repeat (preserves_step
          || (by apply train_batches_keeps)
          || (by apply set_emb_requires_grad_keeps)
          || (apply preserves_logger_info; by intros ? ?)
          || (apply preserves_modify; by intros ? ?)).
Qed.

Lemma fit_epochs_keeps_frozen self a p epochs :
  requires_grad p = false → grad p = None →
  ∀ nt gt ct nd gd cd ft,
    preserves (embedding_is a p)
              (fit_epochs self epochs nt gt ct nd gd cd ft).
Proof.
  intros Hr Hg.
  induction epochs as [|e epochs IH]; intros nt gt ct nd gd cd ft; simpl.
  - apply preserves_ret.
  - apply preserves_bind; [by apply preserves_modify | intros _].
    apply preserves_bind; [by apply train_keeps_frozen | intros ?].
    apply preserves_bind; [by apply test_insensitive | intros ?].
    apply IH.
Qed.

Lemma fit_keeps_frozen self train_data dev epochs ft a p :
  requires_grad p = false → grad p = None →
  preserves (embedding_is a p) (fit self train_data dev epochs ft).
Proof.
  intros Hr Hg. unfold fit, batch_iter, save. cbv zeta.
  repeat (preserves_step
          || (by apply fit_epochs_keeps_frozen)
          || (apply preserves_logger_info; by auto)
          || (apply preserves_modify; by auto)).
Qed.

(** *** A parameter the optimizer was not given *)

Lemma foldl_alter_data {B} (f : B → parameter W → parameter W)
    (addr : B → nat) (a : nat) (d : W) (l : list B) :
  (∀ x p, data (f x p) = data p) →
  ∀ h : list (parameter W),
    (∃ p, h !! a = Some p ∧ data p = d) →
    ∃ p, foldl (λ (h : list (parameter W)) x, alter (f x) (addr x) h) h l !! a
         = Some p ∧ data p = d.
Proof.
  intros Hf. induction l as [|x l IH]; intros h (p & Hp & Hd); simpl;
    [by exists p |].
  apply IH. destruct (decide (addr x = a)) as [<-|Hne].
  - exists (f x p). rewrite list_lookup_alter_eq, Hp. by rewrite Hf.
  - exists p. by rewrite list_lookup_alter_ne.
Qed.

Lemma optimizer_step_outside a d l : a ∉ l →
  ∀ s, tensor_is a d s → tensor_is a d (foldl optimizer_step_one s l).
Proof.
  induction l as [|a' l IH]; intros Hnin s Hs; simpl; [done |].
  apply not_elem_of_cons in Hnin as [Hne Hnin].
  apply IH; [done |]. unfold optimizer_step_one.
  destruct (heap s !! a') as [p'|]; [| done].
  destruct (grad p'); [| done].
  destruct Hs as (p & Hp & Hd). exists p. simpl.
  by rewrite list_lookup_insert_ne.
Qed.

Lemma train_batch_outside self a d bt :
  a ∉ optimizer_params self →
  preserves (tensor_is a d) (train_batch self bt).
Proof.
  intros Hnin. unfold train_batch, zero_grad, loss_backward, optimizer_step.
  repeat (preserves_step || (apply preserves_logger_info; by intros ? ?)).
  - apply preserves_modify. intros s Hs. unfold tensor_is. simpl.
    match goal with
    | |- ∃ _, foldl (λ h x, alter (@?f x) _ h) _ _ !! _ = _ ∧ _ =>
        apply (foldl_alter_data f id); [| done]
    end.
    by intros ? ?.
  - apply preserves_modify. intros s Hs. unfold tensor_is. simpl.
    match goal with
    | |- ∃ _, foldl (λ h x, alter (@?f x) _ h) _ _ !! _ = _ ∧ _ =>
        apply (foldl_alter_data f snd); [| done]
    end.
    intros ? p. simpl. by destruct (requires_grad p).
  - apply preserves_modify. intros s Hs. by apply optimizer_step_outside.
Qed.

Lemma train_batches_outside self a d batches :
  a ∉ optimizer_params self →
  ∀ c t, preserves (tensor_is a d) (train_batches self batches c t).
Proof.
  intros Hnin. induction batches as [|bt batches IH]; intros c t; simpl.
  - apply preserves_ret.
  - apply preserves_bind; [by apply train_batch_outside | intros ?; apply IH].
Qed.

Lemma set_emb_requires_grad_data a d b :
  preserves (tensor_is a d) (set_emb_requires_grad b).
Proof.
  unfold set_emb_requires_grad, emb_weight.
  repeat preserves_step.
  apply preserves_modify. intros s (p & Hp & Hd). unfold tensor_is. simpl.
  match goal with |- ∃ _, alter _ ?a0 _ !! _ = _ ∧ _ =>
    destruct (decide (a0 = a)) as [->|Hne] end.
  - eexists. rewrite list_lookup_alter_eq, Hp. simpl. done.
  - exists p. by rewrite list_lookup_alter_ne.
Qed.

Lemma train_outside self epoch n gen cursor ft a d :
  a ∉ optimizer_params self →
  preserves (tensor_is a d) (train self epoch n gen cursor ft).
Proof.
  intros Hnin. unfold train.
  repeat (preserves_step
          || (by apply train_batches_outside)
          || (by apply set_emb_requires_grad_data)
          || (apply preserves_logger_info; by intros ? ?)
          || (apply preserves_modify; by intros ? ?)).
Qed.

Lemma fit_epochs_outside self a d epochs :
  a ∉ optimizer_params self →
  ∀ nt gt ct nd gd cd ft,
    preserves (tensor_is a d) (fit_epochs self epochs nt gt ct nd gd cd ft).
Proof.
  intros Hnin.
  induction epochs as [|e epochs IH]; intros nt gt ct nd gd cd ft; simpl.
  - apply preserves_ret.
  - apply preserves_bind; [by apply preserves_modify | intros _].
    apply preserves_bind; [by apply train_outside | intros ?].
    apply preserves_bind; [by apply test_insensitive | intros ?].
    apply IH.
Qed.

Lemma fit_outside self train_data dev epochs ft a d :
  a ∉ optimizer_params self →
  preserves (tensor_is a d) (fit self train_data dev epochs ft).
Proof.
  intros Hnin. unfold fit, batch_iter, save. cbv zeta.
  repeat (preserves_step
          || (by apply fit_epochs_outside)
          || (apply preserves_logger_info; by auto)
          || (apply preserves_modify; by auto)).
Qed.

(** *** [__init__] and [load_emb] *)

Lemma init_run cfg s :
  cuda_is_available = true →
  init cfg s
  = (set_opt adam_init (add_log (Info "GPU found.") s),
     Ok (mkLearner cfg true ((λ ti, (ti.2, ti.1)) <$> vocab_tags cfg)
                   (state_dict s).*2)).
Proof. intros Hc. unfold init, cuda. rewrite Hc. reflexivity. Qed.

Lemma init_learner cfg s self :
  (init cfg s).2 = Ok self →
  cuda_is_available = true ∧
  self = mkLearner cfg true ((λ ti, (ti.2, ti.1)) <$> vocab_tags cfg)
                   (state_dict s).*2.
Proof.
  destruct cuda_is_available eqn:Hc.
  - rewrite init_run by done. simpl. by intros [= <-].
  - unfold init, cuda. rewrite Hc. done.
Qed.

Lemma load_emb_run self s :
  od_mem "emb.weight" (state_dict s) = true →
  load_emb self s
  = (add_log (Info "Loading pretrained word embeddings")
       (set_heap (heap s ++ [mkParameter (embeddings (learner_config self))
                                         false None])
          (set_state_dict (od_set "emb.weight" (length (heap s)) (state_dict s))
             s)),
     Ok ()).
Proof.
  intros Hemb. unfold load_emb. munfold. simpl. rewrite Hemb. simpl.
  unfold set_emb_requires_grad, emb_weight. munfold. simpl.
  rewrite od_get_set, decide_True by done. simpl.
  unfold set_heap, add_log. simpl. do 3 f_equal.
  rewrite alter_app_r_alt; [| lia]. by rewrite Nat.sub_diag.
Qed.

Lemma model_ok_addresses s n a :
  model_ok s → od_get n (state_dict s) = Some a → a < length (heap s).
Proof.
  intros [_ Hall] Hn. rewrite Forall_forall in Hall.
  apply (Hall (n, a)). by apply od_get_Some_elem_of.
Qed.

Lemma od_set_Forall {V} (P : string * V → Prop) k v (d : odict V) :
  Forall P d → P (k, v) → Forall P (od_set k v d).
Proof.
  intros Hd Hkv. induction Hd as [|[k0 v0] d Hx Hd IH]; simpl.
  - by constructor.
  - case_decide; constructor; by subst.
Qed.

End parameters.

(** X19. Training respects frozen parameters: a parameter object that
    does not require a gradient and carries none is the same object, with
    the same tensor, after an epoch of [train] and after a whole [fit],
    whether they return or raise. *)
Theorem training_keeps_frozen_parameters `{Backend} (self : learner)
    (epoch nbatches_train : nat) (train_generator : nat → batch)
    (cursor : nat) (fine_tune : bool) (train_data dev : dataset)
    (epochs : option nat) (s : state) (a : nat) (p : parameter W) :
  heap s !! a = Some p →
  requires_grad p = false →
  grad p = None →
  heap (train self epoch nbatches_train train_generator cursor fine_tune s).1
    !! a = Some p ∧
  heap (fit self train_data dev epochs fine_tune s).1 !! a = Some p.
Proof.
  intros Hp Hr Hg. split.
  - by apply (train_keeps_frozen self epoch nbatches_train train_generator
                cursor fine_tune a p Hr Hg s).
  - by apply (fit_keeps_frozen self train_data dev epochs fine_tune a p
                Hr Hg s).
Qed.

Lemma training_keeps_frozen_parameters_witness :
  heap (train (toy_learner true) 0 1 (λ _, toy_batch) 0 false
          toy_frozen_state).1 !! 1
    = Some (mkParameter 20%Z false None) ∧
  (train (toy_learner true) 0 1 (λ _, toy_batch) 0 false
     toy_frozen_state).2 = Ok 2.
Proof.
  split; [| vm_compute; reflexivity].
  apply (training_keeps_frozen_parameters (toy_learner true) 0 1
           (λ _, toy_batch) 0 false [] [] None toy_frozen_state 1
           (mkParameter 20%Z false None)); reflexivity.
Defined.

(** X20. Training changes the tensors of no parameter but those handed
    to the optimizer: a parameter object whose address is not among the
    optimizer's parameters holds the same tensor after [train] and after
    [fit], whether they return or raise. *)
Theorem training_changes_only_optimizer_parameters `{Backend}
    (self : learner) (epoch nbatches_train : nat)
    (train_generator : nat → batch) (cursor : nat) (fine_tune : bool)
    (train_data dev : dataset) (epochs : option nat) (s : state)
    (a : nat) (p : parameter W) :
  a ∉ optimizer_params self →
  heap s !! a = Some p →
  tensor_is a (data p)
    (train self epoch nbatches_train train_generator cursor fine_tune s).1 ∧
  tensor_is a (data p) (fit self train_data dev epochs fine_tune s).1.
Proof.
  intros Hnin Hp.
  assert (Hs : tensor_is a (data p) s) by (by exists p).
  split.
  - by apply (train_outside self epoch nbatches_train train_generator cursor
                fine_tune a (data p) Hnin s).
  - by apply (fit_outside self train_data dev epochs fine_tune a (data p)
                Hnin s).
Qed.

Lemma training_changes_only_optimizer_parameters_witness :
  heap (train toy_partial_learner 0 1 (λ _, toy_batch) 0 false
          (toy_state true)).1 !! 1
    = Some (mkParameter 20%Z true (Some 1%Z)) ∧
  @tensor_is (toy_backend true) 1 20%Z
    (train toy_partial_learner 0 1 (λ _, toy_batch) 0 false
       (toy_state true)).1.
Proof.
  split; [vm_compute; reflexivity |].
  apply (training_changes_only_optimizer_parameters toy_partial_learner 0 1
           (λ _, toy_batch) 0 false [] [] None (toy_state true) 1
           (mkParameter 20%Z true None)).
  - by apply (bool_decide_unpack _).
  - reflexivity.
Defined.

(** X21. [load_emb] on a freshly constructed learner: the model keeps
    its parameter names and every parameter object it had; the name
    [emb.weight] now refers to a new object that holds the configured
    embeddings, does not require a gradient and carries none; and this
    new object is not among the parameters the optimizer was given by
    [__init__]. *)
Theorem load_emb_outside_optimizer `{Backend} (cfg : config)
    (self : learner) (s : state) :
  model_ok s →
  (init cfg s).2 = Ok self →
  od_mem "emb.weight" (state_dict s) = true →
  (load_emb self (init cfg s).1).2 = Ok () ∧
  od_get "emb.weight" (state_dict (load_emb self (init cfg s).1).1)
    = Some (length (heap s)) ∧
  heap (load_emb self (init cfg s).1).1 !! length (heap s)
    = Some (mkParameter (embeddings cfg) false None) ∧
  (length (heap s) ∉ optimizer_params self) ∧
  od_keys (state_dict (load_emb self (init cfg s).1).1)
    = od_keys (state_dict s) ∧
  (∀ n, n ≠ "emb.weight" →
        od_get n (state_dict (load_emb self (init cfg s).1).1)
        = od_get n (state_dict s)) ∧
  (∀ a p, heap s !! a = Some p →
          heap (load_emb self (init cfg s).1).1 !! a = Some p) ∧
  model_ok (load_emb self (init cfg s).1).1.
Proof.
  intros Hok Hinit Hemb.
  destruct (init_learner cfg s self Hinit) as [Hc ->].
  rewrite init_run by done. simpl.
  rewrite load_emb_run by done. simpl.
  split_and!.
  - done.
  - rewrite od_get_set. by rewrite decide_True.
  - rewrite lookup_app_r by done. by rewrite Nat.sub_diag.
  - intros Hin. apply list_elem_of_fmap in Hin as ([n a] & Ha & Hin).
    simpl in Ha. destruct Hok as [_ Hall]. rewrite Forall_forall in Hall.
    specialize (Hall _ Hin). simpl in Hall. lia.
  - rewrite od_keys_set. by rewrite Hemb.
  - intros n Hn. rewrite od_get_set. by rewrite decide_False.
  - intros a p Hp. by apply lookup_app_l_Some.
  - destruct Hok as [Hnd Hall]. split; simpl.
    + by apply od_set_NoDup.
    + rewrite length_app. simpl. apply od_set_Forall.
      * eapply Forall_impl; [exact Hall |]. simpl. intros; lia.
      * simpl. lia.
Qed.

Lemma load_emb_outside_optimizer_witness :
  state_dict (load_emb (toy_learner true)
                (init (toy_config true) (toy_state true)).1).1
    = [("emb.weight", 2); ("lstm.weight", 1)] ∧
  2 ∉ optimizer_params (toy_learner true).
Proof.
  assert (Hok : model_ok (toy_state true)).
  { split; [by apply (bool_decide_unpack _) |]. repeat constructor. }
  destruct (load_emb_outside_optimizer (toy_config true) (toy_learner true)
              (toy_state true) Hok) as (_ & _ & _ & Hnin & _);
    [reflexivity | reflexivity |].
  split; [reflexivity | exact Hnin].
Defined.

(** ** Tags of predicted ids *)

Section tags.
Context `{Backend}.
Implicit Types (self : learner) (s : state).

Lemma tags_of_Ok self ids : ∀ tags,
  tags_of self ids = Ok tags ↔
  Forall2 (λ id tag,
             (list_to_map (reverse (idx_to_tag self)) : gmap Z string) !! id
             = Some tag) ids tags.
Proof.
  induction ids as [|id ids IH]; intros tags; simpl.
  - split.
    + intros [= <-]. constructor.
    + intros Hf. by apply Forall2_nil_inv_l in Hf as ->.
  - destruct (_ !! id) as [tag|] eqn:Hid.
    + destruct (tags_of self ids) as [tags'|e] eqn:Hrec; simpl.
      * split.
        -- intros [= <-]. constructor; [done |]. by apply IH.
        -- intros Hf. apply Forall2_cons_inv_l in Hf
             as (tag' & tags'' & Htag & Hf & ->).
           apply IH in Hf. simplify_eq. done.
      * split; [done |]. intros Hf.
        apply Forall2_cons_inv_l in Hf as (tag' & tags'' & _ & Hf & ->).
        apply IH in Hf. done.
    + split; [done |]. intros Hf.
      apply Forall2_cons_inv_l in Hf as (tag' & tags'' & Htag & _).
      congruence.
Qed.

Lemma tags_of_Raise self ids : ∀ e,
  tags_of self ids = Raise e ↔
  e = KeyError ∧
  ∃ id, id ∈ ids ∧
        (list_to_map (reverse (idx_to_tag self)) : gmap Z string) !! id = None.
Proof.
  induction ids as [|id ids IH]; intros e; simpl.
  - split; [done |]. intros (_ & id & Hin & _). by apply elem_of_nil in Hin.
  - destruct (_ !! id) as [tag|] eqn:Hid.
    + destruct (tags_of self ids) as [tags'|e'] eqn:Hrec; simpl.
      * split; [done |]. intros (-> & id' & Hin & Hnone).
        apply elem_of_cons in Hin as [-> | Hin]; [congruence |].
        assert (Hr : @Ok (list string) tags' = Raise KeyError); [| done].
        apply IH. eauto.
      * split.
        -- intros [= <-]. destruct (proj1 (IH e') eq_refl) as (-> & id' & ? & ?).
           split; [done |]. exists id'. split; [by right | done].
        -- intros [-> _]. f_equal.
           by destruct (proj1 (IH e') eq_refl) as (-> & _).
    + split.
      * intros [= <-]. split; [done |]. exists id. split; [left | done].
      * by intros [-> _].
Qed.

(** The dictionary [{idx: tag for tag, idx in vocab_tags.items()}] of a
    vocabulary whose ids are distinct. *)
Lemma idx_to_tag_lookup (vocab : odict Z) id tag :
  NoDup vocab.*2 →
  (list_to_map (reverse ((λ ti : string * Z, (ti.2, ti.1)) <$> vocab))
     : gmap Z string) !! id = Some tag ↔ (tag, id) ∈ vocab.
Proof.
  intros Hnd. rewrite <- elem_of_list_to_map.
  - rewrite elem_of_reverse, list_elem_of_fmap. split.
    + intros ([tag' id'] & [= -> ->] & Hin). done.
    + intros Hin. by exists (tag, id).
  - rewrite fmap_reverse, reverse_Permutation.
    rewrite <- list_fmap_compose. done.
Qed.

Lemma idx_to_tag_lookup_None (vocab : odict Z) id :
  (list_to_map (reverse ((λ ti : string * Z, (ti.2, ti.1)) <$> vocab))
     : gmap Z string) !! id = None ↔ id ∉ vocab.*2.
Proof.
  rewrite <- not_elem_of_list_to_map. rewrite fmap_reverse, elem_of_reverse.
  by rewrite <- list_fmap_compose.
Qed.

End tags.

(** X22. With the [idx_to_tag] dictionary that [__init__] builds from a
    vocabulary whose ids are distinct, the tags looked up for predicted
    ids invert the vocabulary: the lookup returns exactly the list of
    tags whose vocabulary ids are the given ids, one per id; it raises
    (and only [KeyError]) exactly when some id is not in the vocabulary;
    and what [predict] returns is this lookup of the ids returned by
    [predict_batch]. *)
Theorem predicted_tags_invert_vocab `{Backend} (cfg : config)
    (self : learner) (s0 : state) :
  (init cfg s0).2 = Ok self →
  NoDup (vocab_tags cfg).*2 →
  (∀ ids tags,
     tags_of self ids = Ok tags ↔
     Forall2 (λ id tag, (tag, id) ∈ vocab_tags cfg) ids tags) ∧
  (∀ ids e,
     tags_of self ids = Raise e ↔
     e = KeyError ∧ ∃ id, id ∈ ids ∧ id ∉ (vocab_tags cfg).*2) ∧
  (∀ words_raw s tags,
     (predict self words_raw s).2 = Ok tags →
     ∃ ids,
       (predict_batch self [processing_word cfg <$> words_raw] s).2 = Ok ids ∧
       Forall2 (λ id tag, (tag, id) ∈ vocab_tags cfg) ids tags).
Proof.
  intros Hinit Hnd. destruct (init_learner cfg s0 self Hinit) as [_ ->].
  assert (Hok : ∀ ids tags,
            tags_of (mkLearner cfg true ((λ ti, (ti.2, ti.1)) <$> vocab_tags cfg)
                               (state_dict s0).*2) ids = Ok tags ↔
            Forall2 (λ id tag, (tag, id) ∈ vocab_tags cfg) ids tags).
  { intros ids tags. rewrite tags_of_Ok. simpl.
    split; intros Hf; (eapply Forall2_impl; [exact Hf |]);
      intros id tag; by apply idx_to_tag_lookup. }
  split_and!.
  - done.
  - intros ids e. rewrite tags_of_Raise. simpl.
    split; intros (-> & id & Hin & Hid); (split; [done |]); exists id;
      (split; [done |]); by apply idx_to_tag_lookup_None.
  - intros words_raw s tags. unfold predict. simpl.
    destruct (processing_word cfg <$> words_raw) as [|w ws]; [done |].
    rewrite bind_run.
    destruct (predict_batch _ [w :: ws] s) as [s1 [ids|e]]; [| done].
    unfold lift. simpl. intros Htags. exists ids. split; [done |].
    by apply Hok.
Qed.

Lemma predicted_tags_invert_vocab_witness :
  tags_of (toy_learner true) [0; 1; 0]%Z = Ok ["O"; "B-LOC"; "O"]%string ∧
  tags_of (toy_learner true) [0; 2]%Z = Raise KeyError.
Proof.
  destruct (predicted_tags_invert_vocab (toy_config true) (toy_learner true)
              (toy_state true)) as (Hok & Hraise & _).
  - reflexivity.
  - by apply (bool_decide_unpack _).
  - split.
    + apply Hok. repeat constructor.
    + apply Hraise. split; [done |]. exists 2%Z.
      split; by apply (bool_decide_unpack _).
Defined.

(** ** Repeated freezing *)

Lemma set_trainable_twice (b b' : bool) : ∀ l,
  set_trainable b (set_trainable b' l) = set_trainable b l.
Proof.
  fix IH 1. intros [t ps cs].
  change (Module b ((λ _, b) <$> ((λ _, b') <$> ps))
                 (set_trainable b <$> (set_trainable b' <$> cs))
          = Module b ((λ _, b) <$> ps) (set_trainable b <$> cs)).
  f_equal.
  - by rewrite <- list_fmap_compose.
  - induction cs as [|c cs IHcs]; [done |].
    rewrite !fmap_cons. by rewrite IH, IHcs.
Qed.

Lemma set_trainable_freeze_to (n : Z) (c : list module) :
  set_trainable false <$> freeze_to n c = set_trainable false <$> c.
Proof.
  unfold freeze_to. rewrite fmap_app, <- list_fmap_compose.
  rewrite (list_fmap_ext (set_trainable false ∘ set_trainable true)
             (set_trainable false) (drop _ _));
    [| intros; apply set_trainable_twice].
  rewrite <- fmap_app, take_drop. rewrite <- list_fmap_compose.
  apply list_fmap_ext. intros. apply set_trainable_twice.
Qed.

(** X23. The last call to [freeze_to] wins: freezing to [m] after freezing
    to [n] leaves the layer groups exactly as freezing to [m] alone, so
    no call leaves a trace that a later call does not overwrite. *)
Theorem freeze_to_last_call_wins (c : list module) (n m : Z) :
  freeze_to m (freeze_to n c) = freeze_to m c.
Proof.
  unfold freeze_to at 1. by rewrite set_trainable_freeze_to.
Qed.

(** ** The number of batches *)

Lemma ceil_div_bounds (n bs : nat) :
  bs ≠ 0 →
  n ≤ (n + bs - 1) / bs * bs ∧ (n + bs - 1) / bs * bs < n + bs.
Proof.
  intros Hbs.
  pose proof (Nat.div_mod (n + bs - 1) bs Hbs) as Hdm.
  pose proof (Nat.mod_upper_bound (n + bs - 1) bs Hbs) as Hmod.
  split; nia.
Qed.

(** X24. [batch_iter] changes nothing; with a batch size of zero it
    raises [ZeroDivisionError], and otherwise the number of batches it
    returns is the least number of batches of that size that hold the
    whole dataset: they cover it, and one batch fewer would not. *)
Theorem batch_iter_covers_dataset `{Backend} (self : learner)
    (data : dataset) (s : state) :
  (batch_iter self data s).1 = s ∧
  match (batch_iter self data s).2 with
  | Ok (nbatches, _) =>
      batch_size (learner_config self) ≠ 0 ∧
      dataset_len data ≤ nbatches * batch_size (learner_config self) ∧
      nbatches * batch_size (learner_config self)
        < dataset_len data + batch_size (learner_config self)
  | Raise e => e = ZeroDivisionError ∧ batch_size (learner_config self) = 0
  end.
Proof.
  unfold batch_iter. case_decide as Hbs; simpl; [done |].
  split; [done |]. split; [done |]. by apply ceil_div_bounds.
Qed.

(** ** The range of the evaluation metrics *)

Lemma Qc_of_nat_le n m : n ≤ m → (Qc_of_nat n ≤ Qc_of_nat m)%Qc.
Proof.
  intros Hle. unfold Qc_of_nat. apply (proj1 (Z2Qc_inj_le _ _)). lia.
Qed.

Lemma Qcdiv_le_1 (x y : Qc) : (0 < y)%Qc → (x ≤ y)%Qc → (x / y ≤ 1)%Qc.
Proof.
  intros Hy Hle. apply (Qcmult_lt_0_le_reg_r _ _ y); [done |].
  replace (x / y * y)%Qc with x; [by rewrite Qcmult_1_l |].
  field. by apply Qc_pos_ne_0.
Qed.

Lemma Qcdiv_self (x : Qc) : (0 < x)%Qc → (x / x)%Qc = 1%Qc.
Proof. intros Hx. field. by apply Qc_pos_ne_0. Qed.

Lemma Qclt_le (x y : Qc) : (x < y)%Qc → (x ≤ y)%Qc.
Proof. apply Qclt_le_weak. Qed.

Lemma f1_le_1 (p r : Qc) :
  (0 < p)%Qc → (p ≤ 1)%Qc → (0 < r)%Qc → (r ≤ 1)%Qc →
  (2 * p * r / (p + r) ≤ 1)%Qc.
Proof.
  intros Hp Hp1 Hr Hr1. apply Qcdiv_le_1.
  - by apply Qcplus_pos_pos.
  - replace (2 * p * r)%Qc with (p * r + r * p)%Qc by ring.
    apply Qcplus_le_compat.
    + rewrite <- (Qcmult_1_r p) at 2. rewrite (Qcmult_comm p r), (Qcmult_comm p 1).
      apply Qcmult_le_compat_r; [done | by apply Qclt_le].
    + rewrite <- (Qcmult_1_r r) at 2. rewrite (Qcmult_comm r p), (Qcmult_comm r 1).
      apply Qcmult_le_compat_r; [done | by apply Qclt_le].
Qed.

Lemma metrics_range cp tp tc :
  cp ≤ tp → cp ≤ tc →
  ∃ p r f1, metrics cp tp tc = Ok (p, r, f1) ∧
    (0 ≤ p)%Qc ∧ (p ≤ 1)%Qc ∧ (0 ≤ r)%Qc ∧ (r ≤ 1)%Qc ∧
    (0 ≤ f1)%Qc ∧ (f1 ≤ 1)%Qc ∧
    (cp = 0 → p = 0%Qc ∧ r = 0%Qc ∧ f1 = 0%Qc) ∧
    (0 < cp → (0 < p)%Qc ∧ (0 < r)%Qc ∧ (0 < f1)%Qc) ∧
    (0 < cp → cp = tp → cp = tc → p = 1%Qc ∧ r = 1%Qc ∧ f1 = 1%Qc).
Proof.
  intros Hp Hc. rewrite metrics_spec by done.
  destruct (decide (0 < cp)) as [Hpos|Hz].
  - assert (Ha : (0 < Qc_of_nat cp)%Qc) by (apply Qc_of_nat_pos; lia).
    assert (Hb : (0 < Qc_of_nat tp)%Qc) by (apply Qc_of_nat_pos; lia).
    assert (Hd : (0 < Qc_of_nat tc)%Qc) by (apply Qc_of_nat_pos; lia).
    assert (Hpp : (0 < Qc_of_nat cp / Qc_of_nat tp)%Qc) by (by apply Qcdiv_pos).
    assert (Hrp : (0 < Qc_of_nat cp / Qc_of_nat tc)%Qc) by (by apply Qcdiv_pos).
    assert (Hp1 : (Qc_of_nat cp / Qc_of_nat tp ≤ 1)%Qc).
    { apply Qcdiv_le_1; [done | by apply Qc_of_nat_le]. }
    assert (Hr1 : (Qc_of_nat cp / Qc_of_nat tc ≤ 1)%Qc).
    { apply Qcdiv_le_1; [done | by apply Qc_of_nat_le]. }
    assert (Hfp : (0 < 2 * (Qc_of_nat cp / Qc_of_nat tp)
                         * (Qc_of_nat cp / Qc_of_nat tc)
                     / (Qc_of_nat cp / Qc_of_nat tp
                        + Qc_of_nat cp / Qc_of_nat tc))%Qc).
    { apply Qcdiv_pos; [| by apply Qcplus_pos_pos].
      apply Qcmult_pos_pos; [| done]. by apply Qcmult_pos_pos. }
    eexists _, _, _. split; [reflexivity |]. cbv zeta.
    split_and!; try (by apply Qclt_le); try done.
    + by apply f1_le_1.
    + lia.
    + intros _ <- <-. rewrite !Qcdiv_self by done.
      split_and!; [done | done |]. by apply Qc_is_canon.
  - eexists _, _, _. split; [reflexivity |].
    split_and!; try done; lia.
Qed.

Lemma perfect_counts (chunks_of : list Z → list chunk)
    (samples : list (list Z * list Z)) :
  Forall (λ lp, lp.1 = lp.2) samples →
  sum_list_with (λ lp, size (chunk_set chunks_of lp.1 ∩ chunk_set chunks_of lp.2))
                samples
  = sum_list_with (λ lp, size (chunk_set chunks_of lp.2)) samples ∧
  sum_list_with (λ lp, size (chunk_set chunks_of lp.1)) samples
  = sum_list_with (λ lp, size (chunk_set chunks_of lp.2)) samples.
Proof.
  intros Hall.
  induction Hall as [|[lab pred] samples Heq Hall [IH1 IH2]]; [done |].
  simpl in *. subst pred. rewrite IH1, IH2.
  assert (Hself : chunk_set chunks_of lab ∩ chunk_set chunks_of lab
                  = chunk_set chunks_of lab).
  { apply set_eq. intros x. rewrite elem_of_intersection. tauto. }
  by rewrite Hself.
Qed.

(** X25. The precision, recall and F1 that [test] computes from the
    counts its loop accumulates over the pairs it compares always lie
    between 0 and 1; they are all 0 when no predicted chunk is correct
    and all positive otherwise; when every predicted sequence equals its
    gold sequence and there is at least one chunk, all three are exactly
    1; and the F1 in the report line of a run of [test] that returns is
    this F1. *)
Theorem test_metrics_in_unit_interval `{Backend}
    (self : learner) (nbatches_val : nat) (val_generator : nat → batch)
    (cursor : nat) (fine_tune : bool) (s : state) :
  let chunks_of := λ tags, get_chunks tags (vocab_tags (learner_config self)) in
  let batches := (λ k, val_generator (cursor + k)) <$> seq 0 nbatches_val in
  let samples := evaluated_samples s batches in
  let c := foldl (λ c lp, eval_sample chunks_of c lp.1 lp.2) no_counts samples in
  (∀ s1 acc,
     test_batches self 0 batches (no_counts, None) (set_training false s)
       = (s1, Ok acc) →
     acc.1 = c) ∧
  ∃ p r f1,
    metrics (correct_preds c) (total_preds c) (total_correct c)
      = Ok (p, r, f1) ∧
    (0 ≤ p)%Qc ∧ (p ≤ 1)%Qc ∧ (0 ≤ r)%Qc ∧ (r ≤ 1)%Qc ∧
    (0 ≤ f1)%Qc ∧ (f1 ≤ 1)%Qc ∧
    (correct_preds c = 0 → p = 0%Qc ∧ r = 0%Qc ∧ f1 = 0%Qc) ∧
    (0 < correct_preds c → (0 < p)%Qc ∧ (0 < r)%Qc ∧ (0 < f1)%Qc) ∧
    (Forall (λ lp, lp.1 = lp.2) samples → 0 < correct_preds c →
     p = 1%Qc ∧ r = 1%Qc ∧ f1 = 1%Qc) ∧
    match test self nbatches_val val_generator cursor fine_tune s with
    | (s', Ok _) => last (log s') = Some (ValReport (mean (accs c)) f1)
    | (_, Raise e) => e ≠ ZeroDivisionError
    end.
Proof.
  intros chunks_of batches samples c.
  split.
  { intros s1 acc Hloop.
    by apply (test_batches_counts self batches 0 _ s _ s1 acc) in Hloop. }
  destruct (eval_samples_counts chunks_of samples no_counts) as (Hcp & Htp & Htc).
  destruct (eval_samples_bounds chunks_of samples no_counts) as [Hp Hc];
    [done | done |].
  fold c in Hcp, Htp, Htc, Hp, Hc. simpl in Hcp, Htp, Htc.
  destruct (metrics_range _ _ _ Hp Hc)
    as (p & r & f1 & Hm & ? & ? & ? & ? & ? & ? & Hzero & Hpos & Hone).
  exists p, r, f1. split_and!; try done.
  - intros Hperfect Hcpos.
    destruct (perfect_counts chunks_of samples Hperfect) as [E1 E2].
    apply Hone; [done | congruence | congruence].
  - pose proof (test_reports self nbatches_val val_generator cursor fine_tune s)
      as Hrep.
    destruct (test self nbatches_val val_generator cursor fine_tune s)
      as [s' [cur|e]]; [| done].
    destruct Hrep as (p' & r' & f1' & Hm' & Hlast).
    fold batches samples chunks_of c in Hm', Hlast.
    rewrite Hlast. rewrite Hm in Hm'. by simplify_eq.
Qed.

(** ** What evaluation, inference and a training epoch leave alone *)

Section untouched.
Context `{Backend}.
Implicit Types (self : learner) (s : state) (I : state → Prop).

Lemma evaluate_shape I self test_data :
  shape_only I → preserves I (evaluate self test_data).
Proof.
  intros HI. pose proof HI as (_ & _ & Hmode & Hlog).
  unfold evaluate, batch_iter.
  repeat (preserves_step
          || (by apply test_shape)
          || (apply preserves_logger_info; by auto)).
Qed.

Lemma predict_batch_shape I self words :
  shape_only I → preserves I (predict_batch self words).
Proof.
  intros (_ & _ & Hmode & Hlog). unfold predict_batch.
  repeat (preserves_step || (apply preserves_modify; by auto)).
Qed.

Lemma predict_shape I self words_raw :
  shape_only I → preserves I (predict self words_raw).
Proof.
  intros HI. unfold predict.
  repeat (preserves_step || (by apply predict_batch_shape)).
Qed.

(** The files, the names and, for code that never steps the optimizer,
    the optimizer's state. *)
Lemma shape_only_files d k :
  shape_only (λ s, state_dict s = d ∧ disk s = k).
Proof.
  unfold shape_only.
  split_and!; intros s ? (? & ?); intros; simpl; split_and!; congruence.
Qed.

Lemma test_opt self n gen cursor ft o :
  preserves (λ s, opt s = o) (test self n gen cursor ft).
Proof. by apply test_insensitive. Qed.

Lemma evaluate_opt self test_data o :
  preserves (λ s, opt s = o) (evaluate self test_data).
Proof.
  unfold evaluate, batch_iter.
  repeat (preserves_step
          || (by apply test_opt)
          || (apply preserves_logger_info; by auto)).
Qed.

Lemma predict_opt self words_raw o :
  preserves (λ s, opt s = o) (predict self words_raw).
Proof.
  unfold predict, predict_batch.
  repeat (preserves_step || (apply preserves_modify; by auto)).
Qed.

End untouched.

(** X27. Evaluation, inference and a training epoch write no file and
    leave the model's parameter names as they are, whether they return or
    raise; evaluation and inference also leave the optimizer's state
    untouched. *)
Theorem only_save_writes_files `{Backend} (self : learner)
    (epoch nbatches : nat) (generator : nat → batch) (cursor : nat)
    (fine_tune : bool) (test_data : dataset) (words_raw : list string)
    (s : state) :
  (state_dict (train self epoch nbatches generator cursor fine_tune s).1
     = state_dict s ∧
   disk (train self epoch nbatches generator cursor fine_tune s).1 = disk s) ∧
  (state_dict (test self nbatches generator cursor fine_tune s).1
     = state_dict s ∧
   disk (test self nbatches generator cursor fine_tune s).1 = disk s ∧
   opt (test self nbatches generator cursor fine_tune s).1 = opt s) ∧
  (state_dict (evaluate self test_data s).1 = state_dict s ∧
   disk (evaluate self test_data s).1 = disk s ∧
   opt (evaluate self test_data s).1 = opt s) ∧
  (state_dict (predict self words_raw s).1 = state_dict s ∧
   disk (predict self words_raw s).1 = disk s ∧
   opt (predict self words_raw s).1 = opt s).
Proof.
  pose proof (shape_only_files (state_dict s) (disk s)) as HI.
  split_and!.
  - by apply (train_shape _ self epoch nbatches generator cursor fine_tune HI s).
  - by apply (train_shape _ self epoch nbatches generator cursor fine_tune HI s).
  - by apply (test_shape _ self nbatches generator cursor fine_tune HI s).
  - by apply (test_shape _ self nbatches generator cursor fine_tune HI s).
  - by apply (test_opt self nbatches generator cursor fine_tune (opt s) s).
  - by apply (evaluate_shape _ self test_data HI s).
  - by apply (evaluate_shape _ self test_data HI s).
  - by apply (evaluate_opt self test_data (opt s) s).
  - by apply (predict_shape _ self words_raw HI s).
  - by apply (predict_shape _ self words_raw HI s).
  - by apply (predict_opt self words_raw (opt s) s).
Qed.
